(** * YokeFlow: session orchestrator, deep-review trigger and
      prompt-improvement analyzer

    A shallow embedding of the parts of the repository that the
    specification's testable properties talk about:

    - [src/prompt_improvement_analyzer.py]: theme bucketing of deep-review
      recommendations, proposal emission and theme confidence;
    - [src/api/prompt_improvements_routes.py]: the apply-proposal route;
    - [src/orchestrator.py]: [start_session], [stop_session],
      [start_coding_sessions], [orchestrate_agent], the quality hooks;
    - [src/api/main.py]: the background wrappers of the coding endpoints,
      [notify_project_update] and [websocket_endpoint].

    Python values are modelled as follows: [int] as [Z], [str] as the
    [string] of its UTF-8 bytes ([len] counts the code points; [str.lower]
    is fixed on ASCII strings and a parameter elsewhere), UUIDs as [N],
    timestamps as [Z], dictionaries that are only looked up by key as
    [gmap], dictionaries whose iteration order is observable as
    insertion-ordered association lists.  Exceptions are values of [exn]
    and a call that may raise returns a [result]. *)

From Stdlib Require Import ZArith List String Ascii Bool Lia QArith Permutation.
From stdpp Require Import base gmap strings pretty.
From Stdlib Require Sorted.
Import ListNotations.
Open Scope string_scope.
Open Scope list_scope.
Open Scope Z_scope.

Definition uuid := N.
Bind Scope N_scope with uuid.
Definition datetime := Z.

(** ** Exceptions *)

(** The exception classes the code tells apart: [ValueError] and every
    other subclass of [Exception], [KeyboardInterrupt], and the remaining
    subclasses of [BaseException] ([SystemExit], [asyncio.CancelledError]). *)
Inductive exn :=
| ValueError (msg : string)
| Exception (msg : string)
| KeyboardInterrupt
| BaseException (msg : string).

(** [isinstance(e, Exception)] *)
Definition is_Exception (e : exn) : bool :=
  match e with
  | ValueError _ | Exception _ => true
  | KeyboardInterrupt | BaseException _ => false
  end.

(** [str(e)] *)
Definition str_exn (e : exn) : string :=
  match e with
  | ValueError msg | Exception msg | BaseException msg => msg
  | KeyboardInterrupt => ""
  end.

Inductive result (A : Type) :=
| Returned (a : A)
| Raised (e : exn).
Arguments Returned {A} a.
Arguments Raised {A} e.

(** ** Python strings *)

Module PyStr.

(** A [str] is kept as its UTF-8 encoding. A byte below 128 is an ASCII
    character. *)
Definition is_ascii_char (c : ascii) : bool := (nat_of_ascii c <? 128)%nat.

Fixpoint is_ascii (s : string) : bool :=
  match s with
  | EmptyString => true
  | String c s' => is_ascii_char c && is_ascii s'
  end.

(** [len(s)]: the number of code points, which is the number of bytes
    that do not continue a multi-byte sequence (bytes 128 to 191 do). *)
Definition is_continuation (c : ascii) : bool :=
  ((128 <=? nat_of_ascii c) && (nat_of_ascii c <? 192))%nat.

Fixpoint len (s : string) : nat :=
  match s with
  | EmptyString => 0%nat
  | String c s' => ((if is_continuation c then 0 else 1) + len s')%nat
  end.

(** The lower-casing of ASCII: the letters A to Z become a to z, every
    other character stays. This is what [s.lower()] returns when [s] is a
    string of ASCII characters; what [str.lower] does to the other
    characters of Unicode is a parameter of the code that calls it. *)
Definition ascii_lower_char (c : ascii) : ascii :=
  let n := nat_of_ascii c in
  if ((65 <=? n) && (n <=? 90))%nat then ascii_of_nat (n + 32) else c.

Fixpoint ascii_lower (s : string) : string :=
  match s with
  | EmptyString => EmptyString
  | String c s' => String (ascii_lower_char c) (ascii_lower s')
  end.

(** What is known of Python's [str.lower]: on an ASCII string it is
    [ascii_lower]. *)
Definition lowers_ascii (str_lower : string -> string) : Prop :=
  forall s, is_ascii s = true -> str_lower s = ascii_lower s.

(** Two characters that are equal, or the same letter of the ASCII
    alphabet in upper and in lower case. *)
Definition same_letter (c c' : ascii) : Prop :=
  c = c'
  \/ (In c (list_ascii_of_string "ABCDEFGHIJKLMNOPQRSTUVWXYZ")
      /\ nat_of_ascii c' = (nat_of_ascii c + 32)%nat)
  \/ (In c' (list_ascii_of_string "ABCDEFGHIJKLMNOPQRSTUVWXYZ")
      /\ nat_of_ascii c = (nat_of_ascii c' + 32)%nat).

(** Two strings that differ at most in the case of their letters. *)
Fixpoint same_ignoring_case (s s' : string) : Prop :=
  match s, s' with
  | EmptyString, EmptyString => True
  | String c r, String c' r' => same_letter c c' /\ same_ignoring_case r r'
  | _, _ => False
  end.

(** [s.startswith(p)] *)
Fixpoint startswith (p s : string) : bool :=
  match p, s with
  | EmptyString, _ => true
  | String _ _, EmptyString => false
  | String a p', String b s' => Ascii.eqb a b && startswith p' s'
  end.

(** [p in s] for two strings: [p] occurs in [s] as a contiguous run. *)
Fixpoint str_in (p s : string) : bool :=
  startswith p s ||
  match s with
  | EmptyString => false
  | String _ s' => str_in p s'
  end.

(** The declarative reading of [p in s]. *)
Definition contains (p s : string) : Prop :=
  exists pre post, s = pre +:+ p +:+ post.

Definition newline : string := String (ascii_of_nat 10) EmptyString.

(** ["\n".join(l)] *)
Fixpoint join_lines (l : list string) : string :=
  match l with
  | [] => ""
  | [x] => x
  | x :: rest => x +:+ newline +:+ join_lines rest
  end.

End PyStr.

(** ** Insertion-ordered dictionaries

    A Python [dict] iterates in insertion order, and assigning to an
    existing key keeps its position. *)

Section Dict.
Context {K V : Type} `{EqDecision K}.

Fixpoint dict_get (d : list (K * V)) (k : K) : option V :=
  match d with
  | [] => None
  | (k', v) :: d' => if decide (k' = k) then Some v else dict_get d' k
  end.

Fixpoint dict_set (d : list (K * V)) (k : K) (v : V) : list (K * V) :=
  match d with
  | [] => [(k, v)]
  | (k', v') :: d' =>
      if decide (k' = k) then (k', v) :: d' else (k', v') :: dict_set d' k v
  end.

Definition dict_keys (d : list (K * V)) : list K := map fst d.

End Dict.

(** ** The prompt-improvement analyzer
    ([src/prompt_improvement_analyzer.py]) *)

Module Analyzer.

(** One row of [_load_deep_review_recommendations]. *)
Record review := {
  rv_session_id : uuid;
  rv_session_number : Z;
  rv_project_name : string;
  rv_overall_rating : Z;
  rv_recommendations : list string
}.

Record session_info := {
  si_session_id : uuid;
  si_session_number : Z;
  si_project_name : string;
  si_overall_rating : Z
}.

(** [theme_keywords], in the order the dict literal lists them. *)
Definition theme_keywords : list (string * list string) :=
  [ ("browser_verification",
      ["browser"; "screenshot"; "playwright"; "visual"; "ui"; "verify"]);
    ("error_handling", ["error"; "recovery"; "debugging"; "fix"; "retry"]);
    ("git_commits", ["commit"; "git"; "message"; "version control"]);
    ("testing", ["test"; "testing"; "unit test"; "e2e"; "coverage"]);
    ("docker", ["docker"; "bash_docker"; "container"]);
    ("parallel_execution", ["parallel"; "concurrent"; "independent"]);
    ("task_management", ["task"; "epic"; "checklist"; "workflow"]);
    ("documentation", ["comment"; "documentation"; "readme"]) ].

(** [any(keyword in rec_lower for keyword in keywords)] *)
Definition any_keyword_in (keywords : list string) (rec_lower : string) : bool :=
  existsb (fun keyword => PyStr.str_in keyword rec_lower) keywords.

Section Aggregate.

(** [str.lower], Python's lower-casing of a Unicode string. The
    properties that depend on what it does assume [PyStr.lowers_ascii] of
    it. *)
Variable str_lower : string -> string.

(** The themes one recommendation is added to: every theme of
    [theme_keywords] with a matching keyword, or [general] when none. *)
Definition matched_themes (rec : string) : list string :=
  let rec_lower := str_lower rec in
  let matched :=
    map fst (List.filter (fun tk => any_keyword_in (snd tk) rec_lower)
               theme_keywords) in
  match matched with
  | [] => ["general"]
  | _ :: _ => matched
  end.

(** An entry of the [themes] defaultdict. *)
Record theme_acc := {
  acc_recommendations : list string;
  acc_session_dict : list (uuid * session_info);
  acc_frequency : Z
}.

Definition empty_acc : theme_acc :=
  {| acc_recommendations := []; acc_session_dict := []; acc_frequency := 0 |}.

(** The body of [for theme in matched_themes]. *)
Definition add_mention (sid : uuid) (info : session_info) (rec : string)
    (themes : list (string * theme_acc)) (theme : string)
    : list (string * theme_acc) :=
  let acc := default empty_acc (dict_get themes theme) in
  dict_set themes theme
    {| acc_recommendations := acc_recommendations acc ++ [rec];
       acc_session_dict :=
         match dict_get (acc_session_dict acc) sid with
         | Some _ => acc_session_dict acc
         | None => dict_set (acc_session_dict acc) sid info
         end;
       acc_frequency := acc_frequency acc + 1 |}.

(** The body of [for rec in review['recommendations']]. *)
Definition add_recommendation (sid : uuid) (info : session_info)
    (themes : list (string * theme_acc)) (rec : string)
    : list (string * theme_acc) :=
  fold_left (add_mention sid info rec) (matched_themes rec) themes.

(** The body of [for review in deep_review_recommendations]. *)
Definition add_review (themes : list (string * theme_acc)) (r : review)
    : list (string * theme_acc) :=
  let info := {| si_session_id := rv_session_id r;
                 si_session_number := rv_session_number r;
                 si_project_name := rv_project_name r;
                 si_overall_rating := rv_overall_rating r |} in
  fold_left (add_recommendation (rv_session_id r) info)
    (rv_recommendations r) themes.

Definition collect_themes (reviews : list review) : list (string * theme_acc) :=
  fold_left add_review reviews [].

(** A value of the dict [_aggregate_recommendations] returns. The average
    is the exact quotient; Python computes it in floating point. *)
Record theme_data := {
  theme_name : string;
  recommendations : list string;
  sessions : list session_info;
  frequency : Z;
  avg_quality : Q;
  unique_sessions : Z
}.

Definition sum_ratings (l : list session_info) : Z :=
  fold_right (fun s acc => si_overall_rating s + acc) 0 l.

Definition finish_theme (entry : string * theme_acc) : list (string * theme_data) :=
  let '(name, data) := entry in
  if 0 <? acc_frequency data then
    let sessions_list := map snd (acc_session_dict data) in
    let unique := Z.of_nat (length sessions_list) in
    let total_quality := sum_ratings sessions_list in
    [ (name,
       {| theme_name := name;
          recommendations := acc_recommendations data;
          sessions := sessions_list;
          frequency := acc_frequency data;
          avg_quality :=
            if 0 <? unique then (inject_Z total_quality / inject_Z unique)%Q
            else 0%Q;
          unique_sessions := unique |}) ]
  else [].

Definition _aggregate_recommendations (deep_review_recommendations : list review)
    : list (string * theme_data) :=
  flat_map finish_theme (collect_themes deep_review_recommendations).

End Aggregate.

Definition _map_theme_to_section (theme : string) : string :=
  default "General Instructions"
    (dict_get
       [ ("browser_verification", "Step 3: Implement and verify the solution");
         ("error_handling", "Error Recovery and Debugging");
         ("git_commits", "Git Workflow");
         ("testing", "Testing Requirements");
         ("docker", "Docker Environment");
         ("parallel_execution", "Tool Usage Optimization");
         ("task_management", "Task Management");
         ("documentation", "Code Documentation");
         ("general", "General Instructions") ] theme).

Definition _calculate_theme_confidence (td : theme_data) : Z :=
  let base :=
    if 5 <=? unique_sessions td then 9
    else if 3 <=? unique_sessions td then 7
    else if 2 <=? unique_sessions td then 5
    else 3 in
  if Qle_bool 9 (avg_quality td) then Z.min 10 (base + 1)
  else if negb (Qle_bool 6 (avg_quality td)) then Z.max 1 (base - 1)
  else base.

(** A value of the JSON object Claude answers with: [null], a string,
    or any other value, kept as the text [str] gives it. *)
Inductive json_value :=
| JNull
| JString (s : string)
| JOther (text : string).

(** [str(v)], as the f-string of the rationale formats a value. *)
Definition json_str (v : json_value) : string :=
  match v with
  | JNull => "None"
  | JString s => s
  | JOther text => text
  end.

(** A JSON object that has the keys [section_name], [proposed_text] and
    [rationale]; [change_type] and [original_text] may be absent. *)
Record diff_result := {
  d_section_name : json_value;
  d_change_type : option json_value;
  d_original_text : option json_value;
  d_proposed_text : json_value;
  d_rationale : json_value
}.

(** What [_generate_diff_with_claude] returns. It returns [None] for the
    answer [null], for an answer that is not JSON, for a JSON value in
    which one of the three keys does not occur, and for a failure of the
    call. The test [key in result] also passes for a JSON array that
    holds the three key names and for a JSON string in which they occur,
    and the method returns these as they are. *)
Inductive claude_answer :=
| NoDiff
| Diff (d : diff_result)
| JsonArray
| JsonText.

Record evidence := {
  ev_type : string;
  ev_theme : string;
  ev_frequency : Z;
  ev_sessions : list session_info;
  ev_avg_quality : Q
}.

Record proposal := {
  prompt_file : string;
  section_name : json_value;
  change_type : json_value;
  original_text : json_value;
  proposed_text : json_value;
  rationale : string;
  proposal_evidence : evidence;
  confidence_level : Z
}.

(** [sorted(l, key=..., reverse=True)] on the frequency: stable, largest
    first. *)
Fixpoint insert_by_frequency (x : string * theme_data)
    (l : list (string * theme_data)) : list (string * theme_data) :=
  match l with
  | [] => [x]
  | y :: l' =>
      if frequency (snd x) <? frequency (snd y)
      then y :: insert_by_frequency x l'
      else x :: l
  end.

Definition sorted_themes (agg : list (string * theme_data))
    : list (string * theme_data) :=
  fold_right insert_by_frequency [] agg.

(** [sorted(recs, key=len)], stable, shortest first. *)
Fixpoint insert_by_length (x : string) (l : list string) : list string :=
  match l with
  | [] => [x]
  | y :: l' =>
      if (PyStr.len y <? PyStr.len x)%nat
      then y :: insert_by_length x l'
      else x :: l
  end.

Definition sorted_by_length (l : list string) : list string :=
  fold_right insert_by_length [] l.

Definition claude_enabled : bool := true.
Definition claude_budget : Z := 3.

Section Proposals.

(** [_generate_diff_with_claude]: the answer of the model is outside the
    program. *)
Variable claude : string -> list string -> string -> string -> claude_answer.

(** The format [{avg_quality:.1f}]. *)
Variable format_1f : Q -> string.

Variables (current_prompt sandbox_type : string).

Definition coding_prompt_file : string :=
  "coding_prompt_" +:+ sandbox_type +:+ ".md".

Definition claude_proposal (name : string) (td : theme_data) (d : diff_result)
    : proposal :=
  {| prompt_file := coding_prompt_file;
     section_name := d_section_name d;
     change_type := default (JString "modification") (d_change_type d);
     original_text := default (JString "") (d_original_text d);
     proposed_text := d_proposed_text d;
     rationale :=
       "[Claude-enhanced] " +:+ json_str (d_rationale d) +:+ " (Recommended by "
       +:+ pretty (unique_sessions td) +:+ " sessions, avg quality: "
       +:+ format_1f (avg_quality td) +:+ "/10)";
     proposal_evidence :=
       {| ev_type := "deep_review_claude";
          ev_theme := name;
          ev_frequency := frequency td;
          ev_sessions := firstn 5 (sessions td);
          ev_avg_quality := avg_quality td |};
     confidence_level := Z.min 10 (_calculate_theme_confidence td + 1) |}.

Definition fallback_proposal (name : string) (td : theme_data) : proposal :=
  let best_recommendations := firstn 3 (sorted_by_length (recommendations td)) in
  {| prompt_file := coding_prompt_file;
     section_name := JString (_map_theme_to_section name);
     change_type := JString "modification";
     original_text := JString "";
     proposed_text :=
       JString
         (PyStr.join_lines (map (fun rec => "- " +:+ rec) best_recommendations));
     rationale :=
       "Recommended by " +:+ pretty (unique_sessions td)
       +:+ " sessions (avg quality: " +:+ format_1f (avg_quality td) +:+ "/10)";
     proposal_evidence :=
       {| ev_type := "deep_review";
          ev_theme := name;
          ev_frequency := frequency td;
          ev_sessions := firstn 5 (sessions td);
          ev_avg_quality := avg_quality td |};
     confidence_level := _calculate_theme_confidence td |}.

(** [proposals.append(proposal)] and the rest of the loop. *)
Definition append_then (p : proposal) (rest : result (list proposal))
    : result (list proposal) :=
  match rest with
  | Returned l => Returned (p :: l)
  | Raised ex => Raised ex
  end.

(** [diff_result.get(...)] on a value that is not a [dict]. *)
Definition no_get (type_name : string) : exn :=
  Exception ("'" +:+ type_name +:+ "' object has no attribute 'get'").

(** The [for theme_name, theme_data in sorted_themes] loop, with the
    counter [claude_used] threaded through. The [try] of the loop covers
    the call of [_generate_diff_with_claude] only: an answer that is not a
    [dict] makes [diff_result.get] raise [AttributeError] out of the
    method, and the proposals built so far are lost. *)
Fixpoint proposals_loop (themes : list (string * theme_data)) (claude_used : Z)
    : result (list proposal) :=
  match themes with
  | [] => Returned []
  | (name, td) :: rest =>
      if frequency td <? 2 then proposals_loop rest claude_used
      else
        let ask :=
          claude_enabled && (claude_used <? claude_budget)
          && (3 <=? unique_sessions td) in
        let diff :=
          if ask then claude name (recommendations td) current_prompt sandbox_type
          else NoDiff in
        let claude_used' := if ask then claude_used + 1 else claude_used in
        match diff with
        | Diff d =>
            append_then (claude_proposal name td d) (proposals_loop rest claude_used')
        | NoDiff =>
            append_then (fallback_proposal name td) (proposals_loop rest claude_used')
        | JsonArray => Raised (no_get "list")
        | JsonText => Raised (no_get "str")
        end
  end.

Definition _generate_proposals_from_deep_reviews
    (aggregated_recommendations : list (string * theme_data))
    : result (list proposal) :=
  proposals_loop (sorted_themes aggregated_recommendations) 0.

End Proposals.

(** The proposals a call hands back: those of the list it returns, none
    when it raises. *)
Definition emitted (r : result (list proposal)) : list proposal :=
  match r with
  | Returned l => l
  | Raised _ => []
  end.

(** A proposal is Claude-enhanced when its evidence says so. *)
Definition claude_enhanced (p : proposal) : bool :=
  bool_decide (ev_type (proposal_evidence p) = "deep_review_claude").

(** The confidence buckets as the specification words them
    (<=2 -> 3, <=3 -> 5, <=5 -> 7, else 9). *)
Definition spec_bucket (unique : Z) : Z :=
  if unique <=? 2 then 3
  else if unique <=? 3 then 5
  else if unique <=? 5 then 7
  else 9.

(** The buckets of the code (>=5 -> 9, >=3 -> 7, >=2 -> 5, else 3). *)
Definition code_bucket (unique : Z) : Z :=
  if 5 <=? unique then 9
  else if 3 <=? unique then 7
  else if 2 <=? unique then 5
  else 3.

(** The adjustment for the extremes of the average quality. *)
Definition quality_adjusted (base : Z) (avg : Q) : Z :=
  if Qle_bool 9 avg then Z.min 10 (base + 1)
  else if negb (Qle_bool 6 avg) then Z.max 1 (base - 1)
  else base.

(** The theme a proposal was emitted for. *)
Definition proposal_theme (p : proposal) : string :=
  ev_theme (proposal_evidence p).

(** The bucket of a theme in the aggregate: its recommendations and its
    total mention frequency (nothing and 0 for a theme that is absent). *)
Definition theme_recommendations (agg : list (string * theme_data))
    (theme : string) : list string :=
  match dict_get agg theme with
  | Some td => recommendations td
  | None => []
  end.

Definition theme_frequency (agg : list (string * theme_data))
    (theme : string) : Z :=
  match dict_get agg theme with
  | Some td => frequency td
  | None => 0
  end.

(** [themes[theme]] read without inserting: the entry of the theme, or
    the default entry of the [defaultdict]. *)
Definition theme_entry (themes : list (string * theme_acc)) (theme : string)
    : theme_acc :=
  default empty_acc (dict_get themes theme).

(** What the loops of [_aggregate_recommendations] keep true of [themes]:
    a theme has one entry, and an entry counts its recommendations, of
    which it has at least one. *)
Definition themes_ok (themes : list (string * theme_acc)) : Prop :=
  NoDup (dict_keys themes)
  /\ Forall (fun entry =>
               0 < acc_frequency (snd entry)
               /\ acc_frequency (snd entry)
                  = Z.of_nat (length (acc_recommendations (snd entry))))
       themes.

(** A recommendation of one of the deep reviews. *)
Definition recommended (reviews : list review) (rec : string) : Prop :=
  exists r, In r reviews /\ In rec (rv_recommendations r).

(** A keyword of the theme occurs in the lower-cased recommendation. *)
Definition theme_matches (str_lower : string -> string) (theme rec : string)
    : Prop :=
  exists keywords keyword,
    In (theme, keywords) theme_keywords /\ In keyword keywords
    /\ PyStr.contains keyword (str_lower rec).

(** The mentions of a theme, in the order the loops meet them. *)
Definition mentions (str_lower : string -> string) (reviews : list review)
    (theme : string) : list string :=
  flat_map
    (fun r =>
       flat_map
         (fun rec =>
            flat_map (fun t => if decide (t = theme) then [rec] else [])
              (matched_themes str_lower rec))
         (rv_recommendations r))
    reviews.

(** The confidence as the specification words it: the bucket, +1 or -1 at
    the extremes of the average quality, +1 when Claude-enhanced, clamped
    to 1..10. *)
Definition spec_confidence (unique : Z) (avg : Q) (enhanced : bool) : Z :=
  Z.max 1
    (Z.min 10
       (spec_bucket unique
        + (if Qle_bool 9 avg then 1 else if negb (Qle_bool 6 avg) then -1 else 0)
        + (if enhanced then 1 else 0))).

(** The confidence the code computes, in closed form. *)
Definition code_confidence (unique : Z) (avg : Q) (enhanced : bool) : Z :=
  Z.min 10
    (quality_adjusted (code_bucket unique) avg + (if enhanced then 1 else 0)).

End Analyzer.

(** ** Statuses *)

Inductive SessionStatus := PENDING | RUNNING | COMPLETED | ERROR | INTERRUPTED.
Inductive SessionType := INITIALIZER | CODING | REVIEW.

#[global] Instance SessionStatus_eq_dec : EqDecision SessionStatus.
Proof. solve_decision. Defined.
#[global] Instance SessionType_eq_dec : EqDecision SessionType.
Proof. solve_decision. Defined.

(** [SessionType.value] *)
Definition session_type_value (t : SessionType) : string :=
  match t with
  | INITIALIZER => "initializer"
  | CODING => "coding"
  | REVIEW => "review"
  end.

(** ** The store

    [database.py] is not among the sources; the operations the
    orchestrator calls are modelled from the specification (sections 3
    and 4.1). *)

Module Store.

Record project_row := {
  proj_id : uuid;
  proj_name : string;
  proj_completed : bool
}.

Record session_row := {
  row_id : uuid;
  row_project : uuid;
  row_number : Z;
  row_type : SessionType;
  row_model : string;
  row_status : SessionStatus;
  row_started_at : option datetime;
  row_ended_at : option datetime;
  row_error_message : option string;
  row_interruption_reason : option string
}.

Record quality_row := {
  qc_session_id : uuid;
  qc_check_type : string;
  qc_overall_rating : Z
}.

Record t := {
  projects : list project_row;
  epics : list uuid;
  sessions : list session_row;
  quality_checks : list quality_row;
  test_coverage : list uuid;
  next_id : uuid
}.

Definition with_sessions (db : t) (l : list session_row) : t :=
  {| projects := projects db; epics := epics db; sessions := l;
     quality_checks := quality_checks db; test_coverage := test_coverage db;
     next_id := next_id db |}.

(** Modelled from the spec: [get_project] of [database.py]; a project is
    looked up by its identifier. *)
Definition get_project (db : t) (project_id : uuid) : option project_row :=
  find (fun p => bool_decide (proj_id p = project_id)) (projects db).

(** Modelled from the spec: [list_epics] of [database.py]; the epics
    belong to one project. *)
Definition list_epics (db : t) (project_id : uuid) : list uuid :=
  List.filter (fun p => bool_decide (p = project_id)) (epics db).

Definition is_running (project_id : uuid) (r : session_row) : bool :=
  bool_decide (row_project r = project_id) && bool_decide (row_status r = RUNNING).

(** Modelled from the spec: [get_active_session(project)] "returns the
    single running session or nothing". *)
Definition get_active_session (db : t) (project_id : uuid) : option session_row :=
  find (is_running project_id) (sessions db).

(** Modelled from the spec: "the allocator picks max(number)+1", the
    first number being 0. *)
Definition get_next_session_number (db : t) (project_id : uuid) : Z :=
  fold_right
    (fun r acc =>
       if bool_decide (row_project r = project_id)
       then Z.max acc (row_number r + 1) else acc)
    0 (sessions db).

Definition number_taken (db : t) (project_id : uuid) (n : Z) : bool :=
  existsb
    (fun r => bool_decide (row_project r = project_id)
              && bool_decide (row_number r = n))
    (sessions db).

(** Modelled from the spec: a session "is created in pending"; the unique
    constraint on (project, session_number) makes the insert fail ([None]
    stands for [asyncpg.UniqueViolationError]). *)
Definition create_session (db : t) (project_id : uuid) (n : Z)
    (ty : SessionType) (model : string) : option (t * session_row) :=
  if number_taken db project_id n then None
  else
    let row :=
      {| row_id := next_id db; row_project := project_id; row_number := n;
         row_type := ty; row_model := model; row_status := PENDING;
         row_started_at := None; row_ended_at := None;
         row_error_message := None; row_interruption_reason := None |} in
    Some ({| projects := projects db; epics := epics db;
             sessions := sessions db ++ [row];
             quality_checks := quality_checks db;
             test_coverage := test_coverage db;
             next_id := N.succ (next_id db) |}, row).

Definition update_row (sid : uuid) (f : session_row -> session_row)
    (r : session_row) : session_row :=
  if bool_decide (row_id r = sid) then f r else r.

(** Modelled from the spec: a session "moves to running at launch". *)
Definition start_session (db : t) (sid : uuid) (now : datetime) : t :=
  with_sessions db
    (map (update_row sid (fun r =>
       {| row_id := row_id r; row_project := row_project r;
          row_number := row_number r; row_type := row_type r;
          row_model := row_model r; row_status := RUNNING;
          row_started_at := Some now; row_ended_at := row_ended_at r;
          row_error_message := row_error_message r;
          row_interruption_reason := row_interruption_reason r |}))
       (sessions db)).

Definition is_terminal (s : SessionStatus) : bool :=
  match s with
  | COMPLETED | ERROR | INTERRUPTED => true
  | PENDING | RUNNING => false
  end.

(** Modelled from the spec: marking a session terminal "sets ended_at if
    null", and "a session's terminal status is set exactly once;
    subsequent mark-terminal calls are no-ops". *)
Definition end_session (db : t) (sid : uuid) (status : SessionStatus)
    (error_message interruption_reason : option string) (now : datetime) : t :=
  with_sessions db
    (map (update_row sid (fun r =>
       if is_terminal (row_status r) then r
       else
         {| row_id := row_id r; row_project := row_project r;
            row_number := row_number r; row_type := row_type r;
            row_model := row_model r; row_status := status;
            row_started_at := row_started_at r;
            row_ended_at :=
              match row_ended_at r with Some t0 => Some t0 | None => Some now end;
            row_error_message := error_message;
            row_interruption_reason := interruption_reason |}))
       (sessions db)).

(** Modelled from the spec: [get_session] of [database.py]; a session is
    looked up by its identifier. *)
Definition get_session (db : t) (sid : uuid) : option session_row :=
  find (fun r => bool_decide (row_id r = sid)) (sessions db).

(** Modelled from the spec: a quality check "belongs to one session" and
    has a kind and an overall rating; [store_quality_check] of
    [database.py] records one. *)
Definition store_quality_check (db : t) (sid : uuid) (check_type : string)
    (rating : Z) : t :=
  {| projects := projects db; epics := epics db; sessions := sessions db;
     quality_checks :=
       quality_checks db ++
       [ {| qc_session_id := sid; qc_check_type := check_type;
            qc_overall_rating := rating |} ];
     test_coverage := test_coverage db; next_id := next_id db |}.

(** Modelled from the spec: [store_test_coverage] of [database.py]
    records the coverage analysis of a project. *)
Definition store_test_coverage (db : t) (project_id : uuid) : t :=
  {| projects := projects db; epics := epics db; sessions := sessions db;
     quality_checks := quality_checks db;
     test_coverage := test_coverage db ++ [project_id];
     next_id := next_id db |}.

(** Modelled from the spec: the epics the agent creates during a session
    (through the task tools, which write to the store). *)
Definition add_epics (db : t) (project_id : uuid) (n : nat) : t :=
  {| projects := projects db; epics := epics db ++ repeat project_id n;
     sessions := sessions db; quality_checks := quality_checks db;
     test_coverage := test_coverage db; next_id := next_id db |}.

(** Modelled from the spec: [mark_project_complete] of [database.py]. *)
Definition mark_project_complete (db : t) (project_id : uuid) : t :=
  {| projects :=
       map (fun p =>
              if bool_decide (proj_id p = project_id)
              then {| proj_id := proj_id p; proj_name := proj_name p;
                      proj_completed := true |}
              else p) (projects db);
     epics := epics db; sessions := sessions db;
     quality_checks := quality_checks db;
     test_coverage := test_coverage db; next_id := next_id db |}.

(** The number of sessions of a project in status [running]. *)
Definition running_count (db : t) (project_id : uuid) : nat :=
  length (List.filter (is_running project_id) (sessions db)).

Definition at_most_one_running (db : t) : Prop :=
  forall project_id, (running_count db project_id <= 1)%nat.

(** Row identifiers are unique and older than the next identifier. *)
Definition well_formed (db : t) : Prop :=
  NoDup (map row_id (sessions db)) /\
  Forall (fun r => (row_id r < next_id db)%N) (sessions db).

(** [r'] is the row [r] later on, not started in between: same session,
    same project, and [running] only if [r] was. *)
Definition row_calmer (r r' : session_row) : Prop :=
  row_id r' = row_id r
  /\ row_project r' = row_project r
  /\ (row_status r' = RUNNING -> row_status r = RUNNING).

(** [db'] has the rows of [db], none inserted and none started. *)
Definition rows_ended (db db' : t) : Prop :=
  next_id db' = next_id db
  /\ Forall2 row_calmer (sessions db) (sessions db').

End Store.

(** ** The deep-review trigger *)

Module Review.

(** Modelled from the spec: a deep check is recorded for the session
    ([review_client.py] is not among the sources). *)
Definition has_deep_check (db : Store.t) (r : Store.session_row) : bool :=
  existsb
    (fun q => bool_decide (Store.qc_session_id q = Store.row_id r)
              && bool_decide (Store.qc_check_type q = "deep"))
    (Store.quality_checks db).

(** Modelled from the spec: the number of the last deep-reviewed session
    of the project, [None] when "no deep review recorded yet"
    ([review_client.py] is not among the sources). *)
Definition last_deep_reviewed_number (db : Store.t) (project_id : uuid)
    : option Z :=
  fold_right
    (fun r acc =>
       if bool_decide (Store.row_project r = project_id) && has_deep_check db r
       then Some (match acc with
                  | Some m => Z.max m (Store.row_number r)
                  | None => Store.row_number r
                  end)
       else acc)
    None (Store.sessions db).

(** Modelled from the spec: [should_trigger_deep_review] of
    [review_client.py], which is not among the sources; the four rules of
    the deep-review trigger policy (section 4.6), in the order given. *)
Definition should_trigger_deep_review (db : Store.t) (project_id : uuid)
    (session_number session_quality : Z) : bool :=
  ((session_number mod 5 =? 0) && (5 <=? session_number))
  || match last_deep_reviewed_number db project_id with
     | None => 5 <=? session_number
     | Some last => 5 <=? session_number - last
     end
  || (session_quality <? 7).

(** The four rules of the trigger policy, as a proposition. *)
Definition trigger_rules (last : option Z) (session_number quality : Z) : Prop :=
  (session_number mod 5 = 0 /\ 5 <= session_number)
  \/ (last = None /\ 5 <= session_number)
  \/ (exists l, last = Some l /\ 5 <= session_number - l)
  \/ quality < 7.

End Review.

(** ** The apply-proposal route
    ([src/api/prompt_improvements_routes.py]) *)

Module Routes.

(** The values of [valid_statuses]. *)
Inductive proposal_status := proposed | accepted | rejected | implemented.

#[global] Instance proposal_status_eq_dec : EqDecision proposal_status.
Proof. solve_decision. Defined.

Record proposal_row := {
  pr_status : proposal_status;
  pr_applied_by : option string;
  pr_applied_to_version : option string
}.

(** What a route hands back: a response, or a raised [HTTPException]. *)
Inductive http_result (A : Type) :=
| Ok (a : A)
| HTTPException (status_code : Z) (detail : string).
Arguments Ok {A} a.
Arguments HTTPException {A} status_code detail.

Record ApplyProposalResponse := {
  success : bool;
  message : string;
  git_commit_hash : option string;
  version_id : option string
}.

(** Modelled from the spec: [update_prompt_proposal_status] of
    [database.py] (not among the sources) records the new status and who
    applied the proposal. *)
Definition update_prompt_proposal_status (db : gmap uuid proposal_row)
    (proposal_id : uuid) (status : proposal_status)
    (applied_by applied_to_version : option string) : gmap uuid proposal_row :=
  match db !! proposal_id with
  | Some _ =>
      <[proposal_id :=
          {| pr_status := status; pr_applied_by := applied_by;
             pr_applied_to_version := applied_to_version |}]> db
  | None => db
  end.

Section ApplyProposal.

(** The constructor [UUID(proposal_id)]; [None] when it raises
    [ValueError]. *)
Variable UUID : string -> option uuid.

Definition apply_proposal (db : gmap uuid proposal_row) (proposal_id : string)
    : gmap uuid proposal_row * http_result ApplyProposalResponse :=
  match UUID proposal_id with
  | None => (db, HTTPException 400 "Invalid proposal ID format")
  | Some proposal_uuid =>
      match db !! proposal_uuid with
      | None => (db, HTTPException 404 "Proposal not found")
      | Some proposal =>
          if negb (bool_decide (pr_status proposal = accepted))
          then (db, HTTPException 400 "Proposal must be 'accepted' before applying")
          else
            (update_prompt_proposal_status db proposal_uuid implemented
               (Some "system") (Some "pending"),
             Ok {| success := true;
                   message :=
                     "Proposal marked as implemented (manual file changes required)";
                   git_commit_hash := None;
                   version_id := None |})
      end
  end.

End ApplyProposal.

(** The state-violation failure of the route. *)
Definition state_violation {A} (r : http_result A) : Prop :=
  r = HTTPException 400 "Proposal must be 'accepted' before applying".

(** The not-found failure of the route. *)
Definition not_found {A} (r : http_result A) : Prop :=
  r = HTTPException 404 "Proposal not found".

End Routes.

(** ** The session orchestrator ([src/orchestrator.py]) *)

Module Orchestrator.

(** [SessionInfo]; [created_at] and the [metrics] dictionary are left
    out, no property below reads them. *)
Record SessionInfo := {
  session_id : uuid;
  project_id : uuid;
  session_number : Z;
  session_type : SessionType;
  model : string;
  status : SessionStatus;
  started_at : option datetime;
  ended_at : option datetime;
  error_message : option string
}.

Definition with_status (i : SessionInfo) (s : SessionStatus) : SessionInfo :=
  {| session_id := session_id i; project_id := project_id i;
     session_number := session_number i; session_type := session_type i;
     model := model i; status := s; started_at := started_at i;
     ended_at := ended_at i; error_message := error_message i |}.

Definition with_started_at (i : SessionInfo) (t0 : datetime) : SessionInfo :=
  {| session_id := session_id i; project_id := project_id i;
     session_number := session_number i; session_type := session_type i;
     model := model i; status := status i; started_at := Some t0;
     ended_at := ended_at i; error_message := error_message i |}.

Definition with_ended_at (i : SessionInfo) (t0 : datetime) : SessionInfo :=
  {| session_id := session_id i; project_id := project_id i;
     session_number := session_number i; session_type := session_type i;
     model := model i; status := status i; started_at := started_at i;
     ended_at := Some t0; error_message := error_message i |}.

Definition with_error_message (i : SessionInfo) (m : string) : SessionInfo :=
  {| session_id := session_id i; project_id := project_id i;
     session_number := session_number i; session_type := session_type i;
     model := model i; status := status i; started_at := started_at i;
     ended_at := ended_at i; error_message := Some m |}.

(** The part of [agent.SessionManager] the orchestrator touches. *)
Record SessionManager := {
  interrupted : bool;
  current_logger : bool
}.

(** A payload handed to the broadcast ([notify_project_update]). *)
Record event := {
  ev_project : uuid;
  ev_type : string;
  ev_reason : string
}.

(** The post-session hooks, recorded when they are invoked. *)
Inductive hook :=
| RunQualityCheck (sid : uuid)
| RunTestCoverage (pid : uuid).

#[global] Instance hook_eq_dec : EqDecision hook.
Proof. solve_decision. Defined.

Record config := {
  models_initializer : string;
  models_coding : string
}.

(** The orchestrator object together with what it acts on: the store, the
    events it has published, the hooks it has invoked and the deep-review
    tasks it has spawned. *)
Record t := {
  db : Store.t;
  session_managers : gmap uuid SessionManager;
  stop_after_current : gmap uuid bool;
  event_callback : bool;
  published : list event;
  hooks : list hook;
  deep_review_tasks : list uuid;
  cfg : config
}.

Definition set_db (o : t) (d : Store.t) : t :=
  {| db := d; session_managers := session_managers o;
     stop_after_current := stop_after_current o;
     event_callback := event_callback o; published := published o;
     hooks := hooks o; deep_review_tasks := deep_review_tasks o; cfg := cfg o |}.

Definition set_session_managers (o : t) (m : gmap uuid SessionManager) : t :=
  {| db := db o; session_managers := m;
     stop_after_current := stop_after_current o;
     event_callback := event_callback o; published := published o;
     hooks := hooks o; deep_review_tasks := deep_review_tasks o; cfg := cfg o |}.

Definition set_flags (o : t) (f : gmap uuid bool) : t :=
  {| db := db o; session_managers := session_managers o;
     stop_after_current := f;
     event_callback := event_callback o; published := published o;
     hooks := hooks o; deep_review_tasks := deep_review_tasks o; cfg := cfg o |}.

(** [notify_project_update(project_id, {"type": ty, ...})] *)
Definition notify (o : t) (pid : uuid) (ty reason : string) : t :=
  {| db := db o; session_managers := session_managers o;
     stop_after_current := stop_after_current o;
     event_callback := event_callback o;
     published :=
       published o ++ [ {| ev_project := pid; ev_type := ty; ev_reason := reason |} ];
     hooks := hooks o; deep_review_tasks := deep_review_tasks o; cfg := cfg o |}.

(** [if self.event_callback: await self.event_callback(project_id, ty, ...)] *)
Definition publish (o : t) (pid : uuid) (ty : string) : t :=
  if event_callback o then notify o pid ty "" else o.

Definition record_hook (o : t) (h : hook) : t :=
  {| db := db o; session_managers := session_managers o;
     stop_after_current := stop_after_current o;
     event_callback := event_callback o; published := published o;
     hooks := hooks o ++ [h]; deep_review_tasks := deep_review_tasks o;
     cfg := cfg o |}.

(** [asyncio.create_task(self._run_deep_review_background(session_id, ...))] *)
Definition spawn_deep_review (o : t) (sid : uuid) : t :=
  {| db := db o; session_managers := session_managers o;
     stop_after_current := stop_after_current o;
     event_callback := event_callback o; published := published o;
     hooks := hooks o; deep_review_tasks := deep_review_tasks o ++ [sid];
     cfg := cfg o |}.

(** *** What the outside world does during one call of [start_session] *)

(** The calls of [start_session] that reach outside the orchestrator and
    may raise, once the session row exists. [AtQualityCheck] and
    [AtTestCoverage] are the first call inside the body of
    [_run_quality_check] and of [_run_test_coverage_analysis];
    [AtClearLogger] is [session_manager.set_current_logger(None)], the
    last statement of the [try] block. *)
Inductive fault_point :=
| AtSetupHandlers
| AtCreateSandbox
| AtSandboxStart
| AtCreateLogger
| AtDbStartSession
| AtSessionStartedCallback
| AtCreateClient
| AtRunAgent
| AtEndSession
| AtQualityCheck
| AtTestCoverage
| AtClearLogger.

#[global] Instance fault_point_eq_dec : EqDecision fault_point.
Proof. solve_decision. Defined.

(** [fault] is the call that raises during the session, if one does;
    [handler_fault] is what [db.end_session] raises when an [except]
    clause of [start_session] calls it, if it does. *)
Record session_env := {
  fault : option (fault_point * exn);
  handler_fault : option exn;
  agent_status : string;
  agent_response : string;
  epics_created : nat;
  jsonl_exists : bool;
  quality_rating : Z;
  coverage_ok : bool;
  t_start : datetime;
  t_end : datetime
}.

Definition fault_at (points : list fault_point) (e : session_env) : option exn :=
  match fault e with
  | Some (p, ex) => if existsb (fun q => bool_decide (q = p)) points then Some ex else None
  | None => None
  end.

(** The fault points inside the [try] block of [start_session]. *)
Definition guarded : list fault_point :=
  [AtSandboxStart; AtCreateLogger; AtDbStartSession; AtSessionStartedCallback;
   AtCreateClient; AtRunAgent; AtEndSession; AtQualityCheck; AtTestCoverage;
   AtClearLogger].

(** The fault points of the [try] block up to [db.end_session]: the row
    of the session is not terminal when one of them raises. *)
Definition before_hooks : list fault_point :=
  [AtSandboxStart; AtCreateLogger; AtDbStartSession; AtSessionStartedCallback;
   AtCreateClient; AtRunAgent; AtEndSession].

(** *** The quality hooks *)

Definition _maybe_trigger_deep_review (o : t) (sid : uuid) (session_quality : Z) : t :=
  match Store.get_session (db o) sid with
  | None => o
  | Some session =>
      if Review.should_trigger_deep_review (db o) (Store.row_project session)
           (Store.row_number session) session_quality
      then spawn_deep_review o sid
      else o
  end.

Definition _run_quality_check (o : t) (sid : uuid) (e : session_env) : t :=
  let o := record_hook o (RunQualityCheck sid) in
  if negb (jsonl_exists e) then o
  else
    let rating := quality_rating e in
    let o := set_db o (Store.store_quality_check (db o) sid "quick" rating) in
    _maybe_trigger_deep_review o sid rating.

Definition _run_test_coverage_analysis (o : t) (pid : uuid) (e : session_env) : t :=
  let o := record_hook o (RunTestCoverage pid) in
  if coverage_ok e then set_db o (Store.store_test_coverage (db o) pid) else o.

(** A call of a post-session hook from [start_session]. The body of the
    hook is one [try] with [except Exception]: an [Exception] raised
    inside is logged and the hook returns, any other exception leaves the
    hook. [raised] is what the first call of the body raises, if it
    does; the hook has then stored nothing. *)
Definition call_hook (o : t) (h : hook) (raised : option exn) (body : t)
    : t * option exn :=
  match raised with
  | None => (body, None)
  | Some ex => (record_hook o h, if is_Exception ex then None else Some ex)
  end.

(** The deep review of session [sid] has been spawned by the quick
    quality check run from state [o]. *)
Definition deep_review_spawned (o : t) (sid : uuid) (e : session_env) : Prop :=
  deep_review_tasks (_run_quality_check o sid e) = deep_review_tasks o ++ [sid].

(** *** [start_session], phase by phase

    Between two phases the coroutine awaits, so other coroutines of the
    same event loop may run. *)

(** [not model] for an [Optional[str]] *)
Definition falsy (m : option string) : bool :=
  match m with
  | None => true
  | Some s => bool_decide (s = "")
  end.

(** [str(started_at)] *)
Definition show_datetime (d : option datetime) : string :=
  match d with
  | Some t0 => pretty t0
  | None => "None"
  end.

Definition busy_message (active_session : Store.session_row) : string :=
  "Cannot start new session: Session "
  +:+ pretty (Store.row_number active_session)
  +:+ " is already running (started "
  +:+ show_datetime (Store.row_started_at active_session)
  +:+ "). Wait for it to complete or stop it first.".

Record prechecked := {
  ad_project : uuid;
  ad_is_initializer : bool;
  ad_model : string
}.

(** Lines 575-630: the project lookup, the concurrency check and the
    choice of the session type. Reads only. *)
Definition precheck (o : t) (pid : uuid) (initializer_model coding_model : option string)
    : result prechecked :=
  match Store.get_project (db o) pid with
  | None => Raised (ValueError ("Project not found: " +:+ pretty pid))
  | Some _ =>
      match Store.get_active_session (db o) pid with
      | Some active_session => Raised (ValueError (busy_message active_session))
      | None =>
          let is_initializer := bool_decide (Store.list_epics (db o) pid = []) in
          if is_initializer && falsy initializer_model
          then Raised (ValueError "initializer_model required for first session")
          else if negb is_initializer && falsy coding_model
          then Raised (ValueError "coding_model required for coding sessions")
          else
            Returned
              {| ad_project := pid;
                 ad_is_initializer := is_initializer;
                 ad_model :=
                   default ""
                     (if is_initializer then initializer_model else coding_model) |}
      end
  end.

(** Lines 636-690: the insert of the session row, the registration of the
    session manager and the construction of the sandbox. The right
    injection carries on, the left one leaves [start_session]. *)
Definition create (o : t) (a : prechecked) (n : Z) (e : session_env)
    : t * (result SessionInfo + SessionInfo) :=
  let ty := if ad_is_initializer a then INITIALIZER else CODING in
  match Store.create_session (db o) (ad_project a) n ty (ad_model a) with
  | None =>
      (o, inl (Raised (ValueError
         ("Session " +:+ pretty n +:+ " already exists for this project. "
          +:+ "Another session may have started concurrently. Please try again."))))
  | Some (db', session) =>
      let info :=
        {| session_id := Store.row_id session;
           project_id := ad_project a;
           session_number := Store.row_number session;
           session_type := ty;
           model := ad_model a;
           status := PENDING;
           started_at := None; ended_at := None; error_message := None |} in
      let o := set_db o db' in
      match fault_at [AtSetupHandlers] e with
      | Some ex => (o, inl (Raised ex))
      | None =>
          let o :=
            set_session_managers o
              (<[Store.row_id session :=
                   {| interrupted := false; current_logger := false |}]>
                 (session_managers o)) in
          match fault_at [AtCreateSandbox] e with
          | Some ex => (o, inl (Raised ex))
          | None => (o, inr info)
          end
      end
  end.

(** The [finally] block: the sandbox is stopped (an [Exception] there is
    logged), the signal handlers are restored, the manager is
    unregistered. The calls of the block are taken to raise nothing
    else. *)
Definition finally_ (o : t) (sid : uuid) : t :=
  set_session_managers o (delete sid (session_managers o)).

(** The two [except] clauses followed by [finally]; an exception neither
    clause matches goes on to the caller. A clause updates the session
    object and calls [db.end_session] outside any [try]: what that call
    raises leaves [start_session] once the [finally] block is done. The
    other calls of the clauses (the logger) are taken not to raise. *)
Definition handle (o : t) (info : SessionInfo) (e : session_env) (ex : exn)
    : t * result SessionInfo :=
  let sid := session_id info in
  match ex with
  | KeyboardInterrupt =>
      let info := with_ended_at (with_status info INTERRUPTED) (t_end e) in
      match handler_fault e with
      | Some ex' => (finally_ o sid, Raised ex')
      | None =>
          let o :=
            set_db o
              (Store.end_session (db o) sid INTERRUPTED None
                 (Some "User interrupted") (t_end e)) in
          (finally_ o sid, Returned info)
      end
  | ValueError _ | Exception _ =>
      let info :=
        with_ended_at (with_error_message (with_status info ERROR) (str_exn ex))
          (t_end e) in
      match handler_fault e with
      | Some ex' => (finally_ o sid, Raised ex')
      | None =>
          let o :=
            set_db o
              (Store.end_session (db o) sid ERROR (Some (str_exn ex)) None
                 (t_end e)) in
          (finally_ o sid, Returned info)
      end
  | BaseException _ => (finally_ o sid, Raised ex)
  end.

Definition handled (o : t) (info : SessionInfo) (e : session_env) (ex : exn)
    : t * (result SessionInfo + SessionInfo) :=
  let '(o', r) := handle o info e ex in (o', inl r).

(** Lines 692-743: the sandbox is started, the logger created, the row
    moved to [running], [session_started] published. *)
Definition launch (o : t) (info : SessionInfo) (e : session_env)
    : t * (result SessionInfo + SessionInfo) :=
  match fault_at [AtSandboxStart; AtCreateLogger; AtDbStartSession] e with
  | Some ex => handled o info e ex
  | None =>
      let sid := session_id info in
      let o :=
        set_session_managers o
          (alter (fun m => {| interrupted := interrupted m; current_logger := true |})
             sid (session_managers o)) in
      let o := set_db o (Store.start_session (db o) sid (t_start e)) in
      let info := with_started_at (with_status info RUNNING) (t_start e) in
      match (if event_callback o then fault_at [AtSessionStartedCallback] e else None) with
      | Some ex => handled o info e ex
      | None => (publish o (project_id info) "session_started", inr info)
      end
  end.

(** Lines 800-809: the post-session hooks and the release of the logger,
    after [db.end_session] has made the row terminal. *)
Definition after_end_session (o : t) (info : SessionInfo) (e : session_env)
    (is_initializer is_error : bool) : t * result SessionInfo :=
  let sid := session_id info in
  let pid := project_id info in
  let '(o, quality) :=
    if negb is_initializer
    then call_hook o (RunQualityCheck sid) (fault_at [AtQualityCheck] e)
           (_run_quality_check o sid e)
    else (o, None) in
  match quality with
  | Some ex => handle o info e ex
  | None =>
      let '(o, coverage) :=
        if is_initializer && negb is_error
        then call_hook o (RunTestCoverage pid) (fault_at [AtTestCoverage] e)
               (_run_test_coverage_analysis o pid e)
        else (o, None) in
      match coverage with
      | Some ex => handle o info e ex
      | None =>
          match fault_at [AtClearLogger] e with
          | Some ex => handle o info e ex
          | None => (finally_ o sid, Returned info)
          end
      end
  end.

(** Lines 745-809 and the handlers: the agent runs, the row is ended, the
    post-session hooks run. *)
Definition execute (o : t) (info : SessionInfo) (e : session_env)
    : t * result SessionInfo :=
  match fault_at [AtCreateClient; AtRunAgent] e with
  | Some ex => handle o info e ex
  | None =>
      let sid := session_id info in
      let pid := project_id info in
      let is_initializer := bool_decide (session_type info = INITIALIZER) in
      let o := set_db o (Store.add_epics (db o) pid (epics_created e)) in
      let is_error := bool_decide (agent_status e = "error") in
      let info :=
        if is_error
        then with_error_message (with_status info ERROR) (agent_response e)
        else with_status info COMPLETED in
      match fault_at [AtEndSession] e with
      | Some ex => handle o info e ex
      | None =>
          let o :=
            set_db o
              (if is_error
               then Store.end_session (db o) sid ERROR (Some (agent_response e))
                      None (t_end e)
               else Store.end_session (db o) sid COMPLETED None None (t_end e)) in
          let info := with_ended_at info (t_end e) in
          after_end_session o info e is_initializer is_error
      end
  end.

Definition start_session (o : t) (e : session_env) (pid : uuid)
    (initializer_model coding_model : option string) : t * result SessionInfo :=
  match precheck o pid initializer_model coding_model with
  | Raised ex => (o, Raised ex)
  | Returned a =>
      let n := Store.get_next_session_number (db o) (ad_project a) in
      match create o a n e with
      | (o, inl r) => (o, r)
      | (o, inr info) =>
          match launch o info e with
          | (o, inl r) => (o, r)
          | (o, inr info) => execute o info e
          end
      end
  end.

(** The failure [ex] has been turned into a terminal session: the
    returned [info] and the session row carry [error] with the message of
    the exception, or [interrupted] for a keyboard interrupt, and the
    session manager is unregistered. *)
Definition failure_recorded (ex : exn) (o' : t) (info : SessionInfo) : Prop :=
  status info = (if is_Exception ex then ERROR else INTERRUPTED)
  /\ (is_Exception ex = true -> error_message info = Some (str_exn ex))
  /\ session_managers o' !! session_id info = None
  /\ exists row,
       In row (Store.sessions (db o'))
       /\ Store.row_id row = session_id info
       /\ Store.row_status row = status info
       /\ (is_Exception ex = true ->
           Store.row_error_message row = Some (str_exn ex))
       /\ (ex = KeyboardInterrupt ->
           Store.row_interruption_reason row = Some "User interrupted").

(** The call at [p] is made in a session of the given kind: the
    callback is called when there is one, the quick quality check for a
    coding session, the test-coverage analysis for an initializer session
    whose agent did not report an error. *)
Definition called (o : t) (e : session_env) (is_initializer : bool)
    (p : fault_point) : bool :=
  match p with
  | AtSessionStartedCallback => event_callback o
  | AtQualityCheck => negb is_initializer
  | AtTestCoverage =>
      is_initializer && negb (bool_decide (agent_status e = "error"))
  | _ => true
  end.

(** The exception [ex] raised by the call at [p] reaches the [except]
    clauses of [start_session]: an [Exception] raised inside a hook does
    not, the hook catches it. *)
Definition reaches_handlers (p : fault_point) (ex : exn) : bool :=
  match p with
  | AtQualityCheck | AtTestCoverage => negb (is_Exception ex)
  | _ => true
  end.

(** The [try] block gets as far as the post-session hooks: no call up to
    [db.end_session] raises. *)
Definition reaches_hooks (o : t) (e : session_env) : bool :=
  match fault e with
  | None => true
  | Some (p, _) =>
      match p with
      | AtQualityCheck | AtTestCoverage | AtClearLogger => true
      | AtSessionStartedCallback => negb (event_callback o)
      | _ => false
      end
  end.

(** The status with which the [try] block ends the session when the
    agent returns. *)
Definition agent_outcome (e : session_env) : SessionStatus :=
  if bool_decide (agent_status e = "error") then ERROR else COMPLETED.

(** *** Several calls in one event loop

    A call in flight is a [task]; one [step] runs it up to its next
    suspension point. *)

Inductive task :=
| Calling (pid : uuid) (initializer_model coding_model : option string)
    (e : session_env)
| Checked (a : prechecked) (e : session_env)
| Numbered (a : prechecked) (n : Z) (e : session_env)
| Created (info : SessionInfo) (e : session_env)
| Launched (info : SessionInfo) (e : session_env)
| Finished (r : result SessionInfo).

Definition step (o : t) (tk : task) : t * task :=
  match tk with
  | Calling pid im cm e =>
      match precheck o pid im cm with
      | Raised ex => (o, Finished (Raised ex))
      | Returned a => (o, Checked a e)
      end
  | Checked a e =>
      (o, Numbered a (Store.get_next_session_number (db o) (ad_project a)) e)
  | Numbered a n e =>
      match create o a n e with
      | (o, inl r) => (o, Finished r)
      | (o, inr info) => (o, Created info e)
      end
  | Created info e =>
      match launch o info e with
      | (o, inl r) => (o, Finished r)
      | (o, inr info) => (o, Launched info e)
      end
  | Launched info e =>
      let '(o, r) := execute o info e in (o, Finished r)
  | Finished r => (o, Finished r)
  end.

Fixpoint run_task (fuel : nat) (o : t) (tk : task) : t * task :=
  match fuel with
  | O => (o, tk)
  | S fuel' => let '(o', tk') := step o tk in run_task fuel' o' tk'
  end.

(** The project a task works for, while it is between its concurrency
    check and its end. *)
Definition in_flight (tk : task) : option uuid :=
  match tk with
  | Calling _ _ _ _ | Finished _ => None
  | Checked a _ | Numbered a _ _ => Some (ad_project a)
  | Created info _ | Launched info _ => Some (project_id info)
  end.

Record world := {
  orch : t;
  tasks : list task
}.

(** The event loop resumes task [i]. *)
Definition resume (w : world) (i : nat) : world :=
  match nth_error (tasks w) i with
  | None => w
  | Some tk =>
      let '(o, tk') := step (orch w) tk in
      {| orch := o; tasks := <[i := tk']> (tasks w) |}
  end.

Definition run_schedule (sched : list nat) (w : world) : world :=
  fold_left resume sched w.

(** No two calls for one project overlap: the tasks in flight work for
    pairwise different projects. *)
Definition serial (w : world) : Prop :=
  NoDup (omap in_flight (tasks w)).

(** Every world a schedule passes through, the first one included. *)
Fixpoint worlds_of (sched : list nat) (w : world) : list world :=
  w :: match sched with
       | [] => []
       | i :: rest => worlds_of rest (resume w i)
       end.

(** What a call in flight relies on. From its concurrency check to its
    launch no session of its project runs; once its row is inserted, the
    rows with its session id are rows of its project. *)
Definition task_ok (db : Store.t) (tk : task) : Prop :=
  match tk with
  | Calling _ _ _ _ | Launched _ _ | Finished _ => True
  | Checked a _ | Numbered a _ _ =>
      Store.running_count db (ad_project a) = 0%nat
  | Created info _ =>
      Store.running_count db (project_id info) = 0%nat
      /\ (session_id info < Store.next_id db)%N
      /\ forall r, In r (Store.sessions db) ->
                   Store.row_id r = session_id info ->
                   Store.row_project r = project_id info
  end.

Definition world_ok (w : world) : Prop :=
  Store.well_formed (db (orch w))
  /\ Store.at_most_one_running (db (orch w))
  /\ Forall (task_ok (db (orch w))) (tasks w).

(** *** Stopping *)

Definition stop_session (o : t) (sid : uuid) (reason : string) (now : datetime)
    : t * bool :=
  match session_managers o !! sid with
  | Some manager =>
      let o :=
        set_session_managers o
          (<[sid := {| interrupted := true;
                       current_logger := current_logger manager |}]>
             (session_managers o)) in
      let o :=
        set_db o
          (Store.end_session (db o) sid INTERRUPTED None (Some reason) now) in
      (o, true)
  | None => (o, false)
  end.

Definition set_stop_after_current (o : t) (pid : uuid) (stop : bool) : t :=
  set_flags o (<[pid := stop]> (stop_after_current o)).

Definition should_stop_after_current (o : t) (pid : uuid) : bool :=
  default false (stop_after_current o !! pid).

(** *** The auto-continue loops *)

(** The dictionary [db.get_progress] returns. *)
Record progress := {
  completed_epics : Z;
  total_epics : Z;
  completed_tasks : Z;
  total_tasks : Z
}.

(** What the outside world does during one iteration of
    [start_coding_sessions]: the progress read at the top, the session,
    the calls of [set_stop_after_current] that arrive while the session
    runs, the progress read after the session. *)
Record iter_env := {
  pre_progress : option progress;
  session : session_env;
  stop_requests : list (uuid * bool);
  post_progress : progress
}.

(** How a loop ends: it returns its last session, it lets an exception
    through, or it is still going when the recorded environment ends. *)
Inductive loop_result :=
| LoopReturned (last_session : option SessionInfo)
| LoopRaised (ex : exn)
| LoopRunning (last_session : option SessionInfo).

Definition apply_stop_requests (o : t) (l : list (uuid * bool)) : t :=
  fold_left (fun o r => set_stop_after_current o (fst r) (snd r)) l o.

(** [max_iterations is not None and iteration >= max_iterations] *)
Definition limit_reached (max_iterations : option Z) (iteration : Z) : bool :=
  match max_iterations with
  | Some m => m <=? iteration
  | None => false
  end.

(** [completed_epics == total_epics and total_epics > 0], under
    [if progress:] *)
Definition all_epics_complete (p : option progress) : bool :=
  match p with
  | Some p => (completed_epics p =? total_epics p) && (0 <? total_epics p)
  | None => false
  end.

Definition failed_or_interrupted (s : SessionStatus) : bool :=
  bool_decide (s = ERROR) || bool_decide (s = INTERRUPTED).

(** [total_tasks > 0 and completed_tasks >= total_tasks] *)
Definition project_done (p : progress) : bool :=
  (0 <? total_tasks p) && (total_tasks p <=? completed_tasks p).

(** An event other than [auto_continue_stopped]. *)
Definition no_stop_event (ev : event) : Prop :=
  ev_type ev <> "auto_continue_stopped".

(** Events that are all [session_started]. *)
Definition only_started (l : list event) : Prop :=
  Forall (fun ev => ev_type ev = "session_started") l.

(** The [while True] loop of [start_coding_sessions]. *)
Fixpoint coding_loop (o : t) (pid : uuid) (coding_model : string)
    (max_iterations : option Z) (envs : list iter_env) (iteration : Z)
    (last_session : option SessionInfo) {struct envs} : t * loop_result :=
  if limit_reached max_iterations iteration then (o, LoopReturned last_session)
  else if default false (stop_after_current o !! pid)
  then (set_flags o (<[pid := false]> (stop_after_current o)),
        LoopReturned last_session)
  else
    match envs with
    | [] => (o, LoopRunning last_session)
    | e :: rest =>
        if all_epics_complete (pre_progress e)
        then (publish o pid "all_epics_complete", LoopReturned last_session)
        else
          let iteration := iteration + 1 in
          let o := if 1 <? iteration then publish o pid "auto_continue_delay" else o in
          match start_session o (session e) pid None (Some coding_model) with
          | (o, Raised ex) =>
              (apply_stop_requests o (stop_requests e), LoopRaised ex)
          | (o, Returned info) =>
              let o := apply_stop_requests o (stop_requests e) in
              if failed_or_interrupted (status info)
              then (o, LoopReturned (Some info))
              else if project_done (post_progress e)
              then
                (publish (set_db o (Store.mark_project_complete (db o) pid)) pid
                   "project_complete",
                 LoopReturned (Some info))
              else coding_loop o pid coding_model max_iterations rest iteration
                     (Some info)
          end
    end.

Definition start_coding_sessions (o : t) (envs : list iter_env) (pid : uuid)
    (coding_model : option string) (max_iterations : option Z)
    : t * loop_result :=
  match Store.get_project (db o) pid with
  | None => (o, LoopRaised (ValueError ("Project not found: " +:+ pretty pid)))
  | Some _ =>
      if bool_decide (Store.list_epics (db o) pid = [])
      then (o, LoopRaised (ValueError
              "Project not initialized. Run start_initialization() first."))
      else
        let coding_model :=
          if falsy coding_model then models_coding (cfg o)
          else default "" coding_model in
        let max_iterations :=
          if bool_decide (max_iterations = None)
             || bool_decide (max_iterations = Some 0)
          then None else max_iterations in
        coding_loop o pid coding_model max_iterations envs 0 None
  end.

(** The [while True] loop of [orchestrate_agent], inside its
    [try ... except KeyboardInterrupt]. *)
Fixpoint orchestrate_agent_loop (o : t) (pid : uuid)
    (initializer_model coding_model : option string)
    (max_iterations : option Z) (envs : list session_env) (iteration : Z)
    (last_session : option SessionInfo) {struct envs} : t * loop_result :=
  if limit_reached max_iterations iteration then (o, LoopReturned last_session)
  else
    match envs with
    | [] => (o, LoopRunning last_session)
    | e :: rest =>
        let iteration := iteration + 1 in
        match start_session o e pid initializer_model coding_model with
        | (o, Raised KeyboardInterrupt) => (o, LoopReturned last_session)
        | (o, Raised ex) => (o, LoopRaised ex)
        | (o, Returned session) =>
            if bool_decide (status session = ERROR)
            then (o, LoopReturned (Some session))
            else if bool_decide (status session = INTERRUPTED)
            then (o, LoopReturned (Some session))
            else orchestrate_agent_loop o pid initializer_model coding_model
                   max_iterations rest iteration (Some session)
        end
    end.

(** [orchestrate_agent], from the point where the project has been found
    or created: [pid] is [project_uuid]. *)
Definition orchestrate_agent (o : t) (envs : list session_env) (pid : uuid)
    (initializer_model coding_model : option string)
    (max_iterations : option Z) : t * loop_result :=
  orchestrate_agent_loop o pid initializer_model coding_model max_iterations
    envs 0 None.

End Orchestrator.

(** ** The background wrappers of the endpoints ([src/api/main.py]) *)

Module Api.
Import Orchestrator.

(** The closure [run_coding] of the endpoint [/coding/start]. With no
    last session, [last_session.to_dict()] raises and the handler
    publishes the error. *)
Definition run_coding (o : t) (envs : list iter_env) (pid : uuid)
    (coding_model : option string) (max_iterations : option Z) : t :=
  match start_coding_sessions o envs pid coding_model max_iterations with
  | (o, LoopReturned (Some _)) => notify o pid "coding_sessions_complete" ""
  | (o, LoopReturned None) =>
      notify o pid "coding_sessions_error"
        "'NoneType' object has no attribute 'to_dict'"
  | (o, LoopRaised ex) =>
      if is_Exception ex then notify o pid "coding_sessions_error" (str_exn ex)
      else o
  | (o, LoopRunning _) => o
  end.

(** The request model [SessionStart]. *)
Record SessionStart := {
  ss_initializer_model : option string;
  ss_coding_model : option string;
  ss_max_iterations : option Z;
  ss_auto_continue : bool
}.

(** The auto-continue loop of the closure [run_session] of the legacy
    endpoint [/sessions/start]. *)
Fixpoint auto_continue_loop (o : t) (pid : uuid)
    (initializer_model coding_model : string) (max_iterations : option Z)
    (envs : list session_env) (iteration : Z) {struct envs} : t * loop_result :=
  if limit_reached max_iterations iteration
  then (notify o pid "auto_continue_stopped" "max_iterations_reached",
        LoopReturned None)
  else
    match envs with
    | [] => (o, LoopRunning None)
    | e :: rest =>
        let iteration := iteration + 1 in
        let o := if 1 <? iteration then notify o pid "auto_continue_delay" "" else o in
        match start_session o e pid (Some initializer_model) (Some coding_model) with
        | (o, Raised ex) => (o, LoopRaised ex)
        | (o, Returned session) =>
            let o := notify o pid "session_completed" "" in
            if bool_decide (status session = ERROR)
            then (notify o pid "auto_continue_stopped" "session_error",
                  LoopReturned (Some session))
            else if bool_decide (status session = INTERRUPTED)
            then (notify o pid "auto_continue_stopped" "session_interrupted",
                  LoopReturned (Some session))
            else auto_continue_loop o pid initializer_model coding_model
                   max_iterations rest iteration
        end
    end.

Definition run_session (o : t) (envs : list session_env) (pid : uuid)
    (session_config : SessionStart) : t :=
  let initializer_model :=
    if falsy (ss_initializer_model session_config)
    then models_initializer (cfg o)
    else default "" (ss_initializer_model session_config) in
  let coding_model :=
    if falsy (ss_coding_model session_config)
    then models_coding (cfg o)
    else default "" (ss_coding_model session_config) in
  let '(o, r) :=
    if ss_auto_continue session_config
    then auto_continue_loop o pid initializer_model coding_model
           (ss_max_iterations session_config) envs 0
    else
      match envs with
      | [] => (o, LoopRunning None)
      | e :: _ =>
          match start_session o e pid (Some initializer_model) (Some coding_model) with
          | (o, Raised ex) => (o, LoopRaised ex)
          | (o, Returned session) =>
              (notify o pid "session_completed" "", LoopReturned (Some session))
          end
      end in
  match r with
  | LoopRaised ex =>
      if is_Exception ex then notify o pid "session_error" (str_exn ex) else o
  | _ => o
  end.

End Api.

(** ** Concrete scenarios *)

Module Scenario.
Import Analyzer.

Definition mk_review (sid : uuid) (n rating : Z) (recs : list string) : review :=
  {| rv_session_id := sid; rv_session_number := n; rv_project_name := "p1";
     rv_overall_rating := rating; rv_recommendations := recs |}.

(** Two deep reviews of quality 7 that both recommend better error
    recovery. *)
Definition two_reviews : list review :=
  [ mk_review 11 5 7 ["Improve error recovery"];
    mk_review 12 10 7 ["improve error recovery"] ].

(** Two deep reviews with five recommendations between them. *)
Definition mixed_reviews : list review :=
  [ mk_review 21 5 8
      ["Fix the retry logic"; "Add unit tests for the API"; "Be kind"];
    mk_review 22 10 6
      ["Write Tests before the commit"; "Handle errors FIRST"] ].

Definition no_claude (_ : string) (_ : list string) (_ _ : string)
    : claude_answer := NoDiff.

Definition one_decimal (_ : Q) : string := "7.0".

(** Three deep reviews of three sessions that all recommend better error
    handling. *)
Definition three_reviews : list review :=
  [ mk_review 31 5 7 ["Improve error recovery"];
    mk_review 32 10 7 ["Handle errors first"];
    mk_review 33 15 7 ["Log every error"] ].

(** Claude answers with the JSON array
    [["section_name", "proposed_text", "rationale"]]. *)
Definition array_claude (_ : string) (_ : list string) (_ _ : string)
    : claude_answer := JsonArray.

(** A store with one project and nothing else, and an orchestrator of the
    API server on it. *)
Definition db0 : Store.t :=
  {| Store.projects :=
       [ {| Store.proj_id := 1; Store.proj_name := "p1";
            Store.proj_completed := false |} ];
     Store.epics := []; Store.sessions := []; Store.quality_checks := [];
     Store.test_coverage := []; Store.next_id := 100 |}.

Definition o0 : Orchestrator.t :=
  {| Orchestrator.db := db0;
     Orchestrator.session_managers := ∅;
     Orchestrator.stop_after_current := ∅;
     Orchestrator.event_callback := true;
     Orchestrator.published := [];
     Orchestrator.hooks := [];
     Orchestrator.deep_review_tasks := [];
     Orchestrator.cfg :=
       {| Orchestrator.models_initializer := "opus";
          Orchestrator.models_coding := "sonnet" |} |}.

(** A session in which nothing fails and the agent creates [n] epics. *)
Definition quiet (n : nat) : Orchestrator.session_env :=
  {| Orchestrator.fault := None;
     Orchestrator.handler_fault := None;
     Orchestrator.agent_status := "continue";
     Orchestrator.agent_response := "done";
     Orchestrator.epics_created := n;
     Orchestrator.jsonl_exists := true;
     Orchestrator.quality_rating := 8;
     Orchestrator.coverage_ok := true;
     Orchestrator.t_start := 10;
     Orchestrator.t_end := 20 |}.

(** A session in which the call at [p] raises [ex]. *)
Definition failing (p : Orchestrator.fault_point) (ex : exn)
    : Orchestrator.session_env :=
  {| Orchestrator.fault := Some (p, ex);
     Orchestrator.handler_fault := None;
     Orchestrator.agent_status := "continue";
     Orchestrator.agent_response := "done";
     Orchestrator.epics_created := 0;
     Orchestrator.jsonl_exists := true;
     Orchestrator.quality_rating := 8;
     Orchestrator.coverage_ok := true;
     Orchestrator.t_start := 10;
     Orchestrator.t_end := 20 |}.

(** The project after its initializer session. *)
Definition o1 : Orchestrator.t :=
  fst (Orchestrator.start_session o0 (quiet 2) 1 (Some "opus") None).

(** One iteration of the coding loop: work remains before and after, and
    [reqs] are the stop requests that arrive during the session. *)
Definition iteration_with (reqs : list (uuid * bool)) : Orchestrator.iter_env :=
  {| Orchestrator.pre_progress :=
       Some {| Orchestrator.completed_epics := 0; Orchestrator.total_epics := 2;
               Orchestrator.completed_tasks := 0; Orchestrator.total_tasks := 5 |};
     Orchestrator.session := quiet 0;
     Orchestrator.stop_requests := reqs;
     Orchestrator.post_progress :=
       {| Orchestrator.completed_epics := 0; Orchestrator.total_epics := 2;
          Orchestrator.completed_tasks := 1; Orchestrator.total_tasks := 5 |} |}.

(** Two calls of [start_session] for project 1 in one event loop. *)
Definition two_calls : Orchestrator.world :=
  {| Orchestrator.orch := o0;
     Orchestrator.tasks :=
       [ Orchestrator.Calling 1 (Some "opus") (Some "sonnet") (quiet 2);
         Orchestrator.Calling 1 (Some "opus") (Some "sonnet") (quiet 2) ] |}.

(** A store in which session 7 of project 1 is running, owned by another
    process. *)
Definition db_foreign : Store.t :=
  {| Store.projects := Store.projects db0; Store.epics := [1%N];
     Store.sessions :=
       [ {| Store.row_id := 50; Store.row_project := 1; Store.row_number := 7;
            Store.row_type := CODING; Store.row_model := "sonnet";
            Store.row_status := RUNNING; Store.row_started_at := Some 1234;
            Store.row_ended_at := None; Store.row_error_message := None;
            Store.row_interruption_reason := None |} ];
     Store.quality_checks := []; Store.test_coverage := [];
     Store.next_id := 100 |}.

Definition o_foreign : Orchestrator.t := Orchestrator.set_db o0 db_foreign.

(** The completed session [n] of project 1, as the trigger test of the
    repository creates it. *)
Definition completed_row (n : nat) : Store.session_row :=
  {| Store.row_id := 100 + N.of_nat n; Store.row_project := 1;
     Store.row_number := Z.of_nat n;
     Store.row_type := if Nat.eqb n 0 then INITIALIZER else CODING;
     Store.row_model := "sonnet"; Store.row_status := COMPLETED;
     Store.row_started_at := Some 10; Store.row_ended_at := Some 20;
     Store.row_error_message := None; Store.row_interruption_reason := None |}.

(** Project 1 with the completed sessions 0 .. [count - 1] and a deep
    review recorded for the sessions of [deep]. *)
Definition db_sessions (count : nat) (deep : list nat) : Store.t :=
  {| Store.projects := Store.projects db0; Store.epics := [1%N];
     Store.sessions := map completed_row (seq 0 count);
     Store.quality_checks :=
       map (fun n => {| Store.qc_session_id := 100 + N.of_nat n;
                        Store.qc_check_type := "deep";
                        Store.qc_overall_rating := 8 |}) deep;
     Store.test_coverage := []; Store.next_id := 100 + N.of_nat count |}.

End Scenario.

(** ** Further methods of [AgentOrchestrator] ([src/orchestrator.py]) *)

Module AgentOrchestrator.
Import Orchestrator.

(** [start_initialization]: the two checks, the default model, and the
    one call of [start_session]. *)
Definition start_initialization (o : t) (e : session_env) (pid : uuid)
    (initializer_model : option string) : t * result SessionInfo :=
  match Store.get_project (db o) pid with
  | None => (o, Raised (ValueError ("Project not found: " +:+ pretty pid)))
  | Some _ =>
      let epics := Store.list_epics (db o) pid in
      if (0 <? length epics)%nat
      then
        (o, Raised (ValueError
           ("Project already initialized with " +:+ pretty (length epics)
            +:+ " epics. Use start_coding_sessions() instead.")))
      else
        let initializer_model :=
          if falsy initializer_model then models_initializer (cfg o)
          else default "" initializer_model in
        start_session o e pid (Some initializer_model) None
  end.

End AgentOrchestrator.

(** ** The sessions of a theme *)

Module AnalyzerSessions.
Import Analyzer.

(** The dict [session_info] the first loop of [_aggregate_recommendations]
    builds from a review. *)
Definition review_session_info (r : review) : session_info :=
  {| si_session_id := rv_session_id r;
     si_session_number := rv_session_number r;
     si_project_name := rv_project_name r;
     si_overall_rating := rv_overall_rating r |}.

(** A recommendation of the review is added to the theme. *)
Definition mentions_theme (str_lower : string -> string) (r : review)
    (theme : string) : Prop :=
  exists rec,
    In rec (rv_recommendations r) /\ In theme (matched_themes str_lower rec).

(** What the loops keep true of the [session_dict] of an entry: a session
    has one item, under its own id; it is the [session_info] of a review
    that satisfies [R]; and there are no more sessions than mentions. *)
Definition acc_sessions_ok (R : session_info -> Prop) (acc : theme_acc) : Prop :=
  NoDup (dict_keys (acc_session_dict acc))
  /\ Z.of_nat (length (acc_session_dict acc)) <= acc_frequency acc
  /\ Forall (fun kv => si_session_id (snd kv) = fst kv /\ R (snd kv))
       (acc_session_dict acc).

Definition sessions_ok (R : session_info -> Prop)
    (themes : list (string * theme_acc)) : Prop :=
  Forall (fun entry =>
            acc_sessions_ok R (snd entry)
            /\ (1 <= length (acc_session_dict (snd entry)))%nat)
    themes.

(** The frequency recorded in the evidence of a proposal. *)
Definition proposal_frequency (p : proposal) : Z :=
  ev_frequency (proposal_evidence p).

End AnalyzerSessions.

(** ** The WebSocket connections of the API ([src/api/main.py])

    [active_connections] maps a project id to the list of the sockets that
    listen to the project. A call is modelled on its own: no other
    coroutine changes [active_connections] while it awaits. *)

Module WebSockets.

(** A [WebSocket] object; two sockets are equal when they are the same
    object. *)
Definition WebSocket := N.

Bind Scope N_scope with WebSocket.

(** The exception classes the handlers tell apart. *)
Inductive ws_exn :=
| WebSocketDisconnect
| RuntimeError (msg : string)
| OtherException (msg : string)
| NonException (msg : string).

(** [isinstance(e, Exception)] *)
Definition is_Exception (e : ws_exn) : bool :=
  match e with
  | NonException _ => false
  | _ => true
  end.

(** [isinstance(e, (WebSocketDisconnect, RuntimeError))] *)
Definition is_closed (e : ws_exn) : bool :=
  match e with
  | WebSocketDisconnect | RuntimeError _ => true
  | _ => false
  end.

(** [l.remove(x)]: drops the first occurrence of [x]; [None] when [x] is
    not in the list and the call raises [ValueError]. *)
Fixpoint list_remove (x : WebSocket) (l : list WebSocket)
    : option (list WebSocket) :=
  match l with
  | [] => None
  | y :: l' =>
      if decide (y = x) then Some l'
      else option_map (cons y) (list_remove x l')
  end.

(** The first loop of [notify_project_update]. [send_json i ws] is what
    sending to the [i]-th socket of the list does: [None] when it returns,
    the exception when it raises. The loop collects the sockets whose
    send raised an [Exception]; any other exception leaves the loop. *)
Fixpoint send_all (send_json : nat -> WebSocket -> option ws_exn) (i : nat)
    (l : list WebSocket) : list WebSocket + ws_exn :=
  match l with
  | [] => inl []
  | websocket :: rest =>
      match send_json i websocket with
      | None => send_all send_json (S i) rest
      | Some ex =>
          if is_Exception ex
          then match send_all send_json (S i) rest with
               | inl disconnected => inl (websocket :: disconnected)
               | inr ex' => inr ex'
               end
          else inr ex
      end
  end.

(** The second loop: [for ws in disconnected: ....remove(ws)]. *)
Fixpoint remove_all (disconnected l : list WebSocket)
    : list WebSocket * option ws_exn :=
  match disconnected with
  | [] => (l, None)
  | ws :: rest =>
      match list_remove ws l with
      | Some l' => remove_all rest l'
      | None => (l, Some (OtherException "list.remove(x): x not in list"))
      end
  end.

Definition notify_project_update (active_connections : gmap string (list WebSocket))
    (send_json : nat -> WebSocket -> option ws_exn) (project_id : string)
    : gmap string (list WebSocket) * option ws_exn :=
  match active_connections !! project_id with
  | None => (active_connections, None)
  | Some l =>
      match send_all send_json 0 l with
      | inr ex => (active_connections, Some ex)
      | inl disconnected =>
          match remove_all disconnected l with
          | (l', Some ex) => (<[project_id := l']> active_connections, Some ex)
          | ([], None) => (delete project_id active_connections, None)
          | (l', None) => (<[project_id := l']> active_connections, None)
          end
      end
  end.

(** The registration at the head of [websocket_endpoint]. *)
Definition register (active_connections : gmap string (list WebSocket)) (project_id : string)
    (websocket : WebSocket) : gmap string (list WebSocket) :=
  <[project_id := default [] (active_connections !! project_id) ++ [websocket]]>
    active_connections.

(** The clean-up of the two inner handlers of [websocket_endpoint]. *)
Definition cleanup (active_connections : gmap string (list WebSocket)) (project_id : string)
    (websocket : WebSocket) : gmap string (list WebSocket) :=
  match active_connections !! project_id with
  | None => active_connections
  | Some l =>
      match list_remove websocket l with
      | None => active_connections
      | Some [] => delete project_id active_connections
      | Some l' => <[project_id := l']> active_connections
      end
  end.

(** How a call of [websocket_endpoint] ends: it returns, it raises, or it
    waits for the next message. *)
Inductive ws_result :=
| WsReturned
| WsRaised (ex : ws_exn)
| WsWaiting.

(** The handler [except WebSocketDisconnect] around the body. *)
Definition outer_handler (active_connections : gmap string (list WebSocket)) (project_id : string)
    (websocket : WebSocket) (ex : ws_exn) : gmap string (list WebSocket) * ws_result :=
  match ex with
  | WebSocketDisconnect =>
      match active_connections !! project_id with
      | None => (active_connections, WsReturned)
      | Some l =>
          match list_remove websocket l with
          | None =>
              (active_connections,
               WsRaised (OtherException "list.remove(x): x not in list"))
          | Some [] => (delete project_id active_connections, WsReturned)
          | Some l' => (<[project_id := l']> active_connections, WsReturned)
          end
      end
  | _ => (active_connections, WsRaised ex)
  end.

(** What [receive_text] does, and [send_text] when the text is a ping. *)
Inductive ws_receive :=
| Received (data : string) (pong : option ws_exn)
| ReceiveRaised (ex : ws_exn).

(** What the client and the database do during one call. *)
Record endpoint_env := {
  accept : option ws_exn;
  connected_message : option ws_exn;
  initial_state : option ws_exn;
  incoming : list ws_receive
}.

(** The loop [while True]: it is left by [break] when the connection
    is closed, and by any other exception. *)
Fixpoint receive_loop (incoming : list ws_receive) : ws_result :=
  match incoming with
  | [] => WsWaiting
  | Received data pong :: rest =>
      if String.eqb data "ping"
      then match pong with
           | None => receive_loop rest
           | Some ex => if is_closed ex then WsReturned else WsRaised ex
           end
      else receive_loop rest
  | ReceiveRaised ex :: _ => if is_closed ex then WsReturned else WsRaised ex
  end.

Definition websocket_endpoint (active_connections : gmap string (list WebSocket))
    (websocket : WebSocket) (project_id : string) (e : endpoint_env)
    : gmap string (list WebSocket) * ws_result :=
  match accept e with
  | Some ex => (active_connections, WsRaised ex)
  | None =>
      let active_connections := register active_connections project_id websocket in
      let keep_alive :=
        match receive_loop (incoming e) with
        | WsRaised ex => outer_handler active_connections project_id websocket ex
        | r => (active_connections, r)
        end in
      match connected_message e with
      | Some ex =>
          if is_closed ex
          then (cleanup active_connections project_id websocket, WsReturned)
          else outer_handler active_connections project_id websocket ex
      | None =>
          match initial_state e with
          | Some ex =>
              if is_closed ex
              then (cleanup active_connections project_id websocket, WsReturned)
              else if is_Exception ex then keep_alive
              else outer_handler active_connections project_id websocket ex
          | None => keep_alive
          end
      end
  end.

(** No project is registered with an empty list. *)
Definition no_empty_list (active_connections : gmap string (list WebSocket)) : Prop :=
  forall project_id, active_connections !! project_id <> Some [].

End WebSockets.

(** * Properties *)

(** ** Strings *)

Lemma startswith_spec (p s : string) :
  PyStr.startswith p s = true <-> exists post, s = p +:+ post.
Proof.
  revert s. induction p as [|a p IH]; intros s; simpl.
  - split; [intros _; exists s; reflexivity | reflexivity].
  - destruct s as [|b s].
    + split; [discriminate | intros [post H]; discriminate].
    + rewrite andb_true_iff, Ascii.eqb_eq, IH. split.
      * intros [-> [post ->]]. exists post. reflexivity.
      * intros [post H]. injection H as -> ->. split; [reflexivity | eauto].
Qed.

Lemma str_in_spec (p s : string) :
  PyStr.str_in p s = true <-> PyStr.contains p s.
Proof.
  unfold PyStr.contains. induction s as [|b s IH].
  - simpl. rewrite orb_false_r, startswith_spec. split.
    + intros [post H]. exists "", post. exact H.
    + intros [pre [post H]]. destruct pre; [eauto | discriminate].
  - cbn [PyStr.str_in]. rewrite orb_true_iff, startswith_spec, IH. split.
    + intros [[post H] | [pre [post H]]].
      * exists "", post. exact H.
      * exists (String b pre), post. simpl. now rewrite H.
    + intros [pre [post H]]. destruct pre as [|c pre].
      * left. exists post. exact H.
      * right. simpl in H. injection H as -> ->. eauto.
Qed.

(** ** The store *)

Lemma sessions_store_quality_check db sid ty rating :
  Store.sessions (Store.store_quality_check db sid ty rating) = Store.sessions db.
Proof. reflexivity. Qed.

Lemma get_session_store_quality_check db sid ty rating sid' :
  Store.get_session (Store.store_quality_check db sid ty rating) sid'
  = Store.get_session db sid'.
Proof. reflexivity. Qed.

Lemma has_deep_check_store_quick db sid rating r :
  Review.has_deep_check (Store.store_quality_check db sid "quick" rating) r
  = Review.has_deep_check db r.
Proof.
  unfold Review.has_deep_check, Store.store_quality_check. simpl.
  rewrite existsb_app. simpl.
  now rewrite andb_false_r, !orb_false_r.
Qed.

Lemma last_deep_reviewed_store_quick db sid rating pid :
  Review.last_deep_reviewed_number
    (Store.store_quality_check db sid "quick" rating) pid
  = Review.last_deep_reviewed_number db pid.
Proof.
  unfold Review.last_deep_reviewed_number.
  rewrite sessions_store_quality_check.
  induction (Store.sessions db) as [|r l IH]; [reflexivity|].
  simpl. rewrite has_deep_check_store_quick, IH. reflexivity.
Qed.

Lemma should_trigger_store_quick db sid rating pid n q :
  Review.should_trigger_deep_review
    (Store.store_quality_check db sid "quick" rating) pid n q
  = Review.should_trigger_deep_review db pid n q.
Proof.
  unfold Review.should_trigger_deep_review.
  now rewrite last_deep_reviewed_store_quick.
Qed.

Lemma last_deep_reviewed_nonneg db pid l :
  Forall (fun r => 0 <= Store.row_number r) (Store.sessions db) ->
  Review.last_deep_reviewed_number db pid = Some l -> 0 <= l.
Proof.
  unfold Review.last_deep_reviewed_number.
  intros Hnn. revert l.
  induction Hnn as [|r rows Hr _ IH]; intros l; simpl; [discriminate|].
  destruct (bool_decide (Store.row_project r = pid) && Review.has_deep_check db r);
    [|apply IH].
  destruct (fold_right _ None rows) as [m|].
  - intros [= <-]. specialize (IH m eq_refl). lia.
  - intros [= <-]. exact Hr.
Qed.

Lemma should_trigger_iff_rules db pid n q :
  Review.should_trigger_deep_review db pid n q = true
  <-> Review.trigger_rules (Review.last_deep_reviewed_number db pid) n q.
Proof.
  unfold Review.should_trigger_deep_review, Review.trigger_rules.
  rewrite !orb_true_iff, andb_true_iff, Z.eqb_eq, Z.leb_le, Z.ltb_lt.
  destruct (Review.last_deep_reviewed_number db pid) as [l|].
  - rewrite Z.leb_le. split.
    + intros [[H | H] | H]; [left; exact H | right; right; left; eauto | right; right; right; exact H].
    + intros [H | [[H _] | [[l' [[= <-] H]] | H]]];
        [left; left; exact H | discriminate | left; right; exact H | right; exact H].
  - rewrite Z.leb_le. split.
    + intros [[H | H] | H]; [left; exact H | right; left; eauto | right; right; right; exact H].
    + intros [H | [[_ H] | [[l' [H _]] | H]]];
        [left; left; exact H | left; right; exact H | discriminate | right; exact H].
Qed.

Lemma run_quality_check_tasks o sid e session :
  Orchestrator.jsonl_exists e = true ->
  Store.get_session (Orchestrator.db o) sid = Some session ->
  Orchestrator.deep_review_tasks (Orchestrator._run_quality_check o sid e)
  = if Review.should_trigger_deep_review (Orchestrator.db o)
         (Store.row_project session) (Store.row_number session)
         (Orchestrator.quality_rating e)
    then Orchestrator.deep_review_tasks o ++ [sid]
    else Orchestrator.deep_review_tasks o.
Proof.
  intros Hj Hs. unfold Orchestrator._run_quality_check.
  rewrite Hj. simpl.
  unfold Orchestrator._maybe_trigger_deep_review. simpl.
  rewrite get_session_store_quality_check. simpl in Hs. rewrite Hs.
  rewrite should_trigger_store_quick.
  destruct (Review.should_trigger_deep_review _ _ _ _); reflexivity.
Qed.

(** C2. After the quick quality check of a session (its log exists and
    its row is in the store), the deep review is spawned exactly when one
    of the four rules of the trigger policy holds, and nothing is spawned
    otherwise; at session 4 with quality 8 it is not spawned and at
    session 5 it is. *)
Theorem deep_review_trigger_policy (o : Orchestrator.t) (sid : uuid)
    (e : Orchestrator.session_env) (session : Store.session_row) :
  Orchestrator.jsonl_exists e = true ->
  Store.get_session (Orchestrator.db o) sid = Some session ->
  Forall (fun r => 0 <= Store.row_number r) (Store.sessions (Orchestrator.db o)) ->
  let n := Store.row_number session in
  let q := Orchestrator.quality_rating e in
  let last :=
    Review.last_deep_reviewed_number (Orchestrator.db o) (Store.row_project session) in
  (Orchestrator.deep_review_spawned o sid e <-> Review.trigger_rules last n q)
  /\ (~ Review.trigger_rules last n q ->
      Orchestrator.deep_review_tasks (Orchestrator._run_quality_check o sid e)
      = Orchestrator.deep_review_tasks o)
  /\ (n = 4 -> q = 8 -> ~ Orchestrator.deep_review_spawned o sid e)
  /\ (n = 5 -> Orchestrator.deep_review_spawned o sid e).
Proof.
  intros Hj Hs Hnn n q last.
  pose proof (run_quality_check_tasks o sid e session Hj Hs) as Htasks.
  pose proof (should_trigger_iff_rules (Orchestrator.db o)
                (Store.row_project session) n q) as Hrules.
  fold last in Hrules. fold n q in Htasks.
  assert (Hiff : Orchestrator.deep_review_spawned o sid e
                 <-> Review.trigger_rules last n q).
  { unfold Orchestrator.deep_review_spawned. rewrite Htasks, <- Hrules.
    destruct (Review.should_trigger_deep_review _ _ n q);
      split; try reflexivity; try discriminate.
    intros H. exfalso.
    apply (f_equal (@length uuid)) in H. rewrite length_app in H. simpl in H. lia. }
  split; [exact Hiff|]. split; [|split].
  - intros Hno. rewrite Htasks.
    destruct (Review.should_trigger_deep_review _ _ n q) eqn:Ht; [|reflexivity].
    exfalso. apply Hno. now apply Hrules.
  - intros Hn Hq. rewrite Hiff. unfold Review.trigger_rules. rewrite Hn, Hq.
    intros [[H _] | [[_ H] | [[l [Hl H]] | H]]]; try lia; try discriminate.
    apply (last_deep_reviewed_nonneg _ _ _ Hnn) in Hl. lia.
  - intros Hn. apply Hiff. left. rewrite Hn. split; [reflexivity | lia].
Qed.

(** ** The analyzer: theme buckets and proposals *)

Section DictFacts.
Context {K V : Type} `{EqDecision K}.
Implicit Types (d : list (K * V)) (k : K) (v : V).

Lemma dict_get_set_eq d k v : dict_get (dict_set d k v) k = Some v.
Proof.
  induction d as [|[k' v'] d IH]; simpl.
  - destruct (decide (k = k)); congruence.
  - destruct (decide (k' = k)) as [->|Hne]; simpl.
    + destruct (decide (k = k)); congruence.
    + destruct (decide (k' = k)); congruence.
Qed.

Lemma dict_get_set_ne d k k' v :
  k <> k' -> dict_get (dict_set d k v) k' = dict_get d k'.
Proof.
  intros Hne. induction d as [|[k0 v0] d IH]; simpl.
  - destruct (decide (k = k')); congruence.
  - destruct (decide (k0 = k)) as [->|Hne0]; simpl.
    + destruct (decide (k = k')); congruence.
    + destruct (decide (k0 = k')); [reflexivity | exact IH].
Qed.

Lemma dict_get_In d k v : dict_get d k = Some v -> In (k, v) d.
Proof.
  induction d as [|[k0 v0] d IH]; simpl; [discriminate|].
  destruct (decide (k0 = k)) as [->|Hne].
  - intros [= ->]. now left.
  - intros H. right. now apply IH.
Qed.

Lemma dict_get_None d k : ~ In k (dict_keys d) -> dict_get d k = None.
Proof.
  unfold dict_keys. induction d as [|[k0 v0] d IH]; simpl; [reflexivity|].
  intros Hnin. destruct (decide (k0 = k)) as [->|Hne].
  - exfalso. apply Hnin. now left.
  - apply IH. intros Hin. apply Hnin. now right.
Qed.

Lemma dict_keys_set d k v x :
  In x (dict_keys (dict_set d k v)) <-> x = k \/ In x (dict_keys d).
Proof.
  unfold dict_keys. induction d as [|[k0 v0] d IH]; simpl.
  - intuition congruence.
  - destruct (decide (k0 = k)) as [->|Hne]; simpl.
    + intuition congruence.
    + rewrite IH. intuition congruence.
Qed.

Lemma dict_set_NoDup d k v :
  NoDup (dict_keys d) -> NoDup (dict_keys (dict_set d k v)).
Proof.
  unfold dict_keys. induction d as [|[k0 v0] d IH]; simpl; intros Hnd.
  - apply NoDup_singleton.
  - apply NoDup_cons in Hnd. destruct Hnd as [Hnin Hnd].
    destruct (decide (k0 = k)) as [->|Hne]; simpl.
    + apply NoDup_cons. split; assumption.
    + apply NoDup_cons. split; [|now apply IH].
      rewrite list_elem_of_In. intros Hin.
      apply (dict_keys_set d k v k0) in Hin.
      destruct Hin as [Heq|Hin]; [now apply Hne|].
      apply Hnin. now apply list_elem_of_In.
Qed.

Lemma dict_set_Forall (P : K * V -> Prop) d k v :
  Forall P d -> P (k, v) -> Forall P (dict_set d k v).
Proof.
  intros Hd Hv. induction Hd as [|[k0 v0] d H0 Hd IH]; simpl.
  - constructor; [exact Hv | constructor].
  - destruct (decide (k0 = k)) as [->|Hne]; constructor; assumption.
Qed.

End DictFacts.

(** *** The loops of [_aggregate_recommendations] *)

Section AggregateFacts.
Variable str_lower : string -> string.

Lemma theme_entry_ok themes t :
  Analyzer.themes_ok themes ->
  Analyzer.acc_frequency (Analyzer.theme_entry themes t)
  = Z.of_nat (length (Analyzer.acc_recommendations (Analyzer.theme_entry themes t))).
Proof.
  intros [_ Hall]. unfold Analyzer.theme_entry.
  destruct (dict_get themes t) as [acc|] eqn:Hget; simpl; [|reflexivity].
  apply dict_get_In in Hget.
  rewrite List.Forall_forall in Hall. now destruct (Hall _ Hget).
Qed.

Lemma add_mention_entry sid info rec themes t t' :
  Analyzer.acc_recommendations
    (Analyzer.theme_entry (Analyzer.add_mention sid info rec themes t) t')
  = Analyzer.acc_recommendations (Analyzer.theme_entry themes t')
    ++ (if decide (t = t') then [rec] else []).
Proof.
  unfold Analyzer.theme_entry, Analyzer.add_mention.
  destruct (decide (t = t')) as [->|Hne].
  - rewrite dict_get_set_eq. reflexivity.
  - rewrite dict_get_set_ne by exact Hne. now rewrite app_nil_r.
Qed.

Lemma add_mention_ok sid info rec themes t :
  Analyzer.themes_ok themes ->
  Analyzer.themes_ok (Analyzer.add_mention sid info rec themes t).
Proof.
  intros Hok. pose proof (theme_entry_ok themes t Hok) as Hlen.
  destruct Hok as [Hnd Hall]. unfold Analyzer.add_mention.
  fold (Analyzer.theme_entry themes t). split.
  - now apply dict_set_NoDup.
  - apply dict_set_Forall; [exact Hall|]. simpl.
    rewrite length_app, Hlen. simpl. lia.
Qed.

Lemma add_recommendation_entry sid info themes rec t' :
  Analyzer.acc_recommendations
    (Analyzer.theme_entry (Analyzer.add_recommendation str_lower sid info themes rec) t')
  = Analyzer.acc_recommendations (Analyzer.theme_entry themes t')
    ++ flat_map (fun t => if decide (t = t') then [rec] else [])
         (Analyzer.matched_themes str_lower rec).
Proof.
  unfold Analyzer.add_recommendation.
  generalize (Analyzer.matched_themes str_lower rec) as ms. intros ms. revert themes.
  induction ms as [|t ms IH]; intros themes; simpl.
  - now rewrite app_nil_r.
  - rewrite IH, add_mention_entry, <- app_assoc. reflexivity.
Qed.

Lemma add_recommendation_ok sid info themes rec :
  Analyzer.themes_ok themes ->
  Analyzer.themes_ok (Analyzer.add_recommendation str_lower sid info themes rec).
Proof.
  unfold Analyzer.add_recommendation.
  generalize (Analyzer.matched_themes str_lower rec) as ms. intros ms. revert themes.
  induction ms as [|t ms IH]; intros themes Hok; simpl; [exact Hok|].
  apply IH. now apply add_mention_ok.
Qed.

Lemma add_review_entry themes r t' :
  Analyzer.acc_recommendations
    (Analyzer.theme_entry (Analyzer.add_review str_lower themes r) t')
  = Analyzer.acc_recommendations (Analyzer.theme_entry themes t')
    ++ Analyzer.mentions str_lower [r] t'.
Proof.
  unfold Analyzer.add_review, Analyzer.mentions. simpl. rewrite app_nil_r.
  generalize (Analyzer.rv_recommendations r) as recs. intros recs. revert themes.
  induction recs as [|rec recs IH]; intros themes; simpl.
  - now rewrite app_nil_r.
  - rewrite IH, add_recommendation_entry, <- app_assoc. reflexivity.
Qed.

Lemma add_review_ok themes r :
  Analyzer.themes_ok themes -> Analyzer.themes_ok (Analyzer.add_review str_lower themes r).
Proof.
  unfold Analyzer.add_review.
  generalize (Analyzer.rv_recommendations r) as recs. intros recs. revert themes.
  induction recs as [|rec recs IH]; intros themes Hok; simpl; [exact Hok|].
  apply IH. now apply add_recommendation_ok.
Qed.

Lemma mentions_app l l' t :
  Analyzer.mentions str_lower (l ++ l') t = Analyzer.mentions str_lower l t ++ Analyzer.mentions str_lower l' t.
Proof. unfold Analyzer.mentions. apply flat_map_app. Qed.

(** The entry of a theme after the loops holds the mentions of the theme,
    in the order the loops met them. *)
Lemma collect_themes_entry reviews t :
  Analyzer.acc_recommendations
    (Analyzer.theme_entry (Analyzer.collect_themes str_lower reviews) t)
  = Analyzer.mentions str_lower reviews t.
Proof.
  unfold Analyzer.collect_themes.
  enough (H : forall themes,
             Analyzer.acc_recommendations
               (Analyzer.theme_entry (fold_left (Analyzer.add_review str_lower) reviews themes) t)
             = Analyzer.acc_recommendations (Analyzer.theme_entry themes t)
               ++ Analyzer.mentions str_lower reviews t) by apply (H []).
  induction reviews as [|r reviews IH]; intros themes; simpl.
  - now rewrite app_nil_r.
  - rewrite IH, add_review_entry, <- app_assoc.
    now rewrite <- mentions_app.
Qed.

Lemma collect_themes_ok reviews :
  Analyzer.themes_ok (Analyzer.collect_themes str_lower reviews).
Proof.
  unfold Analyzer.collect_themes.
  enough (H : forall themes, Analyzer.themes_ok themes ->
             Analyzer.themes_ok (fold_left (Analyzer.add_review str_lower) reviews themes)).
  { apply H. split; constructor. }
  induction reviews as [|r reviews IH]; intros themes Hok; simpl; [exact Hok|].
  apply IH. now apply add_review_ok.
Qed.

(** The second loop keeps every entry of [themes], under its key. *)
Lemma finish_theme_lookup themes t :
  Analyzer.themes_ok themes ->
  Analyzer.theme_recommendations (flat_map Analyzer.finish_theme themes) t
  = Analyzer.acc_recommendations (Analyzer.theme_entry themes t)
  /\ Analyzer.theme_frequency (flat_map Analyzer.finish_theme themes) t
     = Analyzer.acc_frequency (Analyzer.theme_entry themes t).
Proof.
  intros [_ Hall].
  unfold Analyzer.theme_recommendations, Analyzer.theme_frequency,
    Analyzer.theme_entry.
  induction Hall as [|[name data] themes [Hpos _] Hall IH]; simpl; [now split|].
  simpl in Hpos. apply Z.ltb_lt in Hpos. rewrite Hpos. simpl.
  destruct (decide (name = t)); [now split | exact IH].
Qed.

Lemma finish_theme_keys themes :
  Analyzer.themes_ok themes ->
  dict_keys (flat_map Analyzer.finish_theme themes) = dict_keys themes.
Proof.
  intros [_ Hall]. unfold dict_keys.
  induction Hall as [|[name data] themes [Hpos _] Hall IH]; simpl; [reflexivity|].
  simpl in Hpos. apply Z.ltb_lt in Hpos. rewrite Hpos. simpl.
  now rewrite IH.
Qed.

(** The bucket of a theme in the aggregate is the list of its mentions,
    and its frequency is their number. *)
Lemma aggregate_bucket reviews t :
  Analyzer.theme_recommendations (Analyzer._aggregate_recommendations str_lower reviews) t
  = Analyzer.mentions str_lower reviews t
  /\ Analyzer.theme_frequency (Analyzer._aggregate_recommendations str_lower reviews) t
     = Z.of_nat (length (Analyzer.mentions str_lower reviews t)).
Proof.
  unfold Analyzer._aggregate_recommendations.
  destruct (finish_theme_lookup _ t (collect_themes_ok reviews)) as [Hr Hf].
  rewrite Hr, Hf, (theme_entry_ok _ t (collect_themes_ok reviews)).
  now rewrite collect_themes_entry.
Qed.

Lemma aggregate_keys_NoDup reviews :
  NoDup (dict_keys (Analyzer._aggregate_recommendations str_lower reviews)).
Proof.
  unfold Analyzer._aggregate_recommendations.
  rewrite finish_theme_keys by apply collect_themes_ok.
  apply collect_themes_ok.
Qed.

(** *** Keyword matching *)

Lemma any_keyword_in_spec keywords s :
  Analyzer.any_keyword_in keywords s = true
  <-> exists keyword, In keyword keywords /\ PyStr.contains keyword s.
Proof.
  unfold Analyzer.any_keyword_in. rewrite existsb_exists.
  split; intros [kw [Hin H]]; exists kw; (split; [exact Hin|]);
    now apply str_in_spec.
Qed.

Lemma matched_spec rec t :
  In t (map fst
          (List.filter
             (fun tk => Analyzer.any_keyword_in (snd tk) (str_lower rec))
             Analyzer.theme_keywords))
  <-> Analyzer.theme_matches str_lower t rec.
Proof.
  unfold Analyzer.theme_matches. rewrite in_map_iff. split.
  - intros [[t0 kws] [Heq Hin]]. simpl in Heq. subst t0.
    apply List.filter_In in Hin. destruct Hin as [Hin Hany]. simpl in Hany.
    apply any_keyword_in_spec in Hany. destruct Hany as [kw [Hkw Hc]].
    exists kws, kw. auto.
  - intros (kws & kw & Hin & Hkw & Hc). exists (t, kws).
    split; [reflexivity|]. apply List.filter_In. split; [exact Hin|].
    apply any_keyword_in_spec. eauto.
Qed.

(** [general] is not a key of [theme_keywords]. *)
Lemma general_not_in_taxonomy rec : ~ Analyzer.theme_matches str_lower "general" rec.
Proof.
  intros (kws & kw & Hin & _). simpl in Hin.
  repeat (destruct Hin as [Hin|Hin]; [discriminate Hin|]). exact Hin.
Qed.

Lemma matched_themes_specific rec t :
  t <> "general" ->
  (In t (Analyzer.matched_themes str_lower rec) <-> Analyzer.theme_matches str_lower t rec).
Proof.
  intros Hne. rewrite <- matched_spec. unfold Analyzer.matched_themes. cbv zeta.
  destruct (map fst _) as [|x l]; [|reflexivity].
  simpl. split; [intros [H|[]]; congruence | intros []].
Qed.

Lemma matched_themes_general rec :
  In "general" (Analyzer.matched_themes str_lower rec)
  <-> forall theme, ~ Analyzer.theme_matches str_lower theme rec.
Proof.
  pose proof (matched_spec rec) as Hm. unfold Analyzer.matched_themes. cbv zeta.
  destruct (map fst _) as [|x l].
  - split; [|intros _; now left].
    intros _ theme Hth. apply Hm in Hth. destruct Hth.
  - split.
    + intros Hin. apply Hm in Hin. now apply general_not_in_taxonomy in Hin.
    + intros Hno. exfalso. apply (Hno x). apply Hm. now left.
Qed.

Lemma mentions_In reviews t rec :
  In rec (Analyzer.mentions str_lower reviews t)
  <-> Analyzer.recommended reviews rec /\ In t (Analyzer.matched_themes str_lower rec).
Proof.
  unfold Analyzer.mentions, Analyzer.recommended. rewrite in_flat_map. split.
  - intros [r [Hr Hin]]. apply in_flat_map in Hin. destruct Hin as [rec' [Hrec Hin]].
    apply in_flat_map in Hin. destruct Hin as [t' [Ht Hin]].
    destruct (decide (t' = t)) as [->|Hne]; [|destruct Hin].
    destruct Hin as [<-|[]]. eauto.
  - intros [[r [Hr Hrec]] Ht]. exists r. split; [exact Hr|].
    apply in_flat_map. exists rec. split; [exact Hrec|].
    apply in_flat_map. exists t. split; [exact Ht|].
    destruct (decide (t = t)); [now left | congruence].
Qed.

End AggregateFacts.

(** *** The proposals loop *)

Lemma emitted_append_then p r :
  Analyzer.emitted (Analyzer.append_then p r)
  = match r with
    | Returned _ => p :: Analyzer.emitted r
    | Raised _ => []
    end.
Proof. now destruct r. Qed.

Lemma append_then_returned p r ps :
  Analyzer.append_then p r = Returned ps ->
  exists ps', r = Returned ps' /\ ps = p :: ps'.
Proof. destruct r as [l|ex]; [|discriminate]. intros [= <-]. eauto. Qed.

(** When the loop returns, it has built one proposal for each theme of
    its list with at least two mentions, in the order of the list. *)
Lemma proposals_loop_themes claude fmt prompt sb themes used ps :
  Analyzer.proposals_loop claude fmt prompt sb themes used = Returned ps ->
  map Analyzer.proposal_theme ps
  = map fst (List.filter (fun e => 2 <=? Analyzer.frequency (snd e)) themes).
Proof.
  revert used ps. induction themes as [|[name td] rest IH]; intros used ps; simpl.
  - now intros [= <-].
  - rewrite (Z.leb_antisym (Analyzer.frequency td) 2).
    destruct (Analyzer.frequency td <? 2); simpl; [apply IH|].
    match goal with
    | |- context [match ?d with Analyzer.NoDiff => _ | _ => _ end] => destruct d
    end; try discriminate;
      intros H; apply append_then_returned in H;
      destruct H as (ps' & H & ->); apply IH in H; simpl;
      unfold Analyzer.proposal_theme at 1; simpl; now f_equal.
Qed.

(** The loop returns when every answer of Claude is [None] or a
    [dict]. *)
Lemma proposals_loop_returns claude fmt prompt sb themes used :
  (forall name recs,
     claude name recs prompt sb <> Analyzer.JsonArray
     /\ claude name recs prompt sb <> Analyzer.JsonText) ->
  exists ps, Analyzer.proposals_loop claude fmt prompt sb themes used = Returned ps.
Proof.
  intros Hc. revert used.
  induction themes as [|[name td] rest IH]; intros used; simpl; [eauto|].
  destruct (Analyzer.frequency td <? 2); [apply IH|].
  match goal with
  | |- context [Analyzer.proposals_loop _ _ _ _ rest ?u] =>
      destruct (IH u) as [ps Hps]; rewrite Hps
  end.
  destruct (_ && _); simpl; [|eauto].
  destruct (Hc name (Analyzer.recommendations td)) as [H1 H2].
  destruct (claude name (Analyzer.recommendations td) prompt sb);
    simpl; eauto; congruence.
Qed.

Lemma count_insert_by_frequency f x l t :
  count_occ string_dec
    (map fst (List.filter f (Analyzer.insert_by_frequency x l))) t
  = count_occ string_dec (map fst (List.filter f (x :: l))) t.
Proof.
  induction l as [|y l IH]; simpl; [reflexivity|].
  destruct (_ <? _); [|reflexivity]. simpl in *.
  destruct (f x), (f y); simpl in *;
    repeat (destruct (string_dec _ _)); rewrite ?IH; reflexivity.
Qed.

Lemma count_sorted_themes f agg t :
  count_occ string_dec (map fst (List.filter f (Analyzer.sorted_themes agg))) t
  = count_occ string_dec (map fst (List.filter f agg)) t.
Proof.
  induction agg as [|x agg IH]; simpl; [reflexivity|].
  rewrite count_insert_by_frequency. simpl.
  destruct (f x); simpl; [destruct (string_dec _ _)|]; now rewrite IH.
Qed.

Lemma count_by_key {V : Type} (f : string * V -> bool) (d : list (string * V)) t :
  NoDup (dict_keys d) ->
  count_occ string_dec (map fst (List.filter f d)) t
  = match dict_get d t with
    | Some v => if f (t, v) then 1%nat else 0%nat
    | None => 0%nat
    end.
Proof.
  unfold dict_keys. induction d as [|[k v] d IH]; simpl; intros Hnd;
    [reflexivity|].
  apply NoDup_cons in Hnd. destruct Hnd as [Hnin Hnd]. specialize (IH Hnd).
  destruct (decide (k = t)) as [->|Hne].
  - rewrite dict_get_None in IH
      by (intros Hin; apply Hnin; now apply list_elem_of_In).
    destruct (f (t, v)); simpl; [|exact IH].
    destruct (string_dec t t); [now rewrite IH | congruence].
  - destruct (f (k, v)); simpl; [|exact IH].
    destruct (string_dec k t); [congruence | exact IH].
Qed.

(** Letters that differ in case only have the same lower-case form. *)
Lemma same_letter_lower c c' :
  PyStr.same_letter c c' -> PyStr.ascii_lower_char c = PyStr.ascii_lower_char c'.
Proof.
  assert (Hup : forall u l,
            In u (list_ascii_of_string "ABCDEFGHIJKLMNOPQRSTUVWXYZ") ->
            nat_of_ascii l = (nat_of_ascii u + 32)%nat ->
            PyStr.ascii_lower_char u = PyStr.ascii_lower_char l).
  { intros u l Hin Hl. rewrite <- (ascii_nat_embedding l), Hl. clear Hl.
    simpl in Hin.
    repeat (destruct Hin as [<-|Hin]; [reflexivity|]). destruct Hin. }
  intros [->|[[Hin Hn]|[Hin Hn]]]; [reflexivity | now apply Hup |].
  symmetry. now apply Hup.
Qed.

Lemma same_ignoring_case_lower s :
  forall s', PyStr.same_ignoring_case s s' -> PyStr.ascii_lower s = PyStr.ascii_lower s'.
Proof.
  induction s as [|c s IH]; intros [|c' s']; simpl; try tauto.
  intros [Hc Hs]. now rewrite (same_letter_lower c c' Hc), (IH s' Hs).
Qed.

(** C7. Every recommendation of the deep reviews is in the bucket of every
    theme of the taxonomy one of whose keywords occurs in its lower-cased
    text, and only there; a recommendation that matches no theme is in the
    bucket [general], and only such are; two ASCII recommendations that
    differ in the case of their letters only are in the same buckets (the
    recommendation ADD UNIT TESTS is in the bucket [testing]); the
    frequency of a theme is the number of its mentions. When the
    generation of the proposals returns, it returns one proposal for each
    theme of frequency at least 2 and none for the others, and it returns
    whenever every answer of Claude is [None] or a JSON object. It does
    not return when Claude answers the first theme it is asked about with
    a JSON array or a JSON string that holds the three key names: the
    answer passes the check of the keys, [diff_result.get] raises
    [AttributeError] outside the [try], and no proposal comes out for any
    theme. *)
Theorem recommendations_bucketed_by_theme
    (str_lower : string -> string)
    (claude : string -> list string -> string -> string
              -> Analyzer.claude_answer)
    (format_1f : Q -> string) (current_prompt sandbox_type : string)
    (reviews : list Analyzer.review) :
  PyStr.lowers_ascii str_lower ->
  let agg := Analyzer._aggregate_recommendations str_lower reviews in
  let outcome :=
    Analyzer._generate_proposals_from_deep_reviews claude format_1f
      current_prompt sandbox_type agg in
  (forall theme,
     Analyzer.theme_recommendations agg theme
     = Analyzer.mentions str_lower reviews theme)
  /\ (forall theme rec, theme <> "general" ->
        (In rec (Analyzer.theme_recommendations agg theme)
         <-> Analyzer.recommended reviews rec
             /\ Analyzer.theme_matches str_lower theme rec))
  /\ (forall rec,
        In rec (Analyzer.theme_recommendations agg "general")
        <-> Analyzer.recommended reviews rec
            /\ forall theme, ~ Analyzer.theme_matches str_lower theme rec)
  /\ (forall rec rec',
        PyStr.is_ascii rec = true -> PyStr.is_ascii rec' = true ->
        PyStr.same_ignoring_case rec rec' ->
        Analyzer.matched_themes str_lower rec
        = Analyzer.matched_themes str_lower rec')
  /\ Analyzer.matched_themes str_lower "ADD UNIT TESTS" = ["testing"]
  /\ (forall theme,
        Analyzer.theme_frequency agg theme
        = Z.of_nat (length (Analyzer.theme_recommendations agg theme)))
  /\ (forall theme,
        0 < Analyzer.theme_frequency agg theme ->
        theme = "general" \/ In theme (dict_keys Analyzer.theme_keywords))
  /\ (forall proposals theme,
        outcome = Returned proposals ->
        count_occ string_dec (map Analyzer.proposal_theme proposals) theme
        = if 2 <=? Analyzer.theme_frequency agg theme then 1%nat else 0%nat)
  /\ ((forall name recs,
         claude name recs current_prompt sandbox_type <> Analyzer.JsonArray
         /\ claude name recs current_prompt sandbox_type <> Analyzer.JsonText) ->
      exists proposals, outcome = Returned proposals)
  /\ (forall name td rest,
        Analyzer.sorted_themes agg = (name, td) :: rest ->
        2 <= Analyzer.frequency td -> 3 <= Analyzer.unique_sessions td ->
        (claude name (Analyzer.recommendations td) current_prompt sandbox_type
         = Analyzer.JsonArray ->
         outcome = Raised (Analyzer.no_get "list"))
        /\ (claude name (Analyzer.recommendations td) current_prompt sandbox_type
            = Analyzer.JsonText ->
            outcome = Raised (Analyzer.no_get "str"))).
Proof.
  intros Hlower agg outcome.
  assert (Hrecs : forall theme,
            Analyzer.theme_recommendations agg theme
            = Analyzer.mentions str_lower reviews theme)
    by (intros theme; apply aggregate_bucket).
  assert (Hfreq : forall theme,
            Analyzer.theme_frequency agg theme
            = Z.of_nat (length (Analyzer.theme_recommendations agg theme)))
    by (intros theme; rewrite Hrecs; apply aggregate_bucket).
  assert (Hspecific : forall theme rec, theme <> "general" ->
            (In rec (Analyzer.theme_recommendations agg theme)
             <-> Analyzer.recommended reviews rec
                 /\ Analyzer.theme_matches str_lower theme rec)).
  { intros theme rec Hne.
    now rewrite Hrecs, mentions_In,
      (matched_themes_specific str_lower rec theme Hne). }
  split; [exact Hrecs|]. split; [exact Hspecific|]. split.
  { intros rec. now rewrite Hrecs, mentions_In, matched_themes_general. }
  split.
  { intros rec rec' Ha Ha' Hsame. unfold Analyzer.matched_themes.
    now rewrite (Hlower rec Ha), (Hlower rec' Ha'),
      (same_ignoring_case_lower rec rec' Hsame). }
  split.
  { unfold Analyzer.matched_themes.
    now rewrite (Hlower "ADD UNIT TESTS" eq_refl). }
  split; [exact Hfreq|]. split.
  { intros theme Hpos. rewrite Hfreq in Hpos.
    destruct (decide (theme = "general")) as [Heq|Hne]; [now left | right].
    destruct (Analyzer.theme_recommendations agg theme) as [|rec recs] eqn:Hbucket;
      [simpl in Hpos; lia|].
    assert (Hin : In rec (Analyzer.theme_recommendations agg theme))
      by (rewrite Hbucket; now left).
    apply (Hspecific theme rec Hne) in Hin.
    destruct Hin as [_ (kws & kw & Hin & _)].
    unfold dict_keys. apply in_map_iff. exists (theme, kws). now split. }
  split.
  { intros proposals theme Hout. subst outcome.
    unfold Analyzer._generate_proposals_from_deep_reviews in Hout.
    rewrite (proposals_loop_themes _ _ _ _ _ _ _ Hout), count_sorted_themes.
    rewrite count_by_key by apply aggregate_keys_NoDup.
    unfold Analyzer.theme_frequency. fold agg.
    destruct (dict_get agg theme); reflexivity. }
  split.
  { intros Hc. now apply proposals_loop_returns. }
  intros name td rest Hsorted Hf Hu. subst outcome.
  unfold Analyzer._generate_proposals_from_deep_reviews. rewrite Hsorted.
  cbn [Analyzer.proposals_loop].
  apply Z.ltb_ge in Hf. rewrite Hf. apply Z.leb_le in Hu. rewrite Hu.
  change (Analyzer.claude_enabled && (0 <? Analyzer.claude_budget) && true)
    with true. cbv iota.
  split; intros ->; reflexivity.
Qed.

(** The theorem applies to three reviews of three sessions that recommend
    better error handling, when Claude answers with a JSON array of the
    three key names: the call raises and no proposal comes out. *)
Lemma recommendations_bucketed_by_theme_witness :
  PyStr.lowers_ascii PyStr.ascii_lower
  /\ Analyzer.theme_frequency
       (Analyzer._aggregate_recommendations PyStr.ascii_lower Scenario.three_reviews)
       "error_handling" = 3
  /\ Analyzer._generate_proposals_from_deep_reviews Scenario.array_claude
       Scenario.one_decimal "prompt" "docker"
       (Analyzer._aggregate_recommendations PyStr.ascii_lower Scenario.three_reviews)
     = Raised (Exception "'list' object has no attribute 'get'").
Proof.
  assert (Hlower : PyStr.lowers_ascii PyStr.ascii_lower) by (intros s _; reflexivity).
  split; [exact Hlower|]. split; [reflexivity|].
  pose proof (recommendations_bucketed_by_theme PyStr.ascii_lower
                Scenario.array_claude Scenario.one_decimal "prompt" "docker"
                Scenario.three_reviews Hlower) as H.
  cbv zeta in H.
  destruct H as (_ & _ & _ & _ & _ & _ & _ & _ & _ & H).
  refine (proj1 (H "error_handling" _ [] _ _ _) eq_refl);
    [reflexivity | simpl; lia | simpl; lia].
Defined.

(** ** The analyzer: confidence *)

Lemma insert_by_frequency_perm x l :
  Permutation (Analyzer.insert_by_frequency x l) (x :: l).
Proof.
  induction l as [|y l IH]; simpl; [reflexivity|].
  destruct (_ <? _); [|reflexivity].
  rewrite IH. apply perm_swap.
Qed.

Lemma sorted_themes_perm agg : Permutation (Analyzer.sorted_themes agg) agg.
Proof.
  induction agg as [|x agg IH]; simpl; [reflexivity|].
  rewrite insert_by_frequency_perm. now constructor.
Qed.

(** Every emitted proposal is the Claude-powered or the fallback proposal
    of a theme of the list with at least two mentions. *)
Lemma proposals_loop_each claude fmt prompt sb (P : Analyzer.proposal -> Prop)
    themes used :
  (forall name td, In (name, td) themes -> 2 <= Analyzer.frequency td ->
     P (Analyzer.fallback_proposal fmt sb name td)
     /\ forall d, P (Analyzer.claude_proposal fmt sb name td d)) ->
  Forall P (Analyzer.emitted
              (Analyzer.proposals_loop claude fmt prompt sb themes used)).
Proof.
  revert used. induction themes as [|[name td] rest IH]; intros used HP; simpl.
  - constructor.
  - destruct (Analyzer.frequency td <? 2) eqn:Hf.
    + apply IH. intros n t Hin. apply HP. now right.
    + apply Z.ltb_ge in Hf.
      destruct (HP name td (or_introl eq_refl) Hf) as [Hfb Hcl].
      assert (Hrest : forall u,
                Forall P (Analyzer.emitted
                            (Analyzer.proposals_loop claude fmt prompt sb rest u)))
        by (intros u; apply IH; intros n t Hin; apply HP; now right).
      match goal with
      | |- context [match ?d with Analyzer.NoDiff => _ | _ => _ end] => destruct d
      end; try constructor; rewrite emitted_append_then;
        match goal with
        | |- context [Analyzer.proposals_loop _ _ _ _ rest ?u] =>
            specialize (Hrest u);
            destruct (Analyzer.proposals_loop claude fmt prompt sb rest u)
        end; constructor; auto.
Qed.

Lemma theme_confidence_closed_form td :
  Analyzer._calculate_theme_confidence td
  = Analyzer.quality_adjusted (Analyzer.code_bucket (Analyzer.unique_sessions td))
      (Analyzer.avg_quality td).
Proof. reflexivity. Qed.

Lemma quality_adjusted_range u avg :
  2 <= Analyzer.quality_adjusted (Analyzer.code_bucket u) avg <= 10.
Proof.
  unfold Analyzer.quality_adjusted, Analyzer.code_bucket.
  repeat match goal with |- context [if ?b then _ else _] => destruct b end; lia.
Qed.

(** C3 (as the code has it). Every proposal emitted for a theme carries
    the confidence given by the buckets of the theme's unique-session
    count (at least 5 -> 9, at least 3 -> 7, at least 2 -> 5, otherwise 3),
    moved by +1 (capped at 10) when the average quality is at least 9 and
    by -1 (floored at 1) when it is below 6, plus 1 capped at 10 when the
    proposal is Claude-enhanced; the value lies between 1 and 10. *)
Theorem theme_confidence_formula
    (claude : string -> list string -> string -> string -> Analyzer.claude_answer)
    (fmt : Q -> string) (prompt sb : string)
    (agg : list (string * Analyzer.theme_data)) :
  Forall
    (fun p =>
       exists name td,
         In (name, td) agg
         /\ Analyzer.ev_theme (Analyzer.proposal_evidence p) = name
         /\ Analyzer.confidence_level p
            = Analyzer.code_confidence (Analyzer.unique_sessions td)
                (Analyzer.avg_quality td) (Analyzer.claude_enhanced p)
         /\ 1 <= Analyzer.confidence_level p <= 10)
    (Analyzer.emitted
       (Analyzer._generate_proposals_from_deep_reviews claude fmt prompt sb agg)).
Proof.
  unfold Analyzer._generate_proposals_from_deep_reviews.
  apply proposals_loop_each. intros name td Hin _.
  assert (Hagg : In (name, td) agg).
  { eapply Permutation_in; [apply sorted_themes_perm | exact Hin]. }
  pose proof (quality_adjusted_range (Analyzer.unique_sessions td)
                (Analyzer.avg_quality td)) as Hr.
  split; [|intros d]; exists name, td; (split; [exact Hagg|]);
    (split; [reflexivity|]); unfold Analyzer.code_confidence.
  - change (Analyzer.claude_enhanced (Analyzer.fallback_proposal fmt sb name td))
      with false.
    change (Analyzer.confidence_level (Analyzer.fallback_proposal fmt sb name td))
      with (Analyzer._calculate_theme_confidence td).
    rewrite theme_confidence_closed_form. lia.
  - change (Analyzer.claude_enhanced (Analyzer.claude_proposal fmt sb name td d))
      with true.
    change (Analyzer.confidence_level (Analyzer.claude_proposal fmt sb name td d))
      with (Z.min 10 (Analyzer._calculate_theme_confidence td + 1)).
    rewrite theme_confidence_closed_form. lia.
Qed.

(** C3 (as the specification words it) fails: a theme mentioned by two
    sessions of average quality 7 gets confidence 5 from the code, where
    the specification's buckets give 3. *)
Lemma theme_confidence_spec_buckets_fail :
  let agg := Analyzer._aggregate_recommendations PyStr.ascii_lower Scenario.two_reviews in
  let proposals :=
    Analyzer._generate_proposals_from_deep_reviews Scenario.no_claude
      Scenario.one_decimal "" "docker" agg in
  exists td p,
    agg = [("error_handling", td)] /\ proposals = Returned [p]
    /\ Analyzer.unique_sessions td = 2
    /\ (Analyzer.avg_quality td == 7)%Q
    /\ Analyzer.claude_enhanced p = false
    /\ Analyzer.confidence_level p = 5
    /\ Analyzer.spec_confidence (Analyzer.unique_sessions td)
         (Analyzer.avg_quality td) (Analyzer.claude_enhanced p) = 3
    /\ Analyzer.confidence_level p
       <> Analyzer.spec_confidence (Analyzer.unique_sessions td)
            (Analyzer.avg_quality td) (Analyzer.claude_enhanced p).
Proof.
  vm_compute. eexists. eexists.
  repeat (split; [reflexivity|]). discriminate.
Qed.

(** ** The apply-proposal route *)

(** C8. [apply_proposal] fails with the state violation exactly when the
    proposal exists and its status is not [accepted]; it fails with
    not-found exactly when the identifier is well-formed and no proposal
    has it; for an [accepted] proposal it succeeds and the stored status
    becomes [implemented], the other proposals being untouched; a failure
    writes nothing. *)
Theorem apply_proposal_requires_accepted (UUID : string -> option uuid)
    (db : gmap uuid Routes.proposal_row) (proposal_id : string) :
  let out := Routes.apply_proposal UUID db proposal_id in
  (Routes.state_violation (snd out)
   <-> exists u p, UUID proposal_id = Some u /\ db !! u = Some p
                   /\ Routes.pr_status p <> Routes.accepted)
  /\ (Routes.not_found (snd out)
      <-> exists u, UUID proposal_id = Some u /\ db !! u = None)
  /\ (forall u p, UUID proposal_id = Some u -> db !! u = Some p ->
        Routes.pr_status p = Routes.accepted ->
        (exists resp, snd out = Routes.Ok resp /\ Routes.success resp = true)
        /\ Routes.pr_status <$> (fst out !! u) = Some Routes.implemented
        /\ forall u', u' <> u -> fst out !! u' = db !! u')
  /\ (forall code detail, snd out = Routes.HTTPException code detail ->
        fst out = db).
Proof.
  unfold Routes.apply_proposal, Routes.state_violation, Routes.not_found.
  destruct (UUID proposal_id) as [u|] eqn:Hu; simpl.
  { destruct (db !! u) as [p|] eqn:Hp; simpl.
    - destruct (decide (Routes.pr_status p = Routes.accepted)) as [Hacc|Hacc].
      + rewrite bool_decide_eq_true_2 by exact Hacc. simpl.
        unfold Routes.update_prompt_proposal_status. rewrite Hp.
        split_and!.
        * split; [discriminate|]. intros (u' & p' & [= <-] & Hp' & Hne). congruence.
        * split; [discriminate|]. intros (u' & [= <-] & Hp'). congruence.
        * intros u' p' [= <-] _ _. split_and!.
          -- eauto.
          -- now rewrite lookup_insert_eq.
          -- intros u'' Hne. now rewrite lookup_insert_ne.
        * discriminate.
      + rewrite bool_decide_eq_false_2 by exact Hacc. simpl.
        split_and!.
        * split; [eauto|reflexivity].
        * split; [discriminate|]. intros (u' & [= <-] & Hp'). congruence.
        * intros u' p' [= <-] Hp' Hacc'. congruence.
        * reflexivity.
    - split_and!.
      + split; [discriminate|]. intros (u' & p' & [= <-] & Hp' & _). congruence.
      + split; [eauto|reflexivity].
      + intros u' p' [= <-] Hp'. congruence.
      + reflexivity. }
  split_and!.
  - split; [discriminate|]. intros (u' & p' & Hu' & _). discriminate.
  - split; [discriminate|]. intros (u' & Hu' & _). discriminate.
  - discriminate.
  - reflexivity.
Qed.

(** ** [stop_session] *)

Lemma end_session_marks db sid st err reason now row :
  In row (Store.sessions db) -> Store.row_id row = sid ->
  Store.is_terminal (Store.row_status row) = false ->
  exists row',
    In row' (Store.sessions (Store.end_session db sid st err reason now))
    /\ Store.row_id row' = sid
    /\ Store.row_project row' = Store.row_project row
    /\ Store.row_number row' = Store.row_number row
    /\ Store.row_status row' = st
    /\ Store.row_error_message row' = err
    /\ Store.row_interruption_reason row' = reason.
Proof.
  intros Hin Hid Hnt. eexists. split.
  - unfold Store.end_session. simpl. apply in_map. exact Hin.
  - unfold Store.update_row. rewrite bool_decide_eq_true_2 by exact Hid.
    rewrite Hnt. simpl. split_and!; auto.
Qed.

(** C10. [stop_session] acts only on sessions of the in-memory registry:
    for an unregistered identifier it returns [False] and changes nothing
    (no store write); for a registered one it sets the manager's
    [interrupted] flag, writes [interrupted] with the given reason to the
    store (so a row that was pending or running now reads [interrupted]
    with that reason) and returns [True]. *)
Theorem stop_session_registry (o : Orchestrator.t) (sid : uuid)
    (reason : string) (now : datetime) :
  (Orchestrator.session_managers o !! sid = None ->
   Orchestrator.stop_session o sid reason now = (o, false))
  /\ (forall manager, Orchestrator.session_managers o !! sid = Some manager ->
      let out := Orchestrator.stop_session o sid reason now in
      snd out = true
      /\ Orchestrator.interrupted
           <$> (Orchestrator.session_managers (fst out) !! sid) = Some true
      /\ Orchestrator.db (fst out)
         = Store.end_session (Orchestrator.db o) sid INTERRUPTED None
             (Some reason) now
      /\ forall row, In row (Store.sessions (Orchestrator.db o)) ->
           Store.row_id row = sid ->
           Store.is_terminal (Store.row_status row) = false ->
           exists row',
             In row' (Store.sessions (Orchestrator.db (fst out)))
             /\ Store.row_id row' = sid
             /\ Store.row_status row' = INTERRUPTED
             /\ Store.row_interruption_reason row' = Some reason).
Proof.
  unfold Orchestrator.stop_session. split.
  - intros ->. reflexivity.
  - intros manager ->. simpl. split; [reflexivity|]. split; [|split].
    + now rewrite lookup_insert_eq.
    + reflexivity.
    + intros row Hin Hid Hnt.
      destruct (end_session_marks _ sid INTERRUPTED None (Some reason) now row
                  Hin Hid Hnt) as (row' & H1 & H2 & _ & _ & H3 & _ & H4).
      eauto.
Qed.

(** ** [start_session]: one call on its own *)

Lemma fault_at_none points e :
  Orchestrator.fault e = None -> Orchestrator.fault_at points e = None.
Proof. unfold Orchestrator.fault_at. now intros ->. Qed.

Lemma fault_at_some points e p ex :
  Orchestrator.fault e = Some (p, ex) ->
  Orchestrator.fault_at points e
  = if existsb (fun q => bool_decide (q = p)) points then Some ex else None.
Proof. unfold Orchestrator.fault_at. now intros ->. Qed.

(** The next session number is above every number of the project, so the
    insert of a call that runs on its own never violates the unique
    constraint. *)
Lemma next_session_number_above db pid :
  Forall (fun r => Store.row_project r = pid ->
                   Store.row_number r < Store.get_next_session_number db pid)
    (Store.sessions db).
Proof.
  unfold Store.get_next_session_number.
  induction (Store.sessions db) as [|r l IH]; constructor; simpl.
  - intros ->. rewrite bool_decide_eq_true_2 by reflexivity. lia.
  - eapply List.Forall_impl; [|exact IH]. simpl. intros r' Hr' Hp.
    specialize (Hr' Hp). destruct (bool_decide _); lia.
Qed.

Lemma next_session_number_free db pid :
  Store.number_taken db pid (Store.get_next_session_number db pid) = false.
Proof.
  unfold Store.number_taken. apply not_true_is_false. intros H.
  apply existsb_exists in H. destruct H as (r & Hin & Hr).
  apply andb_true_iff in Hr. destruct Hr as [Hp Hn].
  apply bool_decide_eq_true_1 in Hp. apply bool_decide_eq_true_1 in Hn.
  pose proof (next_session_number_above db pid) as Hab.
  rewrite List.Forall_forall in Hab. specialize (Hab r Hin Hp). lia.
Qed.

Lemma start_session_marks db sid now row :
  In row (Store.sessions db) -> Store.row_id row = sid ->
  exists row',
    In row' (Store.sessions (Store.start_session db sid now))
    /\ Store.row_id row' = sid
    /\ Store.row_project row' = Store.row_project row
    /\ Store.row_number row' = Store.row_number row
    /\ Store.row_status row' = RUNNING.
Proof.
  intros Hin Hid. eexists. split.
  - unfold Store.start_session. simpl. apply in_map. exact Hin.
  - unfold Store.update_row. rewrite bool_decide_eq_true_2 by exact Hid.
    simpl. split_and!; auto.
Qed.

(** What [precheck] tells about the store when it lets the call through. *)
Lemma precheck_returned o pid im cm a :
  Orchestrator.precheck o pid im cm = Returned a ->
  Orchestrator.ad_project a = pid
  /\ Store.get_active_session (Orchestrator.db o) pid = None
  /\ Orchestrator.ad_is_initializer a
     = bool_decide (Store.list_epics (Orchestrator.db o) pid = []).
Proof.
  unfold Orchestrator.precheck.
  destruct (Store.get_project _ _); [|discriminate].
  destruct (Store.get_active_session _ _); [discriminate|].
  destruct (_ && _); [discriminate|].
  destruct (_ && _); [discriminate|].
  intros [= <-]. auto.
Qed.

(** ** [start_session]: the handlers and the post-session hooks *)

Lemma handled_eq o info e ex :
  Orchestrator.handled o info e ex
  = (fst (Orchestrator.handle o info e ex),
     inl (snd (Orchestrator.handle o info e ex))).
Proof.
  unfold Orchestrator.handled. now destruct (Orchestrator.handle o info e ex).
Qed.

(** The handlers touch the row of the session and unregister its
    manager, nothing else. *)
Lemma handle_leaves o info e ex :
  let o' := fst (Orchestrator.handle o info e ex) in
  Orchestrator.hooks o' = Orchestrator.hooks o
  /\ Store.quality_checks (Orchestrator.db o')
     = Store.quality_checks (Orchestrator.db o)
  /\ Orchestrator.session_managers o'
     = delete (Orchestrator.session_id info) (Orchestrator.session_managers o).
Proof.
  destruct ex; simpl; destruct (Orchestrator.handler_fault e); repeat split.
Qed.

Lemma run_quality_check_leaves o sid e :
  let o' := Orchestrator._run_quality_check o sid e in
  Orchestrator.hooks o' = Orchestrator.hooks o ++ [Orchestrator.RunQualityCheck sid]
  /\ Store.quality_checks (Orchestrator.db o')
     = Store.quality_checks (Orchestrator.db o)
       ++ (if Orchestrator.jsonl_exists e
           then [ {| Store.qc_session_id := sid;
                     Store.qc_check_type := "quick";
                     Store.qc_overall_rating := Orchestrator.quality_rating e |} ]
           else [])
  /\ Store.sessions (Orchestrator.db o') = Store.sessions (Orchestrator.db o)
  /\ Orchestrator.session_managers o' = Orchestrator.session_managers o.
Proof.
  unfold Orchestrator._run_quality_check, Orchestrator._maybe_trigger_deep_review.
  destruct (Orchestrator.jsonl_exists e); simpl;
    [|rewrite app_nil_r; repeat split].
  repeat match goal with
         | |- context [match ?b with Some _ => _ | None => _ end] => destruct b; simpl
         | |- context [if ?b then _ else _] => destruct b; simpl
         end; repeat split.
Qed.

Lemma run_test_coverage_analysis_leaves o pid e :
  let o' := Orchestrator._run_test_coverage_analysis o pid e in
  Orchestrator.hooks o' = Orchestrator.hooks o ++ [Orchestrator.RunTestCoverage pid]
  /\ Store.quality_checks (Orchestrator.db o')
     = Store.quality_checks (Orchestrator.db o)
  /\ Store.sessions (Orchestrator.db o') = Store.sessions (Orchestrator.db o)
  /\ Orchestrator.session_managers o' = Orchestrator.session_managers o.
Proof.
  unfold Orchestrator._run_test_coverage_analysis.
  destruct (Orchestrator.coverage_ok e); simpl; repeat split.
Qed.

(** The hooks [start_session] calls for a session of the given kind. *)
Lemma after_end_session_leaves o info e (is_initializer is_error : bool) :
  let o' := fst (Orchestrator.after_end_session o info e is_initializer is_error) in
  Orchestrator.hooks o'
  = Orchestrator.hooks o
    ++ (if is_initializer
        then if is_error then []
             else [Orchestrator.RunTestCoverage (Orchestrator.project_id info)]
        else [Orchestrator.RunQualityCheck (Orchestrator.session_id info)])
  /\ Store.quality_checks (Orchestrator.db o')
     = Store.quality_checks (Orchestrator.db o)
       ++ (if is_initializer then []
           else match Orchestrator.fault_at [Orchestrator.AtQualityCheck] e with
                | Some _ => []
                | None =>
                    if Orchestrator.jsonl_exists e
                    then [ {| Store.qc_session_id := Orchestrator.session_id info;
                              Store.qc_check_type := "quick";
                              Store.qc_overall_rating :=
                                Orchestrator.quality_rating e |} ]
                    else []
                end)
  /\ Orchestrator.session_managers o'
     = delete (Orchestrator.session_id info) (Orchestrator.session_managers o).
Proof.
  unfold Orchestrator.after_end_session, Orchestrator.call_hook.
  destruct (run_quality_check_leaves o (Orchestrator.session_id info) e)
    as (Hq1 & Hq2 & _ & Hq4).
  destruct (run_test_coverage_analysis_leaves o (Orchestrator.project_id info) e)
    as (Hc1 & Hc2 & _ & Hc4).
  destruct is_initializer, is_error; simpl;
    repeat match goal with
           | |- context [Orchestrator.fault_at ?l e] =>
               destruct (Orchestrator.fault_at l e) as [?ex|]; simpl
           | |- context [is_Exception ?ex] => destruct (is_Exception ex); simpl
           end;
    repeat match goal with
           | |- context [Orchestrator.handle ?o1 ?i1 e ?ex1] =>
               let H1 := fresh in
               let H2 := fresh in
               let H3 := fresh in
               destruct (handle_leaves o1 i1 e ex1) as (H1 & H2 & H3);
               simpl in H1, H2, H3; rewrite ?H1, ?H2, ?H3;
               clear H1 H2 H3;
               generalize (Orchestrator.handle o1 i1 e ex1); intros ?
           end;
    simpl; rewrite ?Hq1, ?Hq2, ?Hq4, ?Hc1, ?Hc2, ?Hc4, ?app_nil_r;
    repeat split.
Qed.

(** A call that is let through and meets no fault before the guarded
    block inserts its row, registers its manager and enters the block. *)
Lemma create_enters_block o a e :
  Orchestrator.fault_at [Orchestrator.AtSetupHandlers] e = None ->
  Orchestrator.fault_at [Orchestrator.AtCreateSandbox] e = None ->
  exists o1 info row,
    Orchestrator.create o a
      (Store.get_next_session_number (Orchestrator.db o) (Orchestrator.ad_project a))
      e = (o1, inr info)
    /\ In row (Store.sessions (Orchestrator.db o1))
    /\ Store.row_id row = Orchestrator.session_id info
    /\ Store.row_status row = PENDING
    /\ Orchestrator.session_id info = Store.next_id (Orchestrator.db o)
    /\ Orchestrator.event_callback o1 = Orchestrator.event_callback o
    /\ Orchestrator.hooks o1 = Orchestrator.hooks o
    /\ Store.quality_checks (Orchestrator.db o1)
       = Store.quality_checks (Orchestrator.db o)
    /\ Orchestrator.project_id info = Orchestrator.ad_project a
    /\ Orchestrator.session_type info
       = (if Orchestrator.ad_is_initializer a then INITIALIZER else CODING)
    /\ Store.sessions (Orchestrator.db o1)
       = Store.sessions (Orchestrator.db o) ++ [row].
Proof.
  intros H1 H2. unfold Orchestrator.create, Store.create_session.
  rewrite next_session_number_free, H1, H2.
  do 3 eexists. split; [reflexivity|]. simpl.
  split; [apply in_or_app; right; left; reflexivity|].
  split_and!; reflexivity.
Qed.

Lemma sessions_publish o pid ty :
  Store.sessions (Orchestrator.db (Orchestrator.publish o pid ty))
  = Store.sessions (Orchestrator.db o).
Proof. unfold Orchestrator.publish. now destruct (Orchestrator.event_callback o). Qed.

Lemma publish_leaves o pid ty :
  Orchestrator.hooks (Orchestrator.publish o pid ty) = Orchestrator.hooks o
  /\ Orchestrator.db (Orchestrator.publish o pid ty) = Orchestrator.db o
  /\ Orchestrator.session_managers (Orchestrator.publish o pid ty)
     = Orchestrator.session_managers o.
Proof.
  unfold Orchestrator.publish. now destruct (Orchestrator.event_callback o).
Qed.

(** The call at [AtSetupHandlers] or [AtCreateSandbox] raises: the call
    of [start_session] raises. *)
Lemma start_session_create_fails o e pid im cm a p ex :
  Orchestrator.precheck o pid im cm = Returned a ->
  Orchestrator.fault e = Some (p, ex) ->
  p = Orchestrator.AtSetupHandlers \/ p = Orchestrator.AtCreateSandbox ->
  exists o',
    Orchestrator.start_session o e pid im cm = (o', Raised ex)
    /\ Orchestrator.hooks o' = Orchestrator.hooks o
    /\ Store.quality_checks (Orchestrator.db o')
       = Store.quality_checks (Orchestrator.db o).
Proof.
  intros Ha Hf Hp. unfold Orchestrator.start_session. rewrite Ha.
  unfold Orchestrator.create, Store.create_session.
  rewrite next_session_number_free, !(fault_at_some _ _ _ _ Hf).
  destruct Hp as [-> | ->]; simpl; eexists; split_and!; reflexivity.
Qed.

(** A call of the guarded block up to [db.end_session] raises: the
    exception is handed to the handlers, with the row of the session not
    yet terminal. *)
Lemma start_session_fault_before_hooks o e pid im cm a p ex :
  Orchestrator.precheck o pid im cm = Returned a ->
  Orchestrator.fault e = Some (p, ex) ->
  In p Orchestrator.before_hooks ->
  Orchestrator.called o e (Orchestrator.ad_is_initializer a) p = true ->
  exists o_k info_k row,
    Orchestrator.start_session o e pid im cm = Orchestrator.handle o_k info_k e ex
    /\ Orchestrator.session_id info_k = Store.next_id (Orchestrator.db o)
    /\ Orchestrator.session_type info_k
       = (if Orchestrator.ad_is_initializer a then INITIALIZER else CODING)
    /\ Orchestrator.hooks o_k = Orchestrator.hooks o
    /\ Store.quality_checks (Orchestrator.db o_k)
       = Store.quality_checks (Orchestrator.db o)
    /\ In row (Store.sessions (Orchestrator.db o_k))
    /\ Store.row_id row = Orchestrator.session_id info_k
    /\ Store.is_terminal (Store.row_status row) = false.
Proof.
  intros Ha Hf Hp Hcalled.
  unfold Orchestrator.start_session. rewrite Ha.
  destruct (create_enters_block o a e)
    as (o1 & info1 & row1 & -> & Hin1 & Hid1 & Hst1 & Hsid1 & Hcb1 & Hh1 & Hq1
        & _ & Hty1 & _).
  { rewrite (fault_at_some _ _ _ _ Hf). simpl in Hp.
    destruct Hp as [<-|[<-|[<-|[<-|[<-|[<-|[<-|[]]]]]]]]; reflexivity. }
  { rewrite (fault_at_some _ _ _ _ Hf). simpl in Hp.
    destruct Hp as [<-|[<-|[<-|[<-|[<-|[<-|[<-|[]]]]]]]]; reflexivity. }
  assert (Hnt1 : Store.is_terminal (Store.row_status row1) = false)
    by now rewrite Hst1.
  destruct (start_session_marks (Orchestrator.db o1) (Orchestrator.session_id info1)
              (Orchestrator.t_start e) row1 Hin1 Hid1)
    as (row2 & Hin2 & Hid2 & _ & _ & Hst2).
  assert (Hnt2 : Store.is_terminal (Store.row_status row2) = false)
    by now rewrite Hst2.
  unfold Orchestrator.launch, Orchestrator.handled.
  rewrite !(fault_at_some _ _ _ _ Hf).
  simpl in Hp.
  destruct Hp as [<-|[<-|[<-|[<-|[<-|[<-|[<-|[]]]]]]]]; simpl in Hcalled |- *.
  - exists o1, info1, row1.
    split; [now destruct (Orchestrator.handle o1 info1 e ex)|].
    split_and!; auto.
  - exists o1, info1, row1.
    split; [now destruct (Orchestrator.handle o1 info1 e ex)|].
    split_and!; auto.
  - exists o1, info1, row1.
    split; [now destruct (Orchestrator.handle o1 info1 e ex)|].
    split_and!; auto.
  - rewrite Hcb1, Hcalled.
    match goal with
    | |- context [Orchestrator.handle ?o2 ?i2 e ex] =>
        exists o2, i2, row2;
        split; [now destruct (Orchestrator.handle o2 i2 e ex)|]
    end.
    split_and!; auto.
  - replace (if Orchestrator.event_callback o1 then None else None)
      with (@None exn) by (now destruct (Orchestrator.event_callback o1)).
    unfold Orchestrator.execute. rewrite !(fault_at_some _ _ _ _ Hf). simpl.
    do 2 eexists. exists row2. split; [reflexivity|].
    destruct (publish_leaves
                (Orchestrator.set_db
                   (Orchestrator.set_session_managers o1
                      (alter
                         (fun m => {| Orchestrator.interrupted := Orchestrator.interrupted m;
                                      Orchestrator.current_logger := true |})
                         (Orchestrator.session_id info1)
                         (Orchestrator.session_managers o1)))
                   (Store.start_session (Orchestrator.db o1)
                      (Orchestrator.session_id info1) (Orchestrator.t_start e)))
                (Orchestrator.project_id info1) "session_started")
      as (Hh2 & Hdb2 & _).
    rewrite Hh2, Hdb2. split_and!; auto.
  - replace (if Orchestrator.event_callback o1 then None else None)
      with (@None exn) by (now destruct (Orchestrator.event_callback o1)).
    unfold Orchestrator.execute. rewrite !(fault_at_some _ _ _ _ Hf). simpl.
    do 2 eexists. exists row2. split; [reflexivity|].
    destruct (publish_leaves
                (Orchestrator.set_db
                   (Orchestrator.set_session_managers o1
                      (alter
                         (fun m => {| Orchestrator.interrupted := Orchestrator.interrupted m;
                                      Orchestrator.current_logger := true |})
                         (Orchestrator.session_id info1)
                         (Orchestrator.session_managers o1)))
                   (Store.start_session (Orchestrator.db o1)
                      (Orchestrator.session_id info1) (Orchestrator.t_start e)))
                (Orchestrator.project_id info1) "session_started")
      as (Hh2 & Hdb2 & _).
    rewrite Hh2, Hdb2. split_and!; auto.
  - replace (if Orchestrator.event_callback o1 then None else None)
      with (@None exn) by (now destruct (Orchestrator.event_callback o1)).
    unfold Orchestrator.execute. rewrite !(fault_at_some _ _ _ _ Hf). simpl.
    do 2 eexists. exists row2. split; [reflexivity|].
    destruct (publish_leaves
                (Orchestrator.set_db
                   (Orchestrator.set_session_managers o1
                      (alter
                         (fun m => {| Orchestrator.interrupted := Orchestrator.interrupted m;
                                      Orchestrator.current_logger := true |})
                         (Orchestrator.session_id info1)
                         (Orchestrator.session_managers o1)))
                   (Store.start_session (Orchestrator.db o1)
                      (Orchestrator.session_id info1) (Orchestrator.t_start e)))
                (Orchestrator.project_id info1) "session_started")
      as (Hh2 & Hdb2 & _).
    simpl. rewrite Hh2, Hdb2.
    destruct (bool_decide (Orchestrator.agent_status e = "error"));
      split_and!; auto.
Qed.

Lemma reaches_hooks_early o e :
  Orchestrator.reaches_hooks o e = true ->
  Orchestrator.fault_at [Orchestrator.AtSetupHandlers] e = None
  /\ Orchestrator.fault_at [Orchestrator.AtCreateSandbox] e = None
  /\ Orchestrator.fault_at
       [Orchestrator.AtSandboxStart; Orchestrator.AtCreateLogger;
        Orchestrator.AtDbStartSession] e = None
  /\ (if Orchestrator.event_callback o
      then Orchestrator.fault_at [Orchestrator.AtSessionStartedCallback] e
      else None) = None
  /\ Orchestrator.fault_at [Orchestrator.AtCreateClient; Orchestrator.AtRunAgent] e
     = None
  /\ Orchestrator.fault_at [Orchestrator.AtEndSession] e = None.
Proof.
  unfold Orchestrator.reaches_hooks, Orchestrator.fault_at.
  destruct (Orchestrator.fault e) as [[p ex]|];
    [|destruct (Orchestrator.event_callback o); repeat split].
  destruct p; try discriminate; simpl;
    destruct (Orchestrator.event_callback o); try discriminate; repeat split.
Qed.

(** No call up to [db.end_session] raises: the row of the session is
    ended with the status the agent reported, and the hooks are next. *)
Lemma start_session_reaches_hooks o e pid im cm a :
  Orchestrator.precheck o pid im cm = Returned a ->
  Orchestrator.reaches_hooks o e = true ->
  exists o_k info_k row,
    Orchestrator.start_session o e pid im cm
    = Orchestrator.after_end_session o_k info_k e (Orchestrator.ad_is_initializer a)
        (bool_decide (Orchestrator.agent_status e = "error"))
    /\ Orchestrator.session_id info_k = Store.next_id (Orchestrator.db o)
    /\ Orchestrator.project_id info_k = pid
    /\ Orchestrator.session_type info_k
       = (if Orchestrator.ad_is_initializer a then INITIALIZER else CODING)
    /\ Orchestrator.status info_k = Orchestrator.agent_outcome e
    /\ Orchestrator.hooks o_k = Orchestrator.hooks o
    /\ Store.quality_checks (Orchestrator.db o_k)
       = Store.quality_checks (Orchestrator.db o)
    /\ In row (Store.sessions (Orchestrator.db o_k))
    /\ Store.row_id row = Store.next_id (Orchestrator.db o)
    /\ Store.row_status row = Orchestrator.agent_outcome e.
Proof.
  intros Ha Hr. destruct (precheck_returned _ _ _ _ _ Ha) as (Hp & _ & _).
  destruct (reaches_hooks_early o e Hr) as (F1 & F2 & F3 & F4 & F5 & F6).
  unfold Orchestrator.start_session. rewrite Ha.
  destruct (create_enters_block o a e F1 F2)
    as (o1 & info1 & row1 & -> & Hin1 & Hid1 & Hst1 & Hsid1 & Hcb1 & Hh1 & Hq1
        & Hpid1 & Hty1 & _).
  destruct (start_session_marks (Orchestrator.db o1) (Orchestrator.session_id info1)
              (Orchestrator.t_start e) row1 Hin1 Hid1)
    as (row2 & Hin2 & Hid2 & _ & _ & Hst2).
  assert (Hnt2 : Store.is_terminal (Store.row_status row2) = false)
    by now rewrite Hst2.
  unfold Orchestrator.launch. rewrite F3. cbv zeta.
  match goal with
  | |- context [Orchestrator.event_callback ?x] =>
      change (Orchestrator.event_callback x) with (Orchestrator.event_callback o1)
  end.
  rewrite Hcb1, F4.
  unfold Orchestrator.execute. rewrite F5, F6. cbv zeta.
  set (o2 := Orchestrator.publish _ _ _).
  assert (Ho2 : Orchestrator.hooks o2 = Orchestrator.hooks o
                /\ Store.quality_checks (Orchestrator.db o2)
                   = Store.quality_checks (Orchestrator.db o)
                /\ In row2 (Store.sessions (Orchestrator.db o2))).
  { subst o2. rewrite sessions_publish.
    match goal with
    | |- context [Orchestrator.publish ?x ?y ?z] =>
        destruct (publish_leaves x y z) as (-> & -> & _)
    end.
    simpl. auto. }
  destruct Ho2 as (Hh2 & Hq2 & Hin3).
  set (is_error := bool_decide (Orchestrator.agent_status e = "error")).
  set (st := if is_error then ERROR else COMPLETED).
  set (o3 := Orchestrator.set_db (Orchestrator.set_db o2 _) _).
  assert (Hrow : exists row3,
             In row3 (Store.sessions (Orchestrator.db o3))
             /\ Store.row_id row3 = Store.next_id (Orchestrator.db o)
             /\ Store.row_status row3 = st).
  { subst o3 st. simpl.
    destruct is_error;
      match goal with
      | |- context [Store.end_session ?d ?sid ?s ?m ?r ?t] =>
          destruct (end_session_marks d sid s m r t row2)
            as (row3 & H1 & H2 & _ & _ & H3 & _);
          [exact Hin3 | exact Hid2 | exact Hnt2 |];
          exists row3; split; [exact H1|]; split; [congruence | exact H3]
      end. }
  destruct Hrow as (row3 & Hin4 & Hid4 & Hst4).
  assert (Hinit :
    bool_decide
      (Orchestrator.session_type
         (Orchestrator.with_started_at (Orchestrator.with_status info1 RUNNING)
            (Orchestrator.t_start e)) = INITIALIZER)
    = Orchestrator.ad_is_initializer a).
  { simpl. rewrite Hty1. now destruct (Orchestrator.ad_is_initializer a). }
  rewrite Hinit.
  do 2 eexists. exists row3. split; [reflexivity|].
  unfold Orchestrator.agent_outcome. fold is_error.
  subst o3. simpl. destruct is_error; simpl; split_and!; auto; congruence.
Qed.

Lemma end_session_keeps_terminal db sid st err reason now row :
  In row (Store.sessions db) ->
  Store.is_terminal (Store.row_status row) = true ->
  In row (Store.sessions (Store.end_session db sid st err reason now)).
Proof.
  intros Hin Ht. unfold Store.end_session. simpl. apply in_map_iff.
  exists row. split; [|exact Hin]. unfold Store.update_row.
  destruct (bool_decide _); [|reflexivity]. now rewrite Ht.
Qed.

(** The class of failures the two [except] clauses catch, when the
    [db.end_session] of the clause succeeds and the row of the session is
    not terminal yet. *)
Lemma handle_caught o info e ex row :
  ex = KeyboardInterrupt \/ is_Exception ex = true ->
  Orchestrator.handler_fault e = None ->
  In row (Store.sessions (Orchestrator.db o)) ->
  Store.row_id row = Orchestrator.session_id info ->
  Store.is_terminal (Store.row_status row) = false ->
  exists o' info',
    Orchestrator.handle o info e ex = (o', Returned info')
    /\ Orchestrator.session_id info' = Orchestrator.session_id info
    /\ Orchestrator.failure_recorded ex o' info'.
Proof.
  intros Hex Hh Hin Hid Hnt.
  unfold Orchestrator.handle, Orchestrator.failure_recorded. rewrite Hh.
  destruct ex as [msg|msg| |msg]; simpl in Hex;
    try (destruct Hex; discriminate);
    (do 2 eexists; split; [reflexivity|]); simpl;
    (split; [reflexivity|]); (split; [reflexivity|]);
    (split; [try reflexivity; discriminate|]);
    (split; [apply lookup_delete_eq|]).
  - destruct (end_session_marks (Orchestrator.db o) _ ERROR (Some msg) None
                (Orchestrator.t_end e) row Hin Hid Hnt)
      as (row' & H1 & H2 & _ & _ & H3 & H4 & _).
    exists row'. split_and!; auto. discriminate.
  - destruct (end_session_marks (Orchestrator.db o) _ ERROR (Some msg) None
                (Orchestrator.t_end e) row Hin Hid Hnt)
      as (row' & H1 & H2 & _ & _ & H3 & H4 & _).
    exists row'. split_and!; auto. discriminate.
  - destruct (end_session_marks (Orchestrator.db o) _ INTERRUPTED None
                (Some "User interrupted") (Orchestrator.t_end e) row Hin Hid Hnt)
      as (row' & H1 & H2 & _ & _ & H3 & _ & H4).
    exists row'. split_and!; auto. discriminate.
Qed.

(** The same once the row is terminal: the returned session reads
    [error] or [interrupted], the row stays as it is. *)
Lemma handle_late o info e ex row :
  ex = KeyboardInterrupt \/ is_Exception ex = true ->
  Orchestrator.handler_fault e = None ->
  In row (Store.sessions (Orchestrator.db o)) ->
  Store.is_terminal (Store.row_status row) = true ->
  exists o' info',
    Orchestrator.handle o info e ex = (o', Returned info')
    /\ Orchestrator.session_id info' = Orchestrator.session_id info
    /\ Orchestrator.status info' = (if is_Exception ex then ERROR else INTERRUPTED)
    /\ (is_Exception ex = true ->
        Orchestrator.error_message info' = Some (str_exn ex))
    /\ In row (Store.sessions (Orchestrator.db o')).
Proof.
  intros Hex Hh Hin Ht. unfold Orchestrator.handle. rewrite Hh.
  destruct ex as [msg|msg| |msg]; simpl in Hex;
    try (destruct Hex; discriminate);
    (do 2 eexists; split; [reflexivity|]); simpl;
    (split; [reflexivity|]); (split; [reflexivity|]);
    (split; [try reflexivity; discriminate|]);
    now apply end_session_keeps_terminal.
Qed.

(** The [db.end_session] of the [except] clause raises: the exception
    leaves [start_session]. *)
Lemma handle_raises o info e ex ex' :
  ex = KeyboardInterrupt \/ is_Exception ex = true ->
  Orchestrator.handler_fault e = Some ex' ->
  Orchestrator.handle o info e ex
  = (Orchestrator.finally_ o (Orchestrator.session_id info), Raised ex').
Proof.
  intros Hex Hh. unfold Orchestrator.handle. rewrite Hh.
  destruct ex as [msg|msg| |msg]; simpl in Hex;
    try (destruct Hex; discriminate); reflexivity.
Qed.

(** A call after [db.end_session] raises: an [Exception] inside a hook
    stays there and the session is returned, anything else is handed to
    the handlers; the rows are as [db.end_session] left them. *)
Lemma after_end_session_fault o info e (is_initializer : bool) p ex :
  Orchestrator.fault e = Some (p, ex) ->
  In p [Orchestrator.AtQualityCheck; Orchestrator.AtTestCoverage;
        Orchestrator.AtClearLogger] ->
  Orchestrator.called o e is_initializer p = true ->
  exists o1,
    Store.sessions (Orchestrator.db o1) = Store.sessions (Orchestrator.db o)
    /\ Orchestrator.session_managers o1 = Orchestrator.session_managers o
    /\ Orchestrator.after_end_session o info e is_initializer
         (bool_decide (Orchestrator.agent_status e = "error"))
       = if Orchestrator.reaches_handlers p ex
         then Orchestrator.handle o1 info e ex
         else (Orchestrator.finally_ o1 (Orchestrator.session_id info),
               Returned info).
Proof.
  intros Hf Hp Hcalled.
  unfold Orchestrator.after_end_session, Orchestrator.call_hook.
  rewrite !(fault_at_some _ _ _ _ Hf).
  destruct (run_quality_check_leaves o (Orchestrator.session_id info) e)
    as (_ & _ & Hq3 & Hq4).
  destruct (run_test_coverage_analysis_leaves o (Orchestrator.project_id info) e)
    as (_ & _ & Hc3 & Hc4).
  simpl in Hp. destruct Hp as [<-|[<-|[<-|[]]]]; simpl in Hcalled |- *.
  - apply negb_true_iff in Hcalled. subst is_initializer. simpl.
    destruct (is_Exception ex); simpl; eexists; (split; [|split; [|reflexivity]]);
      reflexivity.
  - apply andb_true_iff in Hcalled. destruct Hcalled as [-> Herr].
    rewrite Herr. simpl.
    destruct (is_Exception ex); simpl; eexists; (split; [|split; [|reflexivity]]);
      reflexivity.
  - destruct is_initializer,
      (bool_decide (Orchestrator.agent_status e = "error")); simpl;
      eexists; (split; [|split; [|reflexivity]]); eauto.
Qed.

(** The session the handlers and the hooks return is the session they
    were given. *)
Lemma handle_same_session o info e ex o' info' :
  Orchestrator.handle o info e ex = (o', Returned info') ->
  Orchestrator.session_id info' = Orchestrator.session_id info
  /\ Orchestrator.session_type info' = Orchestrator.session_type info.
Proof.
  unfold Orchestrator.handle.
  destruct ex; destruct (Orchestrator.handler_fault e); intros [= <- <-];
    split; reflexivity.
Qed.

Lemma after_end_session_same_session o info e (is_initializer is_error : bool)
    o' info' :
  Orchestrator.after_end_session o info e is_initializer is_error
  = (o', Returned info') ->
  Orchestrator.session_id info' = Orchestrator.session_id info
  /\ Orchestrator.session_type info' = Orchestrator.session_type info.
Proof.
  unfold Orchestrator.after_end_session, Orchestrator.call_hook.
  destruct is_initializer, is_error; simpl;
    repeat match goal with
           | |- context [Orchestrator.fault_at ?l e] =>
               destruct (Orchestrator.fault_at l e) as [?ex|]; simpl
           | |- context [is_Exception ?ex] => destruct (is_Exception ex); simpl
           end;
    try (intros [= <- <-]; split; reflexivity);
    apply handle_same_session.
Qed.

(** A call that does not get as far as the hooks invokes and stores
    nothing. *)
Lemma start_session_stops_early o e pid im cm a :
  Orchestrator.precheck o pid im cm = Returned a ->
  Orchestrator.reaches_hooks o e = false ->
  let out := Orchestrator.start_session o e pid im cm in
  Orchestrator.hooks (fst out) = Orchestrator.hooks o
  /\ Store.quality_checks (Orchestrator.db (fst out))
     = Store.quality_checks (Orchestrator.db o)
  /\ Orchestrator.fault e <> None
  /\ forall info, snd out = Returned info ->
       Orchestrator.session_id info = Store.next_id (Orchestrator.db o)
       /\ Orchestrator.session_type info
          = (if Orchestrator.ad_is_initializer a then INITIALIZER else CODING).
Proof.
  intros Ha Hr. cbv zeta. unfold Orchestrator.reaches_hooks in Hr.
  destruct (Orchestrator.fault e) as [[p ex]|] eqn:Hf; [|discriminate].
  assert (Hp : (p = Orchestrator.AtSetupHandlers \/ p = Orchestrator.AtCreateSandbox)
               \/ (In p Orchestrator.before_hooks
                   /\ Orchestrator.called o e (Orchestrator.ad_is_initializer a) p
                      = true)).
  { destruct p; try discriminate; simpl; auto 10.
    right. apply negb_false_iff in Hr. auto 10. }
  destruct Hp as [Hp|[Hp Hcalled]].
  - destruct (start_session_create_fails o e pid im cm a p ex Ha Hf Hp)
      as (o' & -> & Hh & Hq).
    simpl. split_and!; auto; discriminate.
  - destruct (start_session_fault_before_hooks o e pid im cm a p ex Ha Hf Hp Hcalled)
      as (o_k & info_k & row & -> & Hsid & Hty & Hh & Hq & _).
    destruct (handle_leaves o_k info_k e ex) as (Hh' & Hq' & _).
    simpl in Hh', Hq'. rewrite Hh', Hq'.
    split; [exact Hh|]. split; [exact Hq|]. split; [discriminate|].
    intros info Hinfo.
    destruct (Orchestrator.handle o_k info_k e ex) as [o' r] eqn:Hhandle.
    simpl in Hinfo. subst r.
    destruct (handle_same_session _ _ _ _ _ _ Hhandle) as [H1 H2]. split; congruence.
Qed.

(** C6 (as the code has it). The hooks of a call of [start_session] that
    is let through, however the call ends: the quick quality check is
    invoked exactly when the [try] block gets as far as the hooks (no
    call up to [db.end_session] raises) and the session is not an
    initializer session; the test-coverage analysis exactly when the block
    gets that far, the session is an initializer session and the agent
    did not report [error]; nothing else is invoked. A session that a
    handler returns after an earlier failure has neither. When no call
    raises, the session is returned with the status the agent reported.
    An initializer session leaves the stored quality checks as they were,
    and a coding session that reaches the quick check with its log in
    place gets one. *)
Theorem post_session_hooks (o : Orchestrator.t) (e : Orchestrator.session_env)
    (pid : uuid) (im cm : option string) (a : Orchestrator.prechecked) :
  Orchestrator.precheck o pid im cm = Returned a ->
  let out := Orchestrator.start_session o e pid im cm in
  let sid := Store.next_id (Orchestrator.db o) in
  let is_initializer :=
    bool_decide (Store.list_epics (Orchestrator.db o) pid = []) in
  exists invoked,
    Orchestrator.hooks (fst out) = Orchestrator.hooks o ++ invoked
    /\ (In (Orchestrator.RunQualityCheck sid) invoked
        <-> Orchestrator.reaches_hooks o e = true /\ is_initializer = false)
    /\ (In (Orchestrator.RunTestCoverage pid) invoked
        <-> Orchestrator.reaches_hooks o e = true /\ is_initializer = true
            /\ Orchestrator.agent_status e <> "error")
    /\ (forall h, In h invoked ->
          h = Orchestrator.RunQualityCheck sid
          \/ h = Orchestrator.RunTestCoverage pid)
    /\ (forall info, snd out = Returned info ->
          Orchestrator.session_id info = sid
          /\ (Orchestrator.session_type info = INITIALIZER
              <-> is_initializer = true))
    /\ (Orchestrator.fault e = None ->
        exists info,
          snd out = Returned info
          /\ (Orchestrator.status info = ERROR
              <-> Orchestrator.agent_status e = "error")
          /\ (Orchestrator.status info <> ERROR
              -> Orchestrator.status info = COMPLETED))
    /\ (is_initializer = true ->
        Store.quality_checks (Orchestrator.db (fst out))
        = Store.quality_checks (Orchestrator.db o))
    /\ (is_initializer = false ->
        Orchestrator.reaches_hooks o e = true ->
        Orchestrator.fault_at [Orchestrator.AtQualityCheck] e = None ->
        Orchestrator.jsonl_exists e = true ->
        Store.quality_checks (Orchestrator.db (fst out))
        = Store.quality_checks (Orchestrator.db o)
          ++ [ {| Store.qc_session_id := sid;
                  Store.qc_check_type := "quick";
                  Store.qc_overall_rating := Orchestrator.quality_rating e |} ]).
Proof.
  intros Ha out sid is_initializer. subst out sid is_initializer.
  destruct (precheck_returned _ _ _ _ _ Ha) as (_ & _ & Hinit).
  rewrite <- Hinit.
  assert (Hty : forall ty : SessionType,
             ty = (if Orchestrator.ad_is_initializer a then INITIALIZER else CODING) ->
             (ty = INITIALIZER <-> Orchestrator.ad_is_initializer a = true)).
  { intros ty ->. destruct (Orchestrator.ad_is_initializer a);
      split; congruence. }
  destruct (Orchestrator.reaches_hooks o e) eqn:Hr.
  - destruct (start_session_reaches_hooks o e pid im cm a Ha Hr)
      as (o_k & info_k & row & Heq & Hsid & Hpid & Htyk & Hst & Hh & Hq & _).
    rewrite Heq.
    destruct (after_end_session_leaves o_k info_k e
                (Orchestrator.ad_is_initializer a)
                (bool_decide (Orchestrator.agent_status e = "error")))
      as (Hh' & Hq' & _).
    simpl in Hh', Hq'. rewrite Hh, Hpid, Hsid in Hh'. rewrite Hq, Hsid in Hq'.
    eexists. split; [exact Hh'|].
    split_and!.
    + destruct (Orchestrator.ad_is_initializer a);
        [destruct (bool_decide (Orchestrator.agent_status e = "error"))|]; simpl; intuition congruence.
    + destruct (Orchestrator.ad_is_initializer a);
        [destruct (decide (Orchestrator.agent_status e = "error")) as [Her|Her];
         [rewrite (bool_decide_eq_true_2 _ Her)
         |rewrite (bool_decide_eq_false_2 _ Her)]|];
        simpl; intuition congruence.
    + destruct (Orchestrator.ad_is_initializer a);
        [destruct (bool_decide (Orchestrator.agent_status e = "error"))|]; simpl; intuition.
    + intros info Hinfo.
      destruct (Orchestrator.after_end_session _ _ _ _ _) as [o' r] eqn:Hafter.
      simpl in Hinfo. subst r.
      destruct (after_end_session_same_session _ _ _ _ _ _ _ Hafter) as [H1 H2].
      split; [congruence|]. apply Hty. congruence.
    + intros Hf. exists info_k. split.
      * unfold Orchestrator.after_end_session, Orchestrator.call_hook.
        rewrite !(fault_at_none _ _ Hf).
        destruct (Orchestrator.ad_is_initializer a),
          (bool_decide (Orchestrator.agent_status e = "error")); reflexivity.
      * rewrite Hst. unfold Orchestrator.agent_outcome.
        destruct (decide (Orchestrator.agent_status e = "error")) as [Her|Her];
          [rewrite (bool_decide_eq_true_2 _ Her)
          |rewrite (bool_decide_eq_false_2 _ Her)];
          intuition congruence.
    + intros Hi. rewrite Hq', Hi. apply app_nil_r.
    + intros Hi _ Hfq Hj. rewrite Hq', Hi, Hfq, Hj. reflexivity.
  - destruct (start_session_stops_early o e pid im cm a Ha Hr)
      as (Hh & Hq & Hf & Hinfo).
    exists []. rewrite app_nil_r. split; [exact Hh|].
    split_and!; try (intros; congruence).
    + split; [intros [] | intros [? _]; discriminate].
    + split; [intros [] | intros [? _]; discriminate].
    + intros h [].
    + intros info Hi. destruct (Hinfo info Hi) as [H1 H2]. split; auto.
Qed.

(** ** [start_session]: failures inside the guarded block *)

(** C9 (as the code has it). Once the sandbox object has been built and
    the guarded block entered, an [Exception] or a [KeyboardInterrupt]
    raised by a call of the block ends the call as follows, and the
    session manager is unregistered in every case.
    - An [Exception] raised inside a post-session hook stays in the hook:
      the session is returned as it ended.
    - Any other failure reaches an [except] clause. When the
      [db.end_session] of the clause raises, that exception leaves
      [start_session]. Otherwise a [SessionInfo] is returned whose status
      is [error] (with the message of the exception) or [interrupted].
    - For a failure up to [db.end_session] the session row carries the
      same terminal status ([failure_recorded]); for a failure after it
      (a hook, the release of the logger) the row keeps the status with
      which the block ended it. *)
Theorem guarded_failures_are_returned (o : Orchestrator.t)
    (e : Orchestrator.session_env) (pid : uuid) (im cm : option string)
    (a : Orchestrator.prechecked) (p : Orchestrator.fault_point) (ex : exn) :
  Orchestrator.precheck o pid im cm = Returned a ->
  Orchestrator.fault e = Some (p, ex) ->
  In p Orchestrator.guarded ->
  Orchestrator.called o e (Orchestrator.ad_is_initializer a) p = true ->
  ex = KeyboardInterrupt \/ is_Exception ex = true ->
  let out := Orchestrator.start_session o e pid im cm in
  let sid := Store.next_id (Orchestrator.db o) in
  Orchestrator.session_managers (fst out) !! sid = None
  /\ (forall ex',
        Orchestrator.reaches_handlers p ex = true ->
        Orchestrator.handler_fault e = Some ex' ->
        snd out = Raised ex')
  /\ (Orchestrator.reaches_handlers p ex = false
      \/ Orchestrator.handler_fault e = None ->
      exists info,
        snd out = Returned info
        /\ Orchestrator.session_id info = sid
        /\ (In p Orchestrator.before_hooks ->
            Orchestrator.failure_recorded ex (fst out) info)
        /\ (~ In p Orchestrator.before_hooks ->
            Orchestrator.status info
            = (if Orchestrator.reaches_handlers p ex
               then if is_Exception ex then ERROR else INTERRUPTED
               else Orchestrator.agent_outcome e)
            /\ exists row,
                 In row (Store.sessions (Orchestrator.db (fst out)))
                 /\ Store.row_id row = sid
                 /\ Store.row_status row = Orchestrator.agent_outcome e)).
Proof.
  intros Ha Hf Hp Hcalled Hex. cbv zeta.
  destruct (decide (In p Orchestrator.before_hooks)) as [Hb|Hb].
  - destruct (start_session_fault_before_hooks o e pid im cm a p ex Ha Hf Hb Hcalled)
      as (o_k & info_k & row & -> & Hsid & _ & _ & _ & Hin & Hid & Hnt).
    destruct (handle_leaves o_k info_k e ex) as (_ & _ & Hm).
    simpl in Hm. rewrite Hm, Hsid. split; [apply lookup_delete_eq|]. split.
    + intros ex' _ Hh. now rewrite (handle_raises _ _ _ _ _ Hex Hh).
    + intros [Hr|Hh].
      { simpl in Hb.
        destruct Hb as [<-|[<-|[<-|[<-|[<-|[<-|[<-|[]]]]]]]]; discriminate Hr. }
      destruct (handle_caught o_k info_k e ex row Hex Hh Hin Hid Hnt)
        as (o' & info' & -> & Hsid' & Hrec).
      exists info'. simpl. split; [reflexivity|]. split; [congruence|].
      split; [intros _; exact Hrec | intros Hn; contradiction].
  - assert (Hp' : In p [Orchestrator.AtQualityCheck; Orchestrator.AtTestCoverage;
                        Orchestrator.AtClearLogger]).
    { simpl in Hp, Hb |- *. intuition. }
    assert (Hr : Orchestrator.reaches_hooks o e = true).
    { unfold Orchestrator.reaches_hooks. rewrite Hf. simpl in Hp'.
      destruct Hp' as [<-|[<-|[<-|[]]]]; reflexivity. }
    destruct (start_session_reaches_hooks o e pid im cm a Ha Hr)
      as (o_k & info_k & row & -> & Hsid & _ & _ & Hst & _ & _ & Hin & Hid & Hrow).
    assert (Hcalled' : Orchestrator.called o_k e (Orchestrator.ad_is_initializer a) p
                       = true).
    { simpl in Hp'. destruct Hp' as [<-|[<-|[<-|[]]]]; exact Hcalled. }
    destruct (after_end_session_fault o_k info_k e (Orchestrator.ad_is_initializer a)
                p ex Hf Hp' Hcalled') as (o1 & Hs1 & Hm1 & ->).
    assert (Hterm : Store.is_terminal (Store.row_status row) = true).
    { rewrite Hrow. unfold Orchestrator.agent_outcome.
      now destruct (bool_decide (Orchestrator.agent_status e = "error")). }
    rewrite <- Hs1 in Hin.
    destruct (Orchestrator.reaches_handlers p ex) eqn:Hreach.
    + destruct (handle_leaves o1 info_k e ex) as (_ & _ & Hm).
      simpl in Hm. rewrite Hm, Hsid. split; [apply lookup_delete_eq|]. split.
      * intros ex' _ Hh. now rewrite (handle_raises _ _ _ _ _ Hex Hh).
      * intros [Hr'|Hh]; [discriminate Hr'|].
        destruct (handle_late o1 info_k e ex row Hex Hh Hin Hterm)
          as (o' & info' & -> & Hsid' & Hst' & _ & Hin').
        exists info'. simpl. split; [reflexivity|]. split; [congruence|].
        split; [intros Hn; contradiction|]. intros _. split; [exact Hst'|].
        exists row. auto.
    + simpl. rewrite Hsid. split; [apply lookup_delete_eq|]. split.
      * intros ex' Hr' _. discriminate Hr'.
      * intros _. exists info_k. split; [reflexivity|]. split; [exact Hsid|].
        split; [intros Hn; contradiction|]. intros _. split; [exact Hst|].
        exists row. auto.
Qed.

(** ** The admission gate of [start_session] *)

(** *** Rows that are ended, inserted, started *)

Lemma rows_ended_refl db : Store.rows_ended db db.
Proof.
  split; [reflexivity|].
  induction (Store.sessions db) as [|r l IH]; constructor; [|exact IH].
  unfold Store.row_calmer. auto.
Qed.

Lemma rows_ended_trans db1 db2 db3 :
  Store.rows_ended db1 db2 -> Store.rows_ended db2 db3 -> Store.rows_ended db1 db3.
Proof.
  intros [Hn1 H1] [Hn2 H2]. split; [congruence|].
  revert H2. generalize (Store.sessions db3) as l3.
  induction H1 as [|r1 r2 l1 l2 Hr H1 IH]; intros l3 H2; inversion H2; subst;
    constructor; [|now apply IH].
  unfold Store.row_calmer in *. intuition congruence.
Qed.

Lemma end_session_rows_ended db sid st err reason now :
  Store.is_terminal st = true ->
  Store.rows_ended db (Store.end_session db sid st err reason now).
Proof.
  intros Hst. split; [reflexivity|]. simpl.
  induction (Store.sessions db) as [|r l IH]; simpl; constructor; [|exact IH].
  unfold Store.update_row, Store.row_calmer.
  destruct (bool_decide _); [|auto].
  destruct (Store.is_terminal (Store.row_status r)); [auto|]. simpl.
  split_and!; auto. intros ->. discriminate Hst.
Qed.

Lemma rows_ended_ids db db' :
  Store.rows_ended db db' ->
  map Store.row_id (Store.sessions db') = map Store.row_id (Store.sessions db).
Proof.
  intros [_ H]. induction H as [|r r' l l' (Hid & _) H IH]; simpl;
    [reflexivity | now rewrite Hid, IH].
Qed.

Lemma rows_ended_running_count db db' p :
  Store.rows_ended db db' ->
  (Store.running_count db' p <= Store.running_count db p)%nat.
Proof.
  intros [_ H]. unfold Store.running_count.
  induction H as [|r r' l l' (Hid & Hp & Hst) H IH]; simpl; [lia|].
  assert (Hrun : Store.is_running p r' = true -> Store.is_running p r = true).
  { unfold Store.is_running. rewrite Hp, !andb_true_iff.
    intros [H1 H2]. split; [exact H1|].
    apply bool_decide_eq_true_1 in H2. apply bool_decide_eq_true_2. auto. }
  destruct (Store.is_running p r'); simpl.
  - rewrite (Hrun eq_refl). simpl. lia.
  - destruct (Store.is_running p r); simpl; lia.
Qed.

Lemma rows_ended_In db db' r' :
  Store.rows_ended db db' -> In r' (Store.sessions db') ->
  exists r, In r (Store.sessions db) /\ Store.row_calmer r r'.
Proof.
  intros [_ H]. induction H as [|r0 r0' l l' Hr H IH]; simpl; [intros []|].
  intros [<-|Hin]; [eauto|].
  destruct (IH Hin) as (r & Hr0 & Hc). eauto.
Qed.

Lemma rows_ended_well_formed db db' :
  Store.rows_ended db db' -> Store.well_formed db -> Store.well_formed db'.
Proof.
  intros He [Hnd Hlt]. split.
  - now rewrite (rows_ended_ids _ _ He).
  - apply List.Forall_forall. intros r' Hin.
    destruct (rows_ended_In _ _ _ He Hin) as (r & Hr & Hid & _).
    rewrite List.Forall_forall in Hlt. destruct He as [-> _].
    rewrite Hid. now apply Hlt.
Qed.

Lemma rows_ended_at_most_one db db' :
  Store.rows_ended db db' ->
  Store.at_most_one_running db -> Store.at_most_one_running db'.
Proof.
  intros He H p. pose proof (rows_ended_running_count _ _ p He).
  specialize (H p). lia.
Qed.

Lemma rows_ended_task_ok db db' tk :
  Store.rows_ended db db' ->
  Orchestrator.task_ok db tk -> Orchestrator.task_ok db' tk.
Proof.
  intros He.
  assert (Hz : forall p, Store.running_count db p = 0%nat ->
                         Store.running_count db' p = 0%nat).
  { intros p Hp. pose proof (rows_ended_running_count _ _ p He). lia. }
  destruct tk as [pid im cm e|a e|a n e|info e|info e|r]; simpl; auto.
  intros (H0 & Hlt & Hrows). split; [now apply Hz|]. split.
  - destruct He as [-> _]. exact Hlt.
  - intros r' Hin Hid.
    destruct (rows_ended_In _ _ _ He Hin) as (r & Hr & Hid' & Hp & _).
    rewrite Hp. apply Hrows; [exact Hr | congruence].
Qed.

(** The insert of a row. *)
Lemma create_session_rows db pid n ty model db' row :
  Store.create_session db pid n ty model = Some (db', row) ->
  Store.sessions db' = Store.sessions db ++ [row]
  /\ Store.next_id db' = N.succ (Store.next_id db)
  /\ Store.row_id row = Store.next_id db
  /\ Store.row_project row = pid
  /\ Store.row_status row = PENDING.
Proof.
  unfold Store.create_session. destruct (Store.number_taken _ _ _); [discriminate|].
  intros [= <- <-]. simpl. auto.
Qed.

Lemma create_session_running_count db pid n ty model db' row p :
  Store.create_session db pid n ty model = Some (db', row) ->
  Store.running_count db' p = Store.running_count db p.
Proof.
  intros H. destruct (create_session_rows _ _ _ _ _ _ _ H) as (Hs & _ & _ & _ & Hst).
  unfold Store.running_count. rewrite Hs, List.filter_app, length_app. simpl.
  unfold Store.is_running at 2. rewrite Hst.
  rewrite (bool_decide_eq_false_2 (PENDING = RUNNING)) by discriminate.
  rewrite andb_false_r. simpl. lia.
Qed.

Lemma create_session_well_formed db pid n ty model db' row :
  Store.create_session db pid n ty model = Some (db', row) ->
  Store.well_formed db -> Store.well_formed db'.
Proof.
  intros H [Hnd Hlt].
  destruct (create_session_rows _ _ _ _ _ _ _ H) as (Hs & Hn & Hid & _).
  unfold Store.well_formed. rewrite Hs, Hn, map_app. simpl. split.
  - apply NoDup_app. split; [exact Hnd|]. split; [|apply NoDup_singleton].
    intros x Hx Hx'. apply list_elem_of_singleton in Hx'. subst x.
    apply list_elem_of_In, in_map_iff in Hx. destruct Hx as (r & Hr & Hin).
    rewrite List.Forall_forall in Hlt. specialize (Hlt r Hin). lia.
  - apply Forall_app. split.
    + eapply List.Forall_impl; [|exact Hlt]. simpl. intros r Hr. lia.
    + constructor; [lia | constructor].
Qed.

Lemma create_session_task_ok db pid n ty model db' row tk :
  Store.create_session db pid n ty model = Some (db', row) ->
  Orchestrator.task_ok db tk -> Orchestrator.task_ok db' tk.
Proof.
  intros H.
  pose proof (fun p => create_session_running_count _ _ _ _ _ _ _ p H) as Hc.
  destruct (create_session_rows _ _ _ _ _ _ _ H) as (Hs & Hn & Hid & _).
  destruct tk as [pid0 im cm e|a e|a n0 e|info e|info e|r]; simpl; auto;
    rewrite ?Hc; auto.
  intros (H0 & Hlt & Hrows). split; [exact H0|]. split; [lia|].
  intros r. rewrite Hs, in_app_iff. simpl. intros [Hin|[<-|[]]] Hr.
  - now apply Hrows.
  - lia.
Qed.

(** The start of a row. *)
Lemma start_session_rows db sid now :
  Store.next_id (Store.start_session db sid now) = Store.next_id db
  /\ Forall2 (fun r r' =>
                Store.row_id r' = Store.row_id r
                /\ Store.row_project r' = Store.row_project r
                /\ (Store.row_id r <> sid -> r' = r))
       (Store.sessions db) (Store.sessions (Store.start_session db sid now)).
Proof.
  split; [reflexivity|]. simpl.
  induction (Store.sessions db) as [|r l IH]; simpl; constructor; [|exact IH].
  unfold Store.update_row.
  destruct (bool_decide (Store.row_id r = sid)) eqn:Hd; simpl; [|auto].
  apply bool_decide_eq_true_1 in Hd. split_and!; auto. congruence.
Qed.

Lemma start_session_well_formed db sid now :
  Store.well_formed db -> Store.well_formed (Store.start_session db sid now).
Proof.
  destruct (start_session_rows db sid now) as [Hn H].
  unfold Store.well_formed. rewrite Hn. revert H.
  generalize (Store.sessions (Store.start_session db sid now)) as l'.
  generalize (Store.sessions db) as l. generalize (Store.next_id db) as m.
  intros m l l' H.
  assert (Hids : map Store.row_id l' = map Store.row_id l).
  { induction H as [|x x' k k' (Hx & _) H IH]; simpl;
      [reflexivity | now rewrite Hx, IH]. }
  rewrite Hids. intros [Hnd Hlt]. split; [exact Hnd|].
  induction H as [|r r' k k' (Hid & _) H IH]; [constructor|].
  apply List.Forall_cons_iff in Hlt. destruct Hlt as [Hr Hlt].
  simpl in Hnd, Hids. apply NoDup_cons in Hnd. destruct Hnd as [_ Hnd].
  injection Hids as _ Hids.
  constructor; [now rewrite Hid | now apply IH].
Qed.

(** Starting a row changes nothing for the other projects. *)
Lemma start_session_other_project db sid now p q :
  (forall r, In r (Store.sessions db) -> Store.row_id r = sid ->
             Store.row_project r = p) ->
  q <> p ->
  Store.running_count (Store.start_session db sid now) q
  = Store.running_count db q.
Proof.
  intros Hrows Hq. unfold Store.running_count.
  destruct (start_session_rows db sid now) as [_ H]. revert Hrows H.
  generalize (Store.sessions (Store.start_session db sid now)) as l'.
  generalize (Store.sessions db) as l. intros l l' Hrows H.
  induction H as [|r r' k k' (Hid & Hp & Hsame) H IH]; simpl; [reflexivity|].
  assert (Hrun : Store.is_running q r' = Store.is_running q r).
  { destruct (decide (Store.row_id r = sid)) as [Heq|Hne].
    - pose proof (Hrows r (or_introl eq_refl) Heq) as Hpr.
      unfold Store.is_running. rewrite Hp, Hpr.
      now rewrite (bool_decide_eq_false_2 (p = q)) by congruence.
    - now rewrite (Hsame Hne). }
  rewrite Hrun.
  assert (IH' : length (List.filter (Store.is_running q) k')
                = length (List.filter (Store.is_running q) k))
    by (apply IH; intros r0 Hin; apply Hrows; now right).
  destruct (Store.is_running q r); simpl; now rewrite IH'.
Qed.

(** Starting the row of a project none of whose sessions runs leaves it
    one running session at most. *)
Lemma start_session_own_project db sid now p :
  Store.well_formed db ->
  Store.running_count db p = 0%nat ->
  (Store.running_count (Store.start_session db sid now) p <= 1)%nat.
Proof.
  intros [Hnd _]. unfold Store.running_count.
  destruct (start_session_rows db sid now) as [_ H]. revert Hnd H.
  generalize (Store.sessions (Store.start_session db sid now)) as l'.
  generalize (Store.sessions db) as l. intros l l' Hnd H.
  induction H as [|r r' k k' (Hid & Hp & Hsame) H IH]; simpl; [lia|].
  simpl in Hnd. apply NoDup_cons in Hnd. destruct Hnd as [Hnin Hnd].
  destruct (Store.is_running p r) eqn:Hr; simpl; [discriminate|]. intros H0.
  specialize (IH Hnd H0).
  destruct (decide (Store.row_id r = sid)) as [Heq|Hne].
  - assert (Hrest : k' = k).
    { clear -H Hnin Heq. induction H as [|x x' k k' (_ & _ & Hx) H IH];
        [reflexivity|].
      rewrite IH
        by (intros Hin; apply Hnin; simpl; apply list_elem_of_further; exact Hin).
      rewrite Hx; [reflexivity|].
      intros Hx'. apply Hnin. simpl. rewrite Hx', <- Heq. apply list_elem_of_here. }
    rewrite Hrest. destruct (Store.is_running p r'); simpl; rewrite H0; lia.
  - rewrite (Hsame Hne), Hr. exact IH.
Qed.

Lemma no_active_session_running_count db p :
  Store.get_active_session db p = None -> Store.running_count db p = 0%nat.
Proof.
  unfold Store.get_active_session, Store.running_count.
  induction (Store.sessions db) as [|r l IH]; simpl; [reflexivity|].
  destruct (Store.is_running p r); [discriminate | exact IH].
Qed.

(** *** The phases of [start_session] and the session rows *)

Lemma handle_rows_ended o info e ex :
  Store.rows_ended (Orchestrator.db o)
    (Orchestrator.db (fst (Orchestrator.handle o info e ex))).
Proof.
  destruct ex; simpl; destruct (Orchestrator.handler_fault e); simpl;
    try (apply end_session_rows_ended; reflexivity); apply rows_ended_refl.
Qed.


Lemma rows_ended_same db db' :
  Store.next_id db' = Store.next_id db ->
  Store.sessions db' = Store.sessions db ->
  Store.rows_ended db db'.
Proof.
  intros Hn Hs. split; [exact Hn|]. rewrite Hs. apply rows_ended_refl.
Qed.

Lemma db_run_quality_check o sid e :
  Store.rows_ended (Orchestrator.db o)
    (Orchestrator.db (Orchestrator._run_quality_check o sid e)).
Proof.
  unfold Orchestrator._run_quality_check, Orchestrator._maybe_trigger_deep_review.
  destruct (negb _); simpl; [apply rows_ended_refl|].
  repeat match goal with
         | |- context [match ?b with Some _ => _ | None => _ end] => destruct b; simpl
         | |- context [if ?b then _ else _] => destruct b; simpl
         end;
    (apply rows_ended_same; reflexivity).
Qed.

Lemma db_run_test_coverage_analysis o pid e :
  Store.rows_ended (Orchestrator.db o)
    (Orchestrator.db (Orchestrator._run_test_coverage_analysis o pid e)).
Proof.
  unfold Orchestrator._run_test_coverage_analysis.
  destruct (Orchestrator.coverage_ok e); simpl;
    (apply rows_ended_same; reflexivity).
Qed.

Lemma after_end_session_rows_ended o info e (is_initializer is_error : bool) :
  Store.rows_ended (Orchestrator.db o)
    (Orchestrator.db
       (fst (Orchestrator.after_end_session o info e is_initializer is_error))).
Proof.
  unfold Orchestrator.after_end_session, Orchestrator.call_hook.
  pose proof (db_run_quality_check o (Orchestrator.session_id info) e) as Hq.
  pose proof (db_run_test_coverage_analysis o (Orchestrator.project_id info) e)
    as Hc.
  destruct is_initializer, is_error; simpl;
    repeat match goal with
           | |- context [Orchestrator.fault_at ?l e] =>
               destruct (Orchestrator.fault_at l e) as [?ex|]; simpl
           | |- context [is_Exception ?ex] => destruct (is_Exception ex); simpl
           end;
    try match goal with
        | |- context [Orchestrator.handle ?o1 ?i1 e ?ex1] =>
            eapply rows_ended_trans; [|apply (handle_rows_ended o1 i1 e ex1)]
        end;
    simpl; auto using rows_ended_refl.
Qed.

Lemma execute_rows_ended o info e :
  Store.rows_ended (Orchestrator.db o)
    (Orchestrator.db (fst (Orchestrator.execute o info e))).
Proof.
  unfold Orchestrator.execute.
  destruct (Orchestrator.fault_at _ e) as [ex|]; [apply handle_rows_ended|].
  set (o1 := Orchestrator.set_db o _).
  assert (H1 : Store.rows_ended (Orchestrator.db o) (Orchestrator.db o1))
    by (apply rows_ended_same; reflexivity).
  destruct (Orchestrator.fault_at _ e) as [ex|].
  { eapply rows_ended_trans; [exact H1 | apply handle_rows_ended]. }
  set (o2 := Orchestrator.set_db o1 _).
  assert (H2 : Store.rows_ended (Orchestrator.db o1) (Orchestrator.db o2)).
  { subst o2. simpl.
    destruct (bool_decide _); apply end_session_rows_ended; reflexivity. }
  eapply rows_ended_trans; [exact H1|].
  eapply rows_ended_trans; [exact H2|].
  apply after_end_session_rows_ended.
Qed.

(** [launch] either fails before the row is started, or starts the row;
    after that it only ends rows. *)
Lemma launch_db o info e :
  let db' := Orchestrator.db (fst (Orchestrator.launch o info e)) in
  Store.rows_ended (Orchestrator.db o) db'
  \/ Store.rows_ended
       (Store.start_session (Orchestrator.db o) (Orchestrator.session_id info)
          (Orchestrator.t_start e)) db'.
Proof.
  unfold Orchestrator.launch, Orchestrator.handled.
  destruct (Orchestrator.fault_at _ e) as [ex|].
  { left. pose proof (handle_rows_ended o info e ex) as H.
    destruct (Orchestrator.handle o info e ex). exact H. }
  right. cbv zeta.
  match goal with
  | |- context [match ?c with Some _ => _ | None => _ end] => destruct c as [ex|]
  end.
  - match goal with
    | |- context [Orchestrator.handle ?o2 ?i2 e ex] =>
        pose proof (handle_rows_ended o2 i2 e ex) as H;
        destruct (Orchestrator.handle o2 i2 e ex)
    end.
    exact H.
  - simpl. unfold Orchestrator.publish. simpl.
    destruct (Orchestrator.event_callback o); apply rows_ended_refl.
Qed.

(** [create] either leaves the store as it is, or inserts the row of the
    session. *)
Lemma create_db o a n e :
  let out := Orchestrator.create o a n e in
  (Orchestrator.db (fst out) = Orchestrator.db o /\ exists r, snd out = inl r)
  \/ exists row,
       Store.create_session (Orchestrator.db o) (Orchestrator.ad_project a) n
         (if Orchestrator.ad_is_initializer a then INITIALIZER else CODING)
         (Orchestrator.ad_model a)
       = Some (Orchestrator.db (fst out), row)
       /\ ((exists r, snd out = inl r)
           \/ exists info,
                snd out = inr info
                /\ Orchestrator.session_id info = Store.row_id row
                /\ Orchestrator.project_id info = Orchestrator.ad_project a).
Proof.
  unfold Orchestrator.create.
  destruct (Store.create_session _ _ _ _ _) as [[db' row]|]; [|left; simpl; eauto].
  right. exists row.
  destruct (Orchestrator.fault_at _ e); [simpl; eauto|].
  destruct (Orchestrator.fault_at _ e); simpl; [eauto|].
  split; [reflexivity|]. right. eauto.
Qed.

(** *** Calls that do not overlap *)

Lemma insert_middle {A : Type} (l1 l2 : list A) (x y : A) :
  <[length l1 := y]> (l1 ++ x :: l2) = l1 ++ y :: l2.
Proof. induction l1 as [|z l1 IH]; simpl; [reflexivity | now rewrite IH]. Qed.

(** In a serial world the other tasks work for other projects. *)
Lemma serial_others o l1 tk l2 p :
  Orchestrator.serial {| Orchestrator.orch := o; Orchestrator.tasks := l1 ++ tk :: l2 |} ->
  Orchestrator.in_flight tk = Some p ->
  Forall (fun tj => Orchestrator.in_flight tj <> Some p) (l1 ++ l2).
Proof.
  unfold Orchestrator.serial. simpl. rewrite omap_app. simpl. intros Hnd Hp.
  rewrite Hp in Hnd. apply NoDup_app in Hnd. destruct Hnd as (_ & Hdis & Hnd).
  apply NoDup_cons in Hnd. destruct Hnd as [Hnin _].
  apply Forall_app. split; apply List.Forall_forall; intros tj Hin Hj.
  - apply (Hdis p); [|apply list_elem_of_here].
    apply list_elem_of_omap. exists tj. split; [now apply list_elem_of_In | exact Hj].
  - apply Hnin. apply list_elem_of_omap. exists tj.
    split; [now apply list_elem_of_In | exact Hj].
Qed.

Lemma Forall_middle {A : Type} (P Q P' : A -> Prop) (l1 l2 : list A) (x y : A) :
  Forall P (l1 ++ x :: l2) -> Forall Q (l1 ++ l2) ->
  (forall z, P z -> Q z -> P' z) -> P' y ->
  Forall P' (l1 ++ y :: l2).
Proof.
  intros HP HQ Himp Hy.
  apply Forall_app in HP. destruct HP as [HP1 HP2].
  apply List.Forall_cons_iff in HP2. destruct HP2 as [_ HP2].
  apply Forall_app in HQ. destruct HQ as [HQ1 HQ2].
  apply Forall_app. split; [|constructor; [exact Hy|]].
  - clear -HP1 HQ1 Himp. induction l1; constructor;
      inversion HP1; inversion HQ1; subst; auto.
  - clear -HP2 HQ2 Himp. induction l2; constructor;
      inversion HP2; inversion HQ2; subst; auto.
Qed.

Lemma Forall_middle_same {A : Type} (P P' : A -> Prop) (l1 l2 : list A) (x y : A) :
  Forall P (l1 ++ x :: l2) -> (forall z, P z -> P' z) -> P' y ->
  Forall P' (l1 ++ y :: l2).
Proof.
  intros HP Himp Hy.
  apply (Forall_middle P (fun _ => True) P' l1 l2 x y); auto.
  apply List.Forall_forall. auto.
Qed.

Lemma Forall_at {A : Type} (P : A -> Prop) (l1 l2 : list A) (x : A) :
  Forall P (l1 ++ x :: l2) -> P x.
Proof.
  intros H. apply Forall_app in H. destruct H as [_ H]. now inversion H.
Qed.

(** One step of one task keeps the invariant, when the task steps in a
    serial world. *)
Lemma resume_ok w i :
  Orchestrator.world_ok w -> Orchestrator.serial w ->
  Orchestrator.world_ok (Orchestrator.resume w i).
Proof.
  intros (Hwf & Hone & Htasks) Hser. unfold Orchestrator.resume.
  destruct (nth_error (Orchestrator.tasks w) i) as [tk|] eqn:Hi;
    [|now split_and!].
  destruct (nth_error_split _ _ Hi) as (l1 & l2 & Hl & Hlen).
  destruct w as [o tasks]. simpl in *. subst tasks i.
  pose proof (Forall_at _ _ _ _ Htasks) as Htk.
  destruct tk as [pid im cm e|a e|a n e|info e|info e|r]; simpl.
  - (* the concurrency check *)
    destruct (Orchestrator.precheck o pid im cm) as [a|ex] eqn:Ha; simpl;
      rewrite insert_middle; split_and!; auto;
      apply (Forall_middle_same _ _ _ _ _ _ Htasks); auto; simpl.
    destruct (precheck_returned _ _ _ _ _ Ha) as (-> & Hact & _).
    now apply no_active_session_running_count.
  - (* the number *)
    rewrite insert_middle. split_and!; auto.
    apply (Forall_middle_same _ _ _ _ _ _ Htasks); auto.
  - (* the insert *)
    pose proof (create_db o a n e) as Hc.
    destruct (Orchestrator.create o a n e) as [o' out]. simpl in Hc.
    assert (Hgoal : forall tk',
              Orchestrator.task_ok (Orchestrator.db o') tk' ->
              (Orchestrator.db o' = Orchestrator.db o
               \/ exists row,
                    Store.create_session (Orchestrator.db o)
                      (Orchestrator.ad_project a) n
                      (if Orchestrator.ad_is_initializer a then INITIALIZER else CODING)
                      (Orchestrator.ad_model a)
                    = Some (Orchestrator.db o', row)) ->
              Orchestrator.world_ok
                {| Orchestrator.orch := o';
                   Orchestrator.tasks := <[length l1 := tk']> (l1 ++ Orchestrator.Numbered a n e :: l2) |}).
    { intros tk' Hok' [Heq|[row Hrow]]; rewrite insert_middle;
        unfold Orchestrator.world_ok; simpl.
      - rewrite Heq in *. split_and!; auto.
        apply (Forall_middle_same _ _ _ _ _ _ Htasks); auto.
      - split_and!.
        + eapply create_session_well_formed; eauto.
        + intros p. rewrite (create_session_running_count _ _ _ _ _ _ _ p Hrow).
          apply Hone.
        + apply (Forall_middle_same _ _ _ _ _ _ Htasks); auto.
          intros z. eapply create_session_task_ok; eauto. }
    destruct Hc as [[Heq [r ->]]|(row & Hrow & [[r ->]|(info & -> & Hsid & Hpid)])].
    + apply Hgoal; simpl; auto.
    + apply Hgoal; simpl; eauto.
    + apply Hgoal; [|eauto]. simpl.
      destruct (create_session_rows _ _ _ _ _ _ _ Hrow) as (Hs & Hn & Hid & Hp & _).
      rewrite Hpid, Hsid, Hid, Hn, Hs.
      rewrite (create_session_running_count _ _ _ _ _ _ _ _ Hrow).
      split; [exact Htk|]. split; [lia|].
      intros r0. rewrite in_app_iff. simpl. intros [Hin|[<-|[]]] Hr0; [|exact Hp].
      destruct Hwf as [_ Hlt]. rewrite List.Forall_forall in Hlt.
      specialize (Hlt r0 Hin). lia.
  - (* the launch *)
    pose proof (launch_db o info e) as Hl.
    destruct (Orchestrator.launch o info e) as [o' out]. simpl in Hl.
    destruct Htk as (H0 & Hlt & Hrows).
    pose proof (serial_others _ _ _ _ _ Hser eq_refl) as Hothers.
    assert (Hgoal : forall tk',
              Orchestrator.task_ok (Orchestrator.db o') tk' ->
              Orchestrator.world_ok
                {| Orchestrator.orch := o';
                   Orchestrator.tasks := <[length l1 := tk']> (l1 ++ Orchestrator.Created info e :: l2) |}).
    { intros tk' Hok'. rewrite insert_middle. unfold Orchestrator.world_ok. simpl.
      destruct Hl as [He|He].
      - split_and!.
        + eapply rows_ended_well_formed; eauto.
        + eapply rows_ended_at_most_one; eauto.
        + apply (Forall_middle_same _ _ _ _ _ _ Htasks); auto.
          intros z. now apply rows_ended_task_ok.
      - set (db1 := Store.start_session (Orchestrator.db o)
                      (Orchestrator.session_id info) (Orchestrator.t_start e)) in *.
        assert (Hq : forall q, q <> Orchestrator.project_id info ->
                       Store.running_count db1 q
                       = Store.running_count (Orchestrator.db o) q)
          by (intros q Hq; now apply start_session_other_project
                                   with (p := Orchestrator.project_id info)).
        split_and!.
        + eapply rows_ended_well_formed; [exact He|].
          now apply start_session_well_formed.
        + eapply rows_ended_at_most_one; [exact He|]. intros q.
          destruct (decide (q = Orchestrator.project_id info)) as [->|Hne].
          * now apply start_session_own_project.
          * rewrite (Hq q Hne). apply Hone.
        + apply (Forall_middle _ _ _ _ _ _ _ Htasks Hothers); [|exact Hok'].
          intros z Hz Hflight. apply (rows_ended_task_ok _ _ _ He).
          destruct (start_session_rows (Orchestrator.db o)
                      (Orchestrator.session_id info) (Orchestrator.t_start e))
            as [Hn Hf2].
          destruct z as [pid0 im cm e0|a e0|a n e0|info0 e0|info0 e0|r]; simpl in *;
            auto.
          * rewrite Hq; [exact Hz | congruence].
          * rewrite Hq; [exact Hz | congruence].
          * destruct Hz as (Hz0 & Hzlt & Hzrows).
            split; [rewrite Hq; [exact Hz0 | congruence]|].
            split; [exact Hzlt|].
            intros r1 Hin1 Hid1. fold db1 in Hf2.
            assert (Hex : exists r0, In r0 (Store.sessions (Orchestrator.db o))
                                     /\ Store.row_id r1 = Store.row_id r0
                                     /\ Store.row_project r1 = Store.row_project r0).
            { clear -Hf2 Hin1. revert Hin1.
              induction Hf2 as [|x x' k k' (Hx1 & Hx2 & _) Hf2 IH]; simpl;
                [intros []|].
              intros [<-|Hin]; [eauto|].
              destruct (IH Hin) as (r0 & Hr0 & Hr1). eauto. }
            destruct Hex as (r0 & Hr0 & Hid0 & Hp0).
            rewrite Hp0. apply Hzrows; [exact Hr0 | congruence]. }
    destruct out as [r|info']; apply Hgoal; exact I.
  - (* the run of the agent *)
    pose proof (execute_rows_ended o info e) as He.
    destruct (Orchestrator.execute o info e) as [o' r]. simpl in He.
    rewrite insert_middle. unfold Orchestrator.world_ok. simpl. split_and!.
    + eapply rows_ended_well_formed; eauto.
    + eapply rows_ended_at_most_one; eauto.
    + apply (Forall_middle_same _ _ _ _ _ _ Htasks); [|exact I].
      intros z. now apply rows_ended_task_ok.
  - rewrite insert_middle. now split_and!.
Qed.

Lemma worlds_ok sched :
  forall w,
    Orchestrator.world_ok w ->
    Forall Orchestrator.serial (Orchestrator.worlds_of sched w) ->
    Forall Orchestrator.world_ok (Orchestrator.worlds_of sched w).
Proof.
  induction sched as [|i sched IH]; intros w Hok Hser; simpl in *.
  - constructor; [exact Hok | constructor].
  - apply List.Forall_cons_iff in Hser. destruct Hser as [Hw Hser].
    constructor; [exact Hok|]. apply IH; [|exact Hser].
    now apply resume_ok.
Qed.

(** *** The concurrency check and the running sessions *)

Lemma string_app_assoc (a b c : string) : (a +:+ b) +:+ c = a +:+ b +:+ c.
Proof.
  induction a as [|x a IH]; [reflexivity|].
  change (String x ((a +:+ b) +:+ c) = String x (a +:+ b +:+ c)).
  now rewrite IH.
Qed.

Lemma busy_message_contains active :
  PyStr.contains (pretty (Store.row_number active))
    (Orchestrator.busy_message active)
  /\ PyStr.contains (Orchestrator.show_datetime (Store.row_started_at active))
       (Orchestrator.busy_message active).
Proof.
  unfold PyStr.contains, Orchestrator.busy_message. split.
  - eexists _, _. reflexivity.
  - exists ("Cannot start new session: Session "
            +:+ pretty (Store.row_number active)
            +:+ " is already running (started ").
    eexists. rewrite !string_app_assoc. reflexivity.
Qed.

Lemma get_active_session_running db pid active :
  Store.get_active_session db pid = Some active ->
  In active (Store.sessions db)
  /\ Store.row_project active = pid /\ Store.row_status active = RUNNING.
Proof.
  unfold Store.get_active_session. intros H. apply find_some in H.
  destruct H as [Hin Hr]. unfold Store.is_running in Hr.
  apply andb_true_iff in Hr. destruct Hr as [Hp Hs].
  apply bool_decide_eq_true_1 in Hp. apply bool_decide_eq_true_1 in Hs. auto.
Qed.

(** The concurrency check. [start_session] on a project for which the
    store reports an active session raises [ValueError] with a message
    that contains the number and the start time of the active session,
    and leaves the orchestrator and the store as they are: no session row
    is allocated. *)
Lemma busy_project_rejected (o : Orchestrator.t) (e : Orchestrator.session_env)
    (pid : uuid) (im cm : option string) (project : Store.project_row)
    (active : Store.session_row) :
  Store.get_project (Orchestrator.db o) pid = Some project ->
  Store.get_active_session (Orchestrator.db o) pid = Some active ->
  Orchestrator.start_session o e pid im cm
  = (o, Raised (ValueError (Orchestrator.busy_message active)))
  /\ Orchestrator.step o (Orchestrator.Calling pid im cm e)
     = (o, Orchestrator.Finished
             (Raised (ValueError (Orchestrator.busy_message active))))
  /\ Store.row_project active = pid
  /\ Store.row_status active = RUNNING
  /\ PyStr.contains (pretty (Store.row_number active))
       (Orchestrator.busy_message active)
  /\ PyStr.contains (Orchestrator.show_datetime (Store.row_started_at active))
       (Orchestrator.busy_message active).
Proof.
  intros Hp Ha.
  destruct (get_active_session_running _ _ _ Ha) as (_ & Hpid & Hst).
  destruct (busy_message_contains active) as [Hn Hd].
  unfold Orchestrator.start_session, Orchestrator.step, Orchestrator.precheck.
  rewrite Hp, Ha. split_and!; auto.
Qed.

(** Calls that do not overlap. From a world in which no call is in
    flight and at most one session per project runs, every world of a
    schedule whose worlds are all serial has at most one running session
    per project. *)
Lemma serial_calls_one_running (w : Orchestrator.world) (sched : list nat) :
  Store.well_formed (Orchestrator.db (Orchestrator.orch w)) ->
  Store.at_most_one_running (Orchestrator.db (Orchestrator.orch w)) ->
  Forall (fun tk => Orchestrator.in_flight tk = None) (Orchestrator.tasks w) ->
  Forall Orchestrator.serial (Orchestrator.worlds_of sched w) ->
  Forall (fun w' =>
            Store.at_most_one_running (Orchestrator.db (Orchestrator.orch w')))
    (Orchestrator.worlds_of sched w).
Proof.
  intros Hwf Hone Hidle Hser.
  assert (Hok : Orchestrator.world_ok w).
  { split_and!; auto. eapply List.Forall_impl; [|exact Hidle].
    intros tk Htk. destruct tk; simpl in *; auto; discriminate. }
  pose proof (worlds_ok sched w Hok Hser) as H.
  eapply List.Forall_impl; [|exact H]. intros w' Hw'. apply Hw'.
Qed.

(** ** The stop-after-current flag and the events of a session *)

(** [start_session] neither reads nor writes the flags, and the only
    event it publishes is [session_started]. *)

Lemma handle_frame o f info e ex :
  Orchestrator.handle (Orchestrator.set_flags o f) info e ex
  = (Orchestrator.set_flags (fst (Orchestrator.handle o info e ex)) f,
     snd (Orchestrator.handle o info e ex))
  /\ Orchestrator.stop_after_current (fst (Orchestrator.handle o info e ex))
     = Orchestrator.stop_after_current o
  /\ Orchestrator.published (fst (Orchestrator.handle o info e ex))
     = Orchestrator.published o.
Proof.
  destruct ex; simpl; destruct (Orchestrator.handler_fault e); repeat split.
Qed.

Lemma create_frame o f a n e :
  Orchestrator.create (Orchestrator.set_flags o f) a n e
  = (Orchestrator.set_flags (fst (Orchestrator.create o a n e)) f,
     snd (Orchestrator.create o a n e))
  /\ Orchestrator.stop_after_current (fst (Orchestrator.create o a n e))
     = Orchestrator.stop_after_current o
  /\ Orchestrator.published (fst (Orchestrator.create o a n e))
     = Orchestrator.published o.
Proof.
  unfold Orchestrator.create. simpl.
  destruct (Store.create_session _ _ _ _ _) as [[db' row]|]; [|repeat split].
  destruct (Orchestrator.fault_at _ e); [repeat split|].
  destruct (Orchestrator.fault_at _ e); repeat split.
Qed.

Lemma launch_frame o f info e :
  Orchestrator.launch (Orchestrator.set_flags o f) info e
  = (Orchestrator.set_flags (fst (Orchestrator.launch o info e)) f,
     snd (Orchestrator.launch o info e))
  /\ Orchestrator.stop_after_current (fst (Orchestrator.launch o info e))
     = Orchestrator.stop_after_current o
  /\ exists l,
       Orchestrator.published (fst (Orchestrator.launch o info e))
       = Orchestrator.published o ++ l
       /\ Orchestrator.only_started l.
Proof.
  unfold Orchestrator.launch, Orchestrator.publish.
  destruct (Orchestrator.fault_at _ e) as [ex|].
  - rewrite !handled_eq.
    destruct (handle_frame o f info e ex) as (H1 & H2 & H3).
    rewrite H1. simpl. split; [reflexivity|]. split; [exact H2|].
    exists []. rewrite app_nil_r. split; [exact H3 | constructor].
  - simpl. destruct (Orchestrator.event_callback o).
    + destruct (Orchestrator.fault_at _ e) as [ex|].
      * unfold Orchestrator.handled.
        destruct ex; simpl; destruct (Orchestrator.handler_fault e); simpl;
          (split; [reflexivity|]); (split; [reflexivity|]);
          exists []; simpl; rewrite app_nil_r; split; constructor.
      * split; [reflexivity|]. split; [reflexivity|]. eexists. simpl.
        split; [reflexivity|]. repeat constructor.
    + split; [reflexivity|]. split; [reflexivity|].
      exists []. simpl. rewrite app_nil_r. split; constructor.
Qed.

Lemma execute_frame o f info e :
  Orchestrator.execute (Orchestrator.set_flags o f) info e
  = (Orchestrator.set_flags (fst (Orchestrator.execute o info e)) f,
     snd (Orchestrator.execute o info e))
  /\ Orchestrator.stop_after_current (fst (Orchestrator.execute o info e))
     = Orchestrator.stop_after_current o
  /\ Orchestrator.published (fst (Orchestrator.execute o info e))
     = Orchestrator.published o.
Proof.
  unfold Orchestrator.execute.
  destruct (Orchestrator.fault_at _ e) as [ex|]; [apply handle_frame|].
  destruct (Orchestrator.fault_at _ e) as [ex|];
    [destruct ex; simpl; destruct (Orchestrator.handler_fault e); repeat split|].
  unfold Orchestrator.after_end_session, Orchestrator.call_hook,
    Orchestrator._run_quality_check, Orchestrator._run_test_coverage_analysis,
    Orchestrator._maybe_trigger_deep_review.
  destruct (bool_decide (Orchestrator.session_type info = INITIALIZER));
    destruct (bool_decide (Orchestrator.agent_status e = "error"));
    destruct (Orchestrator.jsonl_exists e);
    destruct (Orchestrator.coverage_ok e); simpl;
    repeat match goal with
           | |- context [Orchestrator.fault_at ?l e] =>
               destruct (Orchestrator.fault_at l e) as [[]|]; simpl
           | |- context [match ?b with Some _ => _ | None => _ end] => destruct b; simpl
           | |- context [if ?b then _ else _] => destruct b; simpl
           end;
    repeat split.
Qed.

Lemma start_session_frame o f e pid im cm :
  Orchestrator.start_session (Orchestrator.set_flags o f) e pid im cm
  = (Orchestrator.set_flags (fst (Orchestrator.start_session o e pid im cm)) f,
     snd (Orchestrator.start_session o e pid im cm))
  /\ Orchestrator.stop_after_current (fst (Orchestrator.start_session o e pid im cm))
     = Orchestrator.stop_after_current o
  /\ exists l,
       Orchestrator.published (fst (Orchestrator.start_session o e pid im cm))
       = Orchestrator.published o ++ l
       /\ Orchestrator.only_started l.
Proof.
  unfold Orchestrator.start_session.
  change (Orchestrator.precheck (Orchestrator.set_flags o f) pid im cm)
    with (Orchestrator.precheck o pid im cm).
  destruct (Orchestrator.precheck o pid im cm) as [a|ex].
  2:{ split; [reflexivity|]. split; [reflexivity|]. exists [].
      simpl. rewrite app_nil_r. split; constructor. }
  change (Orchestrator.db (Orchestrator.set_flags o f)) with (Orchestrator.db o).
  destruct (create_frame o f a
              (Store.get_next_session_number (Orchestrator.db o)
                 (Orchestrator.ad_project a)) e) as (Hc1 & Hc2 & Hc3).
  rewrite Hc1.
  destruct (Orchestrator.create o a _ e) as [o1 [r|info1]]; simpl in *.
  { split; [reflexivity|]. split; [exact Hc2|]. exists [].
    rewrite app_nil_r. split; [exact Hc3 | constructor]. }
  destruct (launch_frame o1 f info1 e) as (Hl1 & Hl2 & l & Hl3 & Hl4).
  rewrite Hl1.
  destruct (Orchestrator.launch o1 info1 e) as [o2 [r|info2]]; simpl in *.
  { split; [reflexivity|]. split; [congruence|]. exists l.
    split; [congruence | exact Hl4]. }
  destruct (execute_frame o2 f info2 e) as (He1 & He2 & He3).
  rewrite He1.
  destruct (Orchestrator.execute o2 info2 e) as [o3 r]; simpl in *.
  split; [reflexivity|]. split; [congruence|]. exists l.
  split; [congruence | exact Hl4].
Qed.

Lemma apply_stop_requests_set_flags o reqs :
  Orchestrator.apply_stop_requests o reqs
  = Orchestrator.set_flags o
      (fold_left (fun m r => <[fst r := snd r]> m) reqs
         (Orchestrator.stop_after_current o)).
Proof.
  revert o. induction reqs as [|r reqs IH]; intros o; simpl.
  - now destruct o.
  - unfold Orchestrator.apply_stop_requests in *. simpl. rewrite IH. reflexivity.
Qed.

(** The requests to stop after the current session leave the session as
    it is: with the requests made before the session starts, the session
    ends in the same state and returns the same result. *)
Lemma start_session_ignores_stop_requests o reqs e pid im cm o1 r :
  Orchestrator.start_session o e pid im cm = (o1, r) ->
  Orchestrator.start_session (Orchestrator.apply_stop_requests o reqs) e pid im cm
  = (Orchestrator.apply_stop_requests o1 reqs, r).
Proof.
  intros Hs. rewrite !apply_stop_requests_set_flags.
  destruct (start_session_frame o
              (fold_left (fun m r => <[fst r := snd r]> m) reqs
                 (Orchestrator.stop_after_current o)) e pid im cm)
    as (H1 & H2 & _).
  rewrite H1, Hs. simpl. rewrite Hs in H2. simpl in H2. now rewrite H2.
Qed.

Lemma no_stop_event_app l l' :
  Forall Orchestrator.no_stop_event l -> Orchestrator.only_started l' ->
  Forall Orchestrator.no_stop_event (l ++ l').
Proof.
  intros Hl Hl'. apply Forall_app. split; [exact Hl|].
  eapply List.Forall_impl; [|exact Hl']. intros ev Hev.
  unfold Orchestrator.no_stop_event. rewrite Hev. discriminate.
Qed.

Lemma no_stop_event_publish o pid ty :
  ty <> "auto_continue_stopped" ->
  Forall Orchestrator.no_stop_event (Orchestrator.published o) ->
  Forall Orchestrator.no_stop_event
    (Orchestrator.published (Orchestrator.publish o pid ty)).
Proof.
  intros Hty Ho. unfold Orchestrator.publish.
  destruct (Orchestrator.event_callback o); [|exact Ho].
  simpl. apply Forall_app. split; [exact Ho|]. constructor; [exact Hty | constructor].
Qed.

Lemma published_apply_stop_requests o reqs :
  Orchestrator.published (Orchestrator.apply_stop_requests o reqs)
  = Orchestrator.published o.
Proof. now rewrite apply_stop_requests_set_flags. Qed.

(** The coding loop of the orchestrator never publishes
    [auto_continue_stopped], however it ends. *)
Lemma coding_loop_never_publishes_stop envs :
  forall o pid model max iteration last,
    Forall Orchestrator.no_stop_event (Orchestrator.published o) ->
    Forall Orchestrator.no_stop_event
      (Orchestrator.published
         (fst (Orchestrator.coding_loop o pid model max envs iteration last))).
Proof.
  induction envs as [|e rest IH]; intros o pid model max iteration last Ho;
    cbn [Orchestrator.coding_loop].
  - destruct (Orchestrator.limit_reached max iteration); [exact Ho|].
    destruct (default false _); exact Ho.
  - destruct (Orchestrator.limit_reached max iteration); [exact Ho|].
    destruct (default false _); [exact Ho|].
    destruct (Orchestrator.all_epics_complete _).
    { simpl. apply no_stop_event_publish; [discriminate | exact Ho]. }
    set (o_it := if 1 <? iteration + 1
                 then Orchestrator.publish o pid "auto_continue_delay" else o).
    assert (Hit : Forall Orchestrator.no_stop_event (Orchestrator.published o_it)).
    { subst o_it. destruct (1 <? iteration + 1); [|exact Ho].
      apply no_stop_event_publish; [discriminate | exact Ho]. }
    destruct (start_session_frame o_it ∅ (Orchestrator.session e) pid None (Some model))
      as (_ & _ & l & Hl & Hl').
    destruct (Orchestrator.start_session o_it (Orchestrator.session e) pid None
                (Some model)) as [o1 [info|ex]]; simpl in Hl.
    + assert (H1 : Forall Orchestrator.no_stop_event
                     (Orchestrator.published
                        (Orchestrator.apply_stop_requests o1
                           (Orchestrator.stop_requests e)))).
      { rewrite published_apply_stop_requests, Hl.
        now apply no_stop_event_app. }
      destruct (Orchestrator.failed_or_interrupted _); [exact H1|].
      destruct (Orchestrator.project_done _).
      * simpl. apply no_stop_event_publish; [discriminate|]. exact H1.
      * apply IH. exact H1.
    + simpl. rewrite published_apply_stop_requests, Hl.
      now apply no_stop_event_app.
Qed.

(** ** Graceful stop *)

(** C5 (as the code has it). When a request to stop after the current
    session arrives while a session of the coding loop runs, the session
    ends as it would have ended without the request, and the loop starts
    no further session: it returns that session (or lets the exception of
    [start_session] through), and the session table is the one the
    session left. The loop reads the flag only at the top of an
    iteration, after the iteration bound: it clears the flag there,
    unless it has ended before for another reason ([start_session]
    raised, the session failed or was interrupted, the project is
    complete, or the bound is reached), in which case the flag stays
    set. The loop publishes nothing for the stop: the events are those of
    the session, followed by [project_complete] when the project is
    complete, and no [auto_continue_stopped] event is ever published by
    the loop; the wrapper of the endpoint then publishes
    [coding_sessions_complete], or [coding_sessions_error] with the
    message of the [Exception] the loop let through. *)
Theorem graceful_stop_after_current (o : Orchestrator.t) (pid : uuid)
    (model : string) (max_iterations : option Z) (e : Orchestrator.iter_env)
    (rest : list Orchestrator.iter_env) (iteration : Z)
    (last : option Orchestrator.SessionInfo)
    (o1 : Orchestrator.t) (r : result Orchestrator.SessionInfo) :
  let o_it :=
    if 1 <? iteration + 1
    then Orchestrator.publish o pid "auto_continue_delay" else o in
  let reqs := Orchestrator.stop_requests e in
  let done := Orchestrator.project_done (Orchestrator.post_progress e) in
  let bound := Orchestrator.limit_reached max_iterations (iteration + 1) in
  Orchestrator.limit_reached max_iterations iteration = false ->
  Orchestrator.should_stop_after_current o pid = false ->
  Orchestrator.all_epics_complete (Orchestrator.pre_progress e) = false ->
  Orchestrator.start_session o_it (Orchestrator.session e) pid None (Some model)
  = (o1, r) ->
  Orchestrator.should_stop_after_current
    (Orchestrator.apply_stop_requests o1 reqs) pid = true ->
  exists o',
    Orchestrator.coding_loop o pid model max_iterations (e :: rest) iteration last
    = (o', match r with
           | Returned info => Orchestrator.LoopReturned (Some info)
           | Raised ex => Orchestrator.LoopRaised ex
           end)
    /\ Orchestrator.start_session (Orchestrator.apply_stop_requests o_it reqs)
         (Orchestrator.session e) pid None (Some model)
       = (Orchestrator.apply_stop_requests o1 reqs, r)
    /\ Store.sessions (Orchestrator.db o') = Store.sessions (Orchestrator.db o1)
    /\ Orchestrator.should_stop_after_current o' pid
       = match r with
         | Returned info =>
             Orchestrator.failed_or_interrupted (Orchestrator.status info)
             || done || bound
         | Raised _ => true
         end
    /\ Orchestrator.published o'
       = Orchestrator.published
           match r with
           | Returned info =>
               if negb (Orchestrator.failed_or_interrupted
                          (Orchestrator.status info)) && done
               then Orchestrator.publish o1 pid "project_complete" else o1
           | Raised _ => o1
           end
    /\ (Forall Orchestrator.no_stop_event (Orchestrator.published o) ->
        Forall Orchestrator.no_stop_event (Orchestrator.published o'))
    /\ (forall o0 envs cm mx,
          Orchestrator.start_coding_sessions o0 envs pid cm mx
          = (o', match r with
                 | Returned info => Orchestrator.LoopReturned (Some info)
                 | Raised ex => Orchestrator.LoopRaised ex
                 end) ->
          Orchestrator.published (Api.run_coding o0 envs pid cm mx)
          = Orchestrator.published o'
            ++ match r with
               | Returned _ =>
                   [ {| Orchestrator.ev_project := pid;
                        Orchestrator.ev_type := "coding_sessions_complete";
                        Orchestrator.ev_reason := "" |} ]
               | Raised ex =>
                   if is_Exception ex
                   then [ {| Orchestrator.ev_project := pid;
                             Orchestrator.ev_type := "coding_sessions_error";
                             Orchestrator.ev_reason := str_exn ex |} ]
                   else []
               end).
Proof.
  intros o_it reqs done bound Hlim Hflag Hep Hs Hreq.
  pose proof (coding_loop_never_publishes_stop (e :: rest) o pid model
                max_iterations iteration last) as Hnever.
  assert (Hwrap : forall o' o0 envs cm mx,
            Orchestrator.start_coding_sessions o0 envs pid cm mx
            = (o', match r with
                   | Returned info => Orchestrator.LoopReturned (Some info)
                   | Raised ex => Orchestrator.LoopRaised ex
                   end) ->
            Orchestrator.published (Api.run_coding o0 envs pid cm mx)
            = Orchestrator.published o'
              ++ match r with
                 | Returned _ =>
                     [ {| Orchestrator.ev_project := pid;
                          Orchestrator.ev_type := "coding_sessions_complete";
                          Orchestrator.ev_reason := "" |} ]
                 | Raised ex =>
                     if is_Exception ex
                     then [ {| Orchestrator.ev_project := pid;
                               Orchestrator.ev_type := "coding_sessions_error";
                               Orchestrator.ev_reason := str_exn ex |} ]
                     else []
                 end).
  { intros o' o0 envs cm mx Hsc. unfold Api.run_coding. rewrite Hsc.
    destruct r as [info|ex]; [reflexivity|].
    destruct (is_Exception ex); [reflexivity | now rewrite app_nil_r]. }
  pose proof (start_session_ignores_stop_requests o_it reqs
                (Orchestrator.session e) pid None (Some model) o1 r Hs)
    as Hignore.
  cbn [Orchestrator.coding_loop] in *.
  unfold Orchestrator.should_stop_after_current in Hflag, Hreq |- *.
  rewrite Hlim, Hflag, Hep in *. fold o_it in Hnever |- *.
  rewrite Hs in *. fold reqs in Hnever |- *.
  destruct r as [info|ex].
  2:{ eexists. split; [reflexivity|]. split; [exact Hignore|].
      split; [simpl; now rewrite apply_stop_requests_set_flags|].
      split; [exact Hreq|].
      split; [simpl; now rewrite published_apply_stop_requests|].
      split; [exact Hnever | apply Hwrap]. }
  fold done in Hnever |- *.
  destruct (Orchestrator.failed_or_interrupted (Orchestrator.status info)).
  { eexists. split; [reflexivity|]. split; [exact Hignore|].
    split; [simpl; now rewrite apply_stop_requests_set_flags|].
    split; [exact Hreq|].
    split; [simpl; now rewrite published_apply_stop_requests|].
    split; [exact Hnever | apply Hwrap]. }
  destruct done.
  { eexists. split; [reflexivity|]. split; [exact Hignore|].
    rewrite apply_stop_requests_set_flags in Hreq |- *.
    unfold Orchestrator.publish. simpl.
    split; [now destruct (Orchestrator.event_callback o1)|].
    split; [now destruct (Orchestrator.event_callback o1)|].
    split; [now destruct (Orchestrator.event_callback o1)|].
    split; [|apply Hwrap].
    intros Ho. specialize (Hnever Ho). revert Hnever.
    rewrite apply_stop_requests_set_flags. unfold Orchestrator.publish. simpl.
    now destruct (Orchestrator.event_callback o1). }
  simpl orb. simpl andb. cbv iota. subst bound.
  destruct (Orchestrator.limit_reached max_iterations (iteration + 1)) eqn:Hlim'.
  { assert (Hloop :
      Orchestrator.coding_loop (Orchestrator.apply_stop_requests o1 reqs) pid
        model max_iterations rest (iteration + 1) (Some info)
      = (Orchestrator.apply_stop_requests o1 reqs,
         Orchestrator.LoopReturned (Some info))).
    { destruct rest; cbn [Orchestrator.coding_loop]; now rewrite Hlim'. }
    rewrite Hloop in *. eexists. split; [reflexivity|]. split; [exact Hignore|].
    split; [simpl; now rewrite apply_stop_requests_set_flags|].
    split; [exact Hreq|].
    split; [simpl; now rewrite published_apply_stop_requests|].
    split; [exact Hnever | apply Hwrap]. }
  assert (Hloop :
    Orchestrator.coding_loop (Orchestrator.apply_stop_requests o1 reqs) pid model
      max_iterations rest (iteration + 1) (Some info)
    = (Orchestrator.set_flags (Orchestrator.apply_stop_requests o1 reqs)
         (<[pid := false]>
            (Orchestrator.stop_after_current
               (Orchestrator.apply_stop_requests o1 reqs))),
       Orchestrator.LoopReturned (Some info))).
  { destruct rest; cbn [Orchestrator.coding_loop]; now rewrite Hlim', Hreq. }
  rewrite Hloop in *. eexists. split; [reflexivity|].
  split; [exact Hignore|].
  split; [simpl; now rewrite apply_stop_requests_set_flags|].
  split; [simpl; now rewrite lookup_insert_eq|].
  split; [simpl; now rewrite published_apply_stop_requests|].
  split; [exact Hnever | apply Hwrap].
Qed.

(** The theorem applies to the second coding session of project 1, during
    which a stop request arrives. *)
Lemma graceful_stop_after_current_witness :
  exists o',
    Orchestrator.coding_loop
      (fst (Orchestrator.start_session Scenario.o1 (Scenario.quiet 0) 1 None
              (Some "sonnet")))
      1 "sonnet" (Some 5)
      [Scenario.iteration_with [(1%N, true)]; Scenario.iteration_with []] 1 None
    = (o', Orchestrator.LoopReturned (Some
         {| Orchestrator.session_id := 102; Orchestrator.project_id := 1;
            Orchestrator.session_number := 2; Orchestrator.session_type := CODING;
            Orchestrator.model := "sonnet"; Orchestrator.status := COMPLETED;
            Orchestrator.started_at := Some 10; Orchestrator.ended_at := Some 20;
            Orchestrator.error_message := None |}))
    /\ Orchestrator.should_stop_after_current o' 1 = false
    /\ length (Store.sessions (Orchestrator.db o')) = 3%nat.
Proof.
  assert (H := graceful_stop_after_current
              (fst (Orchestrator.start_session Scenario.o1 (Scenario.quiet 0) 1 None
                      (Some "sonnet")))
              1 "sonnet" (Some 5) (Scenario.iteration_with [(1%N, true)])
              [Scenario.iteration_with []] 1 None
              (fst (Orchestrator.start_session
                      (Orchestrator.publish
                         (fst (Orchestrator.start_session Scenario.o1
                                 (Scenario.quiet 0) 1 None (Some "sonnet")))
                         1 "auto_continue_delay")
                      (Scenario.quiet 0) 1 None (Some "sonnet")))
              (Returned
                 {| Orchestrator.session_id := 102; Orchestrator.project_id := 1;
                    Orchestrator.session_number := 2;
                    Orchestrator.session_type := CODING;
                    Orchestrator.model := "sonnet"; Orchestrator.status := COMPLETED;
                    Orchestrator.started_at := Some 10;
                    Orchestrator.ended_at := Some 20;
                    Orchestrator.error_message := None |})).
  cbv zeta in H.
  destruct H as (o' & Hloop & _ & Hrows & Hflag & _);
    try (vm_compute; reflexivity).
  exists o'. split; [exact Hloop|]. split; [exact Hflag|].
  rewrite Hrows. vm_compute. reflexivity.
Defined.

(** C5 (as stated) fails: a coding loop started through the endpoint
    wrapper with [max_iterations = 5] receives a stop request during its
    second session; the session completes, no third session is created,
    the flag is cleared, and no [auto_continue_stopped] event is among the
    published events. *)
Lemma graceful_stop_publishes_no_stop_event :
  let envs :=
    [ Scenario.iteration_with []; Scenario.iteration_with [(1%N, true)];
      Scenario.iteration_with []; Scenario.iteration_with [] ] in
  let o' := Api.run_coding Scenario.o1 envs 1 None (Some 5) in
  map Store.row_status (Store.sessions (Orchestrator.db o'))
  = [COMPLETED; COMPLETED; COMPLETED]
  /\ Orchestrator.should_stop_after_current o' 1 = false
  /\ map Orchestrator.ev_type (Orchestrator.published o')
     = [ "session_started"; "session_started"; "auto_continue_delay";
         "session_started"; "coding_sessions_complete" ]
  /\ ~ In "auto_continue_stopped"
         (map Orchestrator.ev_type (Orchestrator.published o')).
Proof.
  vm_compute. split_and!; try reflexivity.
  intros H. repeat (destruct H as [H|H]; [discriminate H|]). exact H.
Qed.

(** A stop request that arrives during the last session the bound
    allows: the loop ends by the bound, the flag stays set, and the next
    coding loop of the project stops at once, without a session. *)
Example stop_request_during_last_session :
  let out :=
    Orchestrator.start_coding_sessions Scenario.o1
      [Scenario.iteration_with []; Scenario.iteration_with [(1%N, true)]] 1 None
      (Some 2) in
  let next :=
    Orchestrator.start_coding_sessions (fst out) [Scenario.iteration_with []] 1
      None (Some 2) in
  Orchestrator.should_stop_after_current (fst out) 1 = true
  /\ snd next = Orchestrator.LoopReturned None
  /\ Store.sessions (Orchestrator.db (fst next))
     = Store.sessions (Orchestrator.db (fst out)).
Proof. vm_compute. split_and!; reflexivity. Qed.

(** ** The iteration bound *)

(** C4, on each surface. [start_coding_sessions] treats 0 as [None], and
    [None] never stops a loop by the iteration count; [orchestrate_agent]
    and the auto-continue loop of the legacy endpoint treat 0 as a bound
    of zero sessions: they return before the first session where, with
    [None], they start one. *)
Theorem max_iterations_zero_by_surface :
  (forall iteration, Orchestrator.limit_reached None iteration = false)
  /\ (forall o envs pid cm,
        Orchestrator.start_coding_sessions o envs pid cm (Some 0)
        = Orchestrator.start_coding_sessions o envs pid cm None)
  /\ (forall o envs pid im cm,
        Orchestrator.orchestrate_agent o envs pid im cm (Some 0)
        = (o, Orchestrator.LoopReturned None))
  /\ (forall o envs pid im cm,
        Api.run_session o envs pid
          {| Api.ss_initializer_model := im; Api.ss_coding_model := cm;
             Api.ss_max_iterations := Some 0; Api.ss_auto_continue := true |}
        = Orchestrator.notify o pid "auto_continue_stopped" "max_iterations_reached")
  /\ (let out :=
        Orchestrator.orchestrate_agent Scenario.o0 [Scenario.quiet 2] 1
          (Some "opus") (Some "sonnet") None in
      map Store.row_status (Store.sessions (Orchestrator.db (fst out)))
      = [COMPLETED]
      /\ exists last, snd out = Orchestrator.LoopRunning (Some last))
  /\ (let o' :=
        Api.run_session Scenario.o0 [Scenario.quiet 2] 1
          {| Api.ss_initializer_model := None; Api.ss_coding_model := None;
             Api.ss_max_iterations := None; Api.ss_auto_continue := true |} in
      map Store.row_status (Store.sessions (Orchestrator.db o')) = [COMPLETED]).
Proof.
  split_and!.
  - reflexivity.
  - reflexivity.
  - intros o envs pid im cm. unfold Orchestrator.orchestrate_agent.
    destruct envs; reflexivity.
  - intros o envs pid im cm. unfold Api.run_session. simpl.
    destruct envs; reflexivity.
  - vm_compute. split; [reflexivity | eauto].
  - vm_compute. reflexivity.
Qed.

(** ** Concrete runs *)

(** The assertions of the trigger test of the repository
    ([tests/test_review_phase2.py], [test_trigger_logic]), in order. *)
Example trigger_test_no_sessions :
  Review.should_trigger_deep_review (Scenario.db_sessions 0 []) 1 1 8 = false.
Proof. reflexivity. Qed.

Example trigger_test_session_4 :
  Review.should_trigger_deep_review (Scenario.db_sessions 5 []) 1 4 8 = false.
Proof. reflexivity. Qed.

Example trigger_test_session_5 :
  Review.should_trigger_deep_review (Scenario.db_sessions 6 []) 1 5 8 = true.
Proof. reflexivity. Qed.

Example trigger_test_session_6_no_review_yet :
  Review.should_trigger_deep_review (Scenario.db_sessions 7 []) 1 6 8 = true.
Proof. reflexivity. Qed.

Example trigger_test_session_10 :
  Review.should_trigger_deep_review (Scenario.db_sessions 11 [5%nat]) 1 10 8 = true.
Proof. reflexivity. Qed.

Example trigger_test_session_11 :
  Review.should_trigger_deep_review (Scenario.db_sessions 12 [5%nat]) 1 11 8 = true.
Proof. reflexivity. Qed.

Example trigger_test_session_12_low_quality :
  Review.should_trigger_deep_review (Scenario.db_sessions 13 [5%nat]) 1 12 5 = true.
Proof. reflexivity. Qed.

(** With a deep review recorded for session 5, the sessions 6 to 9 of
    quality 8 trigger nothing. *)
Example trigger_cadence_6_to_9 :
  map (fun n => Review.should_trigger_deep_review
                  (Scenario.db_sessions 10 [5%nat]) 1 n 8) [6; 7; 8; 9]
  = [false; false; false; false].
Proof. reflexivity. Qed.

(** The trigger theorem applies to session 5 of project 1: its quick
    check spawns the deep review. *)
Lemma deep_review_trigger_policy_witness :
  Orchestrator.deep_review_spawned
    (Orchestrator.set_db Scenario.o0 (Scenario.db_sessions 6 []))
    105 (Scenario.quiet 0).
Proof.
  assert (Hnn : Forall (fun r => 0 <= Store.row_number r)
                  (Store.sessions (Scenario.db_sessions 6 []))).
  { repeat constructor; vm_compute; discriminate. }
  destruct (deep_review_trigger_policy
              (Orchestrator.set_db Scenario.o0 (Scenario.db_sessions 6 []))
              105 (Scenario.quiet 0) (Scenario.completed_row 5)
              eq_refl eq_refl Hnn) as (_ & _ & _ & H5).
  apply H5. reflexivity.
Defined.

(** The hook theorem applies to the initializer session of project 1:
    the only hook invoked is the test-coverage analysis. *)
Lemma post_session_hooks_witness :
  exists invoked,
    Orchestrator.hooks
      (fst (Orchestrator.start_session Scenario.o0 (Scenario.quiet 2) 1
              (Some "opus") None))
    = Orchestrator.hooks Scenario.o0 ++ invoked
    /\ In (Orchestrator.RunTestCoverage 1) invoked
    /\ ~ In (Orchestrator.RunQualityCheck
               (Store.next_id (Orchestrator.db Scenario.o0))) invoked.
Proof.
  assert (Ha : Orchestrator.precheck Scenario.o0 1 (Some "opus") None
               = Returned {| Orchestrator.ad_project := 1;
                             Orchestrator.ad_is_initializer := true;
                             Orchestrator.ad_model := "opus" |})
    by (vm_compute; reflexivity).
  pose proof (post_session_hooks Scenario.o0 (Scenario.quiet 2) 1 (Some "opus") None
                _ Ha) as H.
  cbv zeta in H. destruct H as (invoked & Hh & Hq & Hc & _).
  exists invoked. split; [exact Hh|]. split.
  - apply Hc. split; [reflexivity|]. split; [reflexivity | discriminate].
  - intros Hin. apply Hq in Hin. destruct Hin as [_ Hin]. discriminate Hin.
Defined.

(** C6 (as stated) fails. The second session of project 1 is a coding
    session; its agent run raises, the handler returns the session with
    the status [error], and no hook has been invoked: a session that is
    not an initializer session is returned without a quick quality check.
    The initializer session of the project, interrupted during the agent
    run, is returned with the status [interrupted], which is not [error],
    and without the test-coverage analysis. *)
Lemma returned_sessions_without_hooks :
  let coding :=
    Orchestrator.start_session Scenario.o1
      (Scenario.failing Orchestrator.AtRunAgent (Exception "connection lost"))
      1 None (Some "sonnet") in
  let initializer :=
    Orchestrator.start_session Scenario.o0
      (Scenario.failing Orchestrator.AtRunAgent KeyboardInterrupt)
      1 (Some "opus") None in
  (exists info,
     snd coding = Returned info
     /\ Orchestrator.session_type info = CODING
     /\ Orchestrator.status info = ERROR)
  /\ Orchestrator.hooks (fst coding) = Orchestrator.hooks Scenario.o1
  /\ Store.quality_checks (Orchestrator.db (fst coding)) = []
  /\ (exists info,
        snd initializer = Returned info
        /\ Orchestrator.session_type info = INITIALIZER
        /\ Orchestrator.status info = INTERRUPTED)
  /\ Orchestrator.hooks (fst initializer) = [].
Proof.
  vm_compute. split_and!; try reflexivity; eexists; split_and!; reflexivity.
Qed.

(** The theorem on guarded failures applies to the initializer session of
    project 1 when the agent run raises. *)
Lemma guarded_failures_are_returned_witness :
  exists info,
    snd (Orchestrator.start_session Scenario.o0
           (Scenario.failing Orchestrator.AtRunAgent (Exception "connection lost"))
           1 (Some "opus") None)
    = Returned info
    /\ Orchestrator.status info = ERROR
    /\ Orchestrator.error_message info = Some "connection lost".
Proof.
  assert (Ha : Orchestrator.precheck Scenario.o0 1 (Some "opus") None
               = Returned {| Orchestrator.ad_project := 1;
                             Orchestrator.ad_is_initializer := true;
                             Orchestrator.ad_model := "opus" |})
    by (vm_compute; reflexivity).
  assert (Hg : In Orchestrator.AtRunAgent Orchestrator.guarded)
    by (simpl; tauto).
  assert (Hb : In Orchestrator.AtRunAgent Orchestrator.before_hooks)
    by (simpl; tauto).
  pose proof (guarded_failures_are_returned Scenario.o0
                (Scenario.failing Orchestrator.AtRunAgent (Exception "connection lost"))
                1 (Some "opus") None _ Orchestrator.AtRunAgent
                (Exception "connection lost") Ha eq_refl Hg eq_refl
                (or_intror eq_refl)) as H.
  cbv zeta in H. destruct H as (_ & _ & H).
  destruct (H (or_intror eq_refl)) as (info & Hs & _ & Hrec & _).
  destruct (Hrec Hb) as (Hst & Hmsg & _).
  exists info. split; [exact Hs|]. split; [exact Hst|].
  apply Hmsg. reflexivity.
Defined.

(** An [Exception] inside the quick quality check of the second session
    of project 1 stays in the hook: the session is returned [completed].
    A [KeyboardInterrupt] there reaches the handler: the session is
    returned [interrupted] while its row stays [completed]. *)
Example failures_inside_the_quality_check :
  let swallowed :=
    Orchestrator.start_session Scenario.o1
      (Scenario.failing Orchestrator.AtQualityCheck (Exception "no metrics"))
      1 None (Some "sonnet") in
  let interrupted :=
    Orchestrator.start_session Scenario.o1
      (Scenario.failing Orchestrator.AtQualityCheck KeyboardInterrupt)
      1 None (Some "sonnet") in
  (exists info,
     snd swallowed = Returned info /\ Orchestrator.status info = COMPLETED)
  /\ (exists info,
        snd interrupted = Returned info
        /\ Orchestrator.status info = INTERRUPTED)
  /\ map Store.row_status (Store.sessions (Orchestrator.db (fst interrupted)))
     = [COMPLETED; COMPLETED].
Proof.
  vm_compute. split_and!; try reflexivity; eexists; split_and!; reflexivity.
Qed.

(** C9 (as stated) fails: the construction of the sandbox comes after the
    insert of the session row and before the guarded block; when it
    raises, [start_session] raises to its caller, the row stays [pending]
    and the session manager stays registered. *)
Lemma sandbox_construction_failure_propagates :
  let out :=
    Orchestrator.start_session Scenario.o0
      (Scenario.failing Orchestrator.AtCreateSandbox
         (ValueError "Unknown sandbox type: k8s"))
      1 (Some "opus") None in
  Store.sessions (Orchestrator.db Scenario.o0) = []
  /\ snd out = Raised (ValueError "Unknown sandbox type: k8s")
  /\ map (fun r => (Store.row_id r, Store.row_number r, Store.row_status r))
       (Store.sessions (Orchestrator.db (fst out)))
     = [(100%N, 0, PENDING)]
  /\ Orchestrator.interrupted
       <$> (Orchestrator.session_managers (fst out) !! 100%N) = Some false.
Proof. vm_compute. split_and!; reflexivity. Qed.

(** [stop_session] on a session that runs in the store but is owned by
    another process: [False], and the row stays [running]. *)
Example stop_session_foreign :
  Orchestrator.stop_session Scenario.o_foreign 50 "User requested stop" 99
  = (Scenario.o_foreign, false)
  /\ map Store.row_status (Store.sessions (Orchestrator.db Scenario.o_foreign))
     = [RUNNING].
Proof. split; reflexivity. Qed.

(** The five recommendations of [mixed_reviews]: [error_handling] and
    [testing] are mentioned twice and get one proposal each; [general] and
    [git_commits] are mentioned once and get none. *)
Example buckets_of_mixed_reviews :
  let agg := Analyzer._aggregate_recommendations PyStr.ascii_lower Scenario.mixed_reviews in
  map (fun e => (fst e, Analyzer.recommendations (snd e))) agg
  = [ ("error_handling", ["Fix the retry logic"; "Handle errors FIRST"]);
      ("testing", ["Add unit tests for the API"; "Write Tests before the commit"]);
      ("general", ["Be kind"]);
      ("git_commits", ["Write Tests before the commit"]) ]
  /\ map (fun e => Analyzer.frequency (snd e)) agg = [2; 2; 1; 1]
  /\ map Analyzer.proposal_theme
       (Analyzer.emitted
          (Analyzer._generate_proposals_from_deep_reviews Scenario.no_claude
             Scenario.one_decimal "" "docker" agg))
     = ["error_handling"; "testing"].
Proof. vm_compute. split_and!; reflexivity. Qed.

(** A call for project 1 while session 7 runs is rejected, and two calls
    for project 1 of which the second passes its check after the first has
    launched its session leave one running session at every step. *)
Example calls_one_after_the_other :
  Orchestrator.start_session Scenario.o_foreign (Scenario.quiet 0) 1 None
    (Some "sonnet")
  = (Scenario.o_foreign,
     Raised (ValueError
       "Cannot start new session: Session 7 is already running (started 1234). Wait for it to complete or stop it first."))
  /\ Forall (fun w' =>
               Store.at_most_one_running (Orchestrator.db (Orchestrator.orch w')))
       (Orchestrator.worlds_of [0; 0; 0; 0; 1; 0; 1]%nat Scenario.two_calls).
Proof.
  split.
  - vm_compute. reflexivity.
  - apply serial_calls_one_running.
    + split; constructor.
    + intros p. vm_compute. lia.
    + repeat constructor.
    + unfold Orchestrator.serial.
      match goal with
      | |- ?G => exact (bool_decide_unpack G ltac:(vm_compute; exact I))
      end.
Qed.

(** C1. The concurrency check of [start_session] does not keep the
    running sessions of a project at one. The check looks for a row that
    is [running], and a call moves its row to [running] only inside the
    guarded block, several suspension points after its own check; until
    then the row is [pending]. Two calls of [start_session] for project 1
    that overlap (a double click) each pass the check before the other
    has moved its row to [running]; they get the session numbers 0 and 1,
    so the unique constraint on the number does not reject the second
    either, and both rows are [running] at once. *)
Theorem overlapping_calls_both_running :
  let w := Orchestrator.run_schedule [0; 1; 0; 0; 1; 1; 0; 1]%nat Scenario.two_calls in
  Store.well_formed (Orchestrator.db (Orchestrator.orch Scenario.two_calls))
  /\ Store.sessions (Orchestrator.db (Orchestrator.orch Scenario.two_calls)) = []
  /\ map (fun r => (Store.row_project r, Store.row_number r, Store.row_status r))
       (Store.sessions (Orchestrator.db (Orchestrator.orch w)))
     = [(1%N, 0, RUNNING); (1%N, 1, RUNNING)]
  /\ map Orchestrator.in_flight (Orchestrator.tasks w) = [Some 1%N; Some 1%N]
  /\ Store.running_count (Orchestrator.db (Orchestrator.orch w)) 1 = 2%nat
  /\ ~ Store.at_most_one_running (Orchestrator.db (Orchestrator.orch w)).
Proof.
  split; [split; constructor|].
  split; [reflexivity|]. split; [vm_compute; reflexivity|].
  split; [vm_compute; reflexivity|]. split; [vm_compute; reflexivity|].
  intros H. specialize (H 1%N). vm_compute in H. lia.
Qed.

(** Two calls for project 1 one after the other in one event loop: the
    second is rejected while the session of the first runs. *)
Example second_call_rejected :
  map (fun tk => match tk with
                 | Orchestrator.Finished (Raised ex) => str_exn ex
                 | _ => ""
                 end)
    (Orchestrator.tasks
       (Orchestrator.run_schedule [0; 0; 0; 0; 1]%nat Scenario.two_calls))
  = [ "";
      "Cannot start new session: Session 0 is already running (started 10). Wait for it to complete or stop it first." ].
Proof. vm_compute. reflexivity. Qed.

(** * Further properties of the code *)

(** ** [start_session]: what a call that returns leaves behind *)

Lemma handle_returned o info e ex o' info' :
  Orchestrator.handle o info e ex = (o', Returned info') ->
  Store.is_terminal (Orchestrator.status info') = true
  /\ Orchestrator.ended_at info' = Some (Orchestrator.t_end e)
  /\ Orchestrator.project_id info' = Orchestrator.project_id info
  /\ Orchestrator.session_id info' = Orchestrator.session_id info
  /\ Orchestrator.session_managers o'
     = delete (Orchestrator.session_id info) (Orchestrator.session_managers o).
Proof.
  unfold Orchestrator.handle.
  destruct ex; destruct (Orchestrator.handler_fault e); intros [= <- <-];
    simpl; auto.
Qed.

Lemma handle_managers o info e ex :
  Orchestrator.session_managers (fst (Orchestrator.handle o info e ex))
  = delete (Orchestrator.session_id info) (Orchestrator.session_managers o).
Proof. apply handle_leaves. Qed.

Lemma managers_run_quality_check o sid e :
  Orchestrator.session_managers (Orchestrator._run_quality_check o sid e)
  = Orchestrator.session_managers o.
Proof.
  unfold Orchestrator._run_quality_check, Orchestrator._maybe_trigger_deep_review.
  destruct (negb _); simpl; [reflexivity|].
  repeat match goal with
         | |- context [match ?b with Some _ => _ | None => _ end] => destruct b; simpl
         | |- context [if ?b then _ else _] => destruct b; simpl
         end; reflexivity.
Qed.

Lemma managers_run_test_coverage_analysis o pid e :
  Orchestrator.session_managers (Orchestrator._run_test_coverage_analysis o pid e)
  = Orchestrator.session_managers o.
Proof.
  unfold Orchestrator._run_test_coverage_analysis.
  now destruct (Orchestrator.coverage_ok e).
Qed.

Lemma after_end_session_returned o info e (is_initializer is_error : bool)
    o' info' :
  Orchestrator.after_end_session o info e is_initializer is_error
  = (o', Returned info') ->
  Store.is_terminal (Orchestrator.status info) = true ->
  Orchestrator.ended_at info = Some (Orchestrator.t_end e) ->
  Store.is_terminal (Orchestrator.status info') = true
  /\ Orchestrator.ended_at info' = Some (Orchestrator.t_end e)
  /\ Orchestrator.project_id info' = Orchestrator.project_id info
  /\ Orchestrator.session_id info' = Orchestrator.session_id info
  /\ Orchestrator.session_managers o'
     = delete (Orchestrator.session_id info) (Orchestrator.session_managers o).
Proof.
  intros Heq Ht He.
  destruct (after_end_session_leaves o info e is_initializer is_error)
    as (_ & _ & Hm).
  rewrite Heq in Hm. simpl in Hm.
  enough (H : Store.is_terminal (Orchestrator.status info') = true
              /\ Orchestrator.ended_at info' = Some (Orchestrator.t_end e)
              /\ Orchestrator.project_id info' = Orchestrator.project_id info
              /\ Orchestrator.session_id info' = Orchestrator.session_id info)
    by (destruct H as (H1 & H2 & H3 & H4); auto).
  revert Heq. unfold Orchestrator.after_end_session, Orchestrator.call_hook.
  destruct is_initializer, is_error; simpl;
    repeat match goal with
           | |- context [Orchestrator.fault_at ?l e] =>
               destruct (Orchestrator.fault_at l e) as [?ex|]; simpl
           | |- context [is_Exception ?ex] => destruct (is_Exception ex); simpl
           end;
    try (intros [= <- <-]; auto);
    intros H; apply handle_returned in H;
    destruct H as (H1 & H2 & H3 & H4 & _); auto.
Qed.

Lemma execute_returned o info e o' info' :
  Orchestrator.execute o info e = (o', Returned info') ->
  Store.is_terminal (Orchestrator.status info') = true
  /\ Orchestrator.ended_at info' = Some (Orchestrator.t_end e)
  /\ Orchestrator.project_id info' = Orchestrator.project_id info
  /\ Orchestrator.session_id info' = Orchestrator.session_id info
  /\ Orchestrator.session_managers o'
     = delete (Orchestrator.session_id info) (Orchestrator.session_managers o).
Proof.
  unfold Orchestrator.execute.
  destruct (Orchestrator.fault_at _ e) as [ex|]; [apply handle_returned|].
  destruct (Orchestrator.fault_at _ e) as [ex|].
  - intros H. apply handle_returned in H.
    destruct (bool_decide (Orchestrator.agent_status e = "error")); exact H.
  - intros H. apply after_end_session_returned in H.
    + destruct (bool_decide (Orchestrator.agent_status e = "error")); exact H.
    + now destruct (bool_decide (Orchestrator.agent_status e = "error")).
    + reflexivity.
Qed.

Lemma launch_outcome o info e o' out :
  Orchestrator.launch o info e = (o', out) ->
  (forall sid, sid <> Orchestrator.session_id info ->
     Orchestrator.session_managers o' !! sid = Orchestrator.session_managers o !! sid)
  /\ match out with
     | inl (Returned info') =>
         Store.is_terminal (Orchestrator.status info') = true
         /\ Orchestrator.ended_at info' = Some (Orchestrator.t_end e)
         /\ Orchestrator.project_id info' = Orchestrator.project_id info
         /\ Orchestrator.session_id info' = Orchestrator.session_id info
         /\ Orchestrator.session_managers o' !! Orchestrator.session_id info = None
     | inl (Raised _) => True
     | inr info' =>
         Orchestrator.project_id info' = Orchestrator.project_id info
         /\ Orchestrator.session_id info' = Orchestrator.session_id info
     end.
Proof.
  unfold Orchestrator.launch, Orchestrator.handled.
  destruct (Orchestrator.fault_at _ e) as [ex|].
  { destruct (Orchestrator.handle o info e ex) as [o1 r] eqn:Hh.
    intros [= <- <-]. pose proof (handle_managers o info e ex) as Hm.
    rewrite Hh in Hm. simpl in Hm. split.
    - intros sid Hne. rewrite Hm. now apply lookup_delete_ne.
    - destruct r as [info'|ex']; [|exact I].
      destruct (handle_returned _ _ _ _ _ _ Hh) as (H1 & H2 & H3 & H4 & H5).
      split_and!; auto. rewrite H5. apply lookup_delete_eq. }
  cbv zeta.
  match goal with
  | |- context [match ?c with Some _ => _ | None => _ end] => destruct c as [ex|]
  end.
  - match goal with
    | |- context [Orchestrator.handle ?o2 ?i2 e ex] =>
        destruct (Orchestrator.handle o2 i2 e ex) as [o1 r] eqn:Hh;
        pose proof (handle_managers o2 i2 e ex) as Hm
    end.
    intros [= <- <-]. rewrite Hh in Hm. simpl in Hm. split.
    + intros sid Hne. rewrite Hm, lookup_delete_ne by congruence.
      now apply lookup_alter_ne.
    + destruct r as [info'|ex']; [|exact I].
      destruct (handle_returned _ _ _ _ _ _ Hh) as (H1 & H2 & H3 & H4 & H5).
      simpl in *. split_and!; auto. rewrite H5. apply lookup_delete_eq.
  - intros [= <- <-]. split; [|split; reflexivity].
    intros sid Hne. unfold Orchestrator.publish. simpl.
    destruct (Orchestrator.event_callback o); simpl; now apply lookup_alter_ne.
Qed.

Lemma create_outcome o a n e o' out :
  Orchestrator.create o a n e = (o', out) ->
  (forall sid, sid <> Store.next_id (Orchestrator.db o) ->
     Orchestrator.session_managers o' !! sid = Orchestrator.session_managers o !! sid)
  /\ match out with
     | inl (Returned _) => False
     | inl (Raised _) => True
     | inr info =>
         Orchestrator.project_id info = Orchestrator.ad_project a
         /\ Orchestrator.session_id info = Store.next_id (Orchestrator.db o)
     end.
Proof.
  unfold Orchestrator.create, Store.create_session.
  destruct (Store.number_taken _ _ _); [intros [= <- <-]; auto|].
  destruct (Orchestrator.fault_at _ e); [intros [= <- <-]; auto|].
  destruct (Orchestrator.fault_at _ e); intros [= <- <-]; simpl;
    (split; [intros sid Hne; now apply lookup_insert_ne | auto]).
Qed.

(** X1. Whatever happens during the session, a call of [start_session]
    that returns hands back a session that is over: its status is
    [completed], [error] or [interrupted], its end time is set, its
    session manager is no longer registered, and the managers of all the
    other sessions are as they were. *)
Theorem start_session_returns_finished (o : Orchestrator.t)
    (e : Orchestrator.session_env) (pid : uuid) (im cm : option string)
    (o' : Orchestrator.t) (info : Orchestrator.SessionInfo) :
  Orchestrator.start_session o e pid im cm = (o', Returned info) ->
  (Orchestrator.status info = COMPLETED \/ Orchestrator.status info = ERROR
   \/ Orchestrator.status info = INTERRUPTED)
  /\ Orchestrator.ended_at info = Some (Orchestrator.t_end e)
  /\ Orchestrator.project_id info = pid
  /\ Orchestrator.session_managers o' !! Orchestrator.session_id info = None
  /\ (forall sid, sid <> Orchestrator.session_id info ->
        Orchestrator.session_managers o' !! sid
        = Orchestrator.session_managers o !! sid).
Proof.
  assert (Hterm : forall s, Store.is_terminal s = true ->
                    s = COMPLETED \/ s = ERROR \/ s = INTERRUPTED)
    by (intros []; simpl; auto; discriminate).
  unfold Orchestrator.start_session.
  destruct (Orchestrator.precheck o pid im cm) as [a|ex] eqn:Ha; [|discriminate].
  destruct (precheck_returned _ _ _ _ _ Ha) as (Hpa & _).
  destruct (Orchestrator.create o a _ e) as [o1 out1] eqn:Hc.
  destruct (create_outcome _ _ _ _ _ _ Hc) as [Hm1 Hout1].
  destruct out1 as [r1|info1].
  { intros [= <- ->]. destruct Hout1. }
  destruct Hout1 as [Hp1 Hs1].
  destruct (Orchestrator.launch o1 info1 e) as [o2 out2] eqn:Hl.
  destruct (launch_outcome _ _ _ _ _ Hl) as [Hm2 Hout2].
  destruct out2 as [r2|info2].
  { intros [= <- ->]. destruct Hout2 as (H1 & H2 & H3 & H4 & H5).
    rewrite H3, H4, Hp1, Hs1, Hpa. split_and!; auto.
    - rewrite <- Hs1. exact H5.
    - intros sid Hne. rewrite Hm2 by congruence. now apply Hm1. }
  destruct Hout2 as [Hp2 Hs2]. intros He.
  destruct (execute_returned _ _ _ _ _ He) as (H1 & H2 & H3 & H4 & H5).
  rewrite H3, H4, Hp2, Hs2, Hp1, Hs1, Hpa. split_and!; auto.
  - rewrite H5, Hs2, Hs1. apply lookup_delete_eq.
  - intros sid Hne. rewrite H5, lookup_delete_ne by congruence.
    rewrite Hm2 by congruence. now apply Hm1.
Qed.

(** The theorem applies to the initializer session of project 1 when the
    agent run raises. *)
Lemma start_session_returns_finished_witness :
  Orchestrator.session_managers
    (fst (Orchestrator.start_session Scenario.o0
            (Scenario.failing Orchestrator.AtRunAgent (Exception "connection lost"))
            1 (Some "opus") None)) !! 100%N = None.
Proof.
  destruct (start_session_returns_finished Scenario.o0
              (Scenario.failing Orchestrator.AtRunAgent (Exception "connection lost"))
              1 (Some "opus") None
              (fst (Orchestrator.start_session Scenario.o0
                      (Scenario.failing Orchestrator.AtRunAgent
                         (Exception "connection lost"))
                      1 (Some "opus") None))
              {| Orchestrator.session_id := 100; Orchestrator.project_id := 1;
                 Orchestrator.session_number := 0;
                 Orchestrator.session_type := INITIALIZER;
                 Orchestrator.model := "opus"; Orchestrator.status := ERROR;
                 Orchestrator.started_at := Some 10;
                 Orchestrator.ended_at := Some 20;
                 Orchestrator.error_message := Some "connection lost" |})
    as (_ & _ & _ & H & _).
  - vm_compute. reflexivity.
  - exact H.
Defined.

(** ** The status of the session [start_session] returns *)

Lemma start_session_returns_status o e pid im cm o' info :
  Orchestrator.start_session o e pid im cm = (o', Returned info) ->
  Orchestrator.status info = COMPLETED \/ Orchestrator.status info = ERROR
  \/ Orchestrator.status info = INTERRUPTED.
Proof.
  assert (Hterm : forall s, Store.is_terminal s = true ->
                    s = COMPLETED \/ s = ERROR \/ s = INTERRUPTED)
    by (intros []; simpl; auto; discriminate).
  unfold Orchestrator.start_session.
  destruct (Orchestrator.precheck o pid im cm) as [a|ex]; [|discriminate].
  destruct (Orchestrator.create o a _ e) as [o1 [r1|info1]] eqn:Hc.
  { pose proof (create_outcome _ _ _ _ _ _ Hc) as [_ Hout].
    intros [= <- ->]. destruct Hout. }
  destruct (Orchestrator.launch o1 info1 e) as [o2 [r2|info2]] eqn:Hl.
  { pose proof (launch_outcome _ _ _ _ _ Hl) as [_ Hout].
    intros [= <- ->]. apply Hterm. apply Hout. }
  intros He. apply Hterm. now apply execute_returned in He.
Qed.

(** ** The session [start_session] returns: its type and its model *)

Lemma handle_info o info e ex o' info' :
  Orchestrator.handle o info e ex = (o', Returned info') ->
  Orchestrator.session_type info' = Orchestrator.session_type info
  /\ Orchestrator.model info' = Orchestrator.model info.
Proof.
  unfold Orchestrator.handle.
  destruct ex; destruct (Orchestrator.handler_fault e); intros [= <- <-]; auto.
Qed.

Lemma after_end_session_info o info e (is_initializer is_error : bool) o' info' :
  Orchestrator.after_end_session o info e is_initializer is_error
  = (o', Returned info') ->
  Orchestrator.session_type info' = Orchestrator.session_type info
  /\ Orchestrator.model info' = Orchestrator.model info.
Proof.
  unfold Orchestrator.after_end_session, Orchestrator.call_hook.
  destruct is_initializer, is_error; simpl;
    repeat match goal with
           | |- context [Orchestrator.fault_at ?l e] =>
               destruct (Orchestrator.fault_at l e) as [?ex|]; simpl
           | |- context [is_Exception ?ex] => destruct (is_Exception ex); simpl
           end;
    try (intros [= <- <-]; auto);
    apply handle_info.
Qed.

Lemma execute_info o info e o' info' :
  Orchestrator.execute o info e = (o', Returned info') ->
  Orchestrator.session_type info' = Orchestrator.session_type info
  /\ Orchestrator.model info' = Orchestrator.model info.
Proof.
  unfold Orchestrator.execute.
  destruct (Orchestrator.fault_at _ e) as [ex|]; [apply handle_info|].
  destruct (Orchestrator.fault_at _ e) as [ex|].
  - intros H. apply handle_info in H.
    destruct (bool_decide (Orchestrator.agent_status e = "error")); exact H.
  - intros H. apply after_end_session_info in H.
    destruct (bool_decide (Orchestrator.agent_status e = "error")); exact H.
Qed.

Lemma launch_info o info e o' out :
  Orchestrator.launch o info e = (o', out) ->
  match out with
  | inl (Returned info') | inr info' =>
      Orchestrator.session_type info' = Orchestrator.session_type info
      /\ Orchestrator.model info' = Orchestrator.model info
  | inl (Raised _) => True
  end.
Proof.
  unfold Orchestrator.launch, Orchestrator.handled.
  destruct (Orchestrator.fault_at _ e) as [ex|].
  { destruct (Orchestrator.handle o info e ex) as [o1 r] eqn:Hh.
    intros [= <- <-]. destruct r; [|exact I]. now apply handle_info in Hh. }
  cbv zeta.
  match goal with
  | |- context [match ?c with Some _ => _ | None => _ end] => destruct c as [ex|]
  end.
  - match goal with
    | |- context [Orchestrator.handle ?o2 ?i2 e ex] =>
        destruct (Orchestrator.handle o2 i2 e ex) as [o1 r] eqn:Hh
    end.
    intros [= <- <-]. destruct r; [|exact I]. now apply handle_info in Hh.
  - intros [= <- <-]. auto.
Qed.

Lemma create_info o a n e o' info :
  Orchestrator.create o a n e = (o', inr info) ->
  Orchestrator.session_type info
  = (if Orchestrator.ad_is_initializer a then INITIALIZER else CODING)
  /\ Orchestrator.model info = Orchestrator.ad_model a.
Proof.
  unfold Orchestrator.create.
  destruct (Store.create_session _ _ _ _ _) as [[db' row]|]; [|discriminate].
  destruct (Orchestrator.fault_at _ e); [discriminate|].
  destruct (Orchestrator.fault_at _ e); [discriminate|].
  intros [= <- <-]. auto.
Qed.

Lemma precheck_model o pid im cm a :
  Orchestrator.precheck o pid im cm = Returned a ->
  Orchestrator.ad_model a
  = default "" (if Orchestrator.ad_is_initializer a then im else cm).
Proof.
  unfold Orchestrator.precheck.
  destruct (Store.get_project _ _); [|discriminate].
  destruct (Store.get_active_session _ _); [discriminate|].
  destruct (_ && _); [discriminate|].
  destruct (_ && _); [discriminate|].
  intros [= <-]. reflexivity.
Qed.

(** The session a call returns is an initializer session exactly when the
    project had no epics at the call, and it ran with the model given for
    its type. *)
Lemma start_session_info o e pid im cm o' info :
  Orchestrator.start_session o e pid im cm = (o', Returned info) ->
  Orchestrator.session_type info
  = (if bool_decide (Store.list_epics (Orchestrator.db o) pid = [])
     then INITIALIZER else CODING)
  /\ Orchestrator.model info
     = default "" (if bool_decide (Store.list_epics (Orchestrator.db o) pid = [])
                   then im else cm).
Proof.
  unfold Orchestrator.start_session.
  destruct (Orchestrator.precheck o pid im cm) as [a|ex] eqn:Ha; [|discriminate].
  destruct (precheck_returned _ _ _ _ _ Ha) as (_ & _ & Hinit).
  pose proof (precheck_model _ _ _ _ _ Ha) as Hmodel. rewrite Hinit in Hmodel.
  destruct (Orchestrator.create o a _ e) as [o1 [r1|info1]] eqn:Hc.
  { pose proof (create_outcome _ _ _ _ _ _ Hc) as [_ Hout].
    intros [= <- ->]. destruct Hout. }
  destruct (create_info _ _ _ _ _ _ Hc) as [Ht1 Hm1]. rewrite Hinit in Ht1.
  destruct (Orchestrator.launch o1 info1 e) as [o2 [r2|info2]] eqn:Hl;
    pose proof (launch_info _ _ _ _ _ Hl) as Hinfo; simpl in Hinfo.
  { intros [= <- ->]. destruct Hinfo as [Ht2 Hm2].
    rewrite Ht2, Hm2. split; congruence. }
  intros He. destruct (execute_info _ _ _ _ _ He) as [Ht3 Hm3].
  destruct Hinfo as [Ht2 Hm2].
  rewrite Ht3, Hm3, Ht2, Hm2. split; congruence.
Qed.

(** ** The epics and the session rows across one call *)

Lemma epics_run_quality_check o sid e :
  Store.epics (Orchestrator.db (Orchestrator._run_quality_check o sid e))
  = Store.epics (Orchestrator.db o).
Proof.
  unfold Orchestrator._run_quality_check, Orchestrator._maybe_trigger_deep_review.
  destruct (negb _); simpl; [reflexivity|].
  repeat match goal with
         | |- context [match ?b with Some _ => _ | None => _ end] => destruct b; simpl
         | |- context [if ?b then _ else _] => destruct b; simpl
         end; reflexivity.
Qed.

Lemma epics_run_test_coverage_analysis o pid e :
  Store.epics (Orchestrator.db (Orchestrator._run_test_coverage_analysis o pid e))
  = Store.epics (Orchestrator.db o).
Proof.
  unfold Orchestrator._run_test_coverage_analysis.
  now destruct (Orchestrator.coverage_ok e).
Qed.

Lemma handle_epics o info e ex :
  Store.epics (Orchestrator.db (fst (Orchestrator.handle o info e ex)))
  = Store.epics (Orchestrator.db o).
Proof.
  destruct ex; simpl; destruct (Orchestrator.handler_fault e); reflexivity.
Qed.

Lemma after_end_session_epics o info e (is_initializer is_error : bool) :
  Store.epics
    (Orchestrator.db
       (fst (Orchestrator.after_end_session o info e is_initializer is_error)))
  = Store.epics (Orchestrator.db o).
Proof.
  unfold Orchestrator.after_end_session, Orchestrator.call_hook.
  destruct is_initializer, is_error; simpl;
    repeat match goal with
           | |- context [Orchestrator.fault_at ?l e] =>
               destruct (Orchestrator.fault_at l e) as [?ex|]; simpl
           | |- context [is_Exception ?ex] => destruct (is_Exception ex); simpl
           end;
    rewrite ?handle_epics; simpl;
    rewrite ?epics_run_test_coverage_analysis, ?epics_run_quality_check;
    reflexivity.
Qed.

Lemma execute_epics o info e :
  exists l,
    Store.epics (Orchestrator.db (fst (Orchestrator.execute o info e)))
    = Store.epics (Orchestrator.db o) ++ l.
Proof.
  unfold Orchestrator.execute.
  destruct (Orchestrator.fault_at _ e) as [ex|].
  { exists []. now rewrite handle_epics, app_nil_r. }
  destruct (Orchestrator.fault_at _ e) as [ex|].
  { eexists. rewrite handle_epics. simpl. reflexivity. }
  eexists. rewrite after_end_session_epics. simpl.
  destruct (bool_decide (Orchestrator.agent_status e = "error")); simpl;
    reflexivity.
Qed.

Lemma launch_epics o info e :
  Store.epics (Orchestrator.db (fst (Orchestrator.launch o info e)))
  = Store.epics (Orchestrator.db o).
Proof.
  unfold Orchestrator.launch, Orchestrator.handled.
  destruct (Orchestrator.fault_at _ e) as [ex|].
  { pose proof (handle_epics o info e ex) as H.
    destruct (Orchestrator.handle o info e ex). exact H. }
  cbv zeta.
  match goal with
  | |- context [match ?c with Some _ => _ | None => _ end] => destruct c as [ex|]
  end.
  - match goal with
    | |- context [Orchestrator.handle ?o2 ?i2 e ex] =>
        pose proof (handle_epics o2 i2 e ex) as H;
        destruct (Orchestrator.handle o2 i2 e ex)
    end.
    exact H.
  - unfold Orchestrator.publish. simpl.
    destruct (Orchestrator.event_callback o); reflexivity.
Qed.

Lemma create_epics o a n e :
  Store.epics (Orchestrator.db (fst (Orchestrator.create o a n e)))
  = Store.epics (Orchestrator.db o).
Proof.
  unfold Orchestrator.create, Store.create_session.
  destruct (Store.number_taken _ _ _); [reflexivity|].
  destruct (Orchestrator.fault_at _ e); [reflexivity|].
  destruct (Orchestrator.fault_at _ e); reflexivity.
Qed.

(** A call only adds epics. *)
Lemma start_session_epics o e pid im cm :
  exists l,
    Store.epics (Orchestrator.db (fst (Orchestrator.start_session o e pid im cm)))
    = Store.epics (Orchestrator.db o) ++ l.
Proof.
  unfold Orchestrator.start_session.
  destruct (Orchestrator.precheck o pid im cm) as [a|ex].
  2:{ exists []. simpl. now rewrite app_nil_r. }
  pose proof (create_epics o a
                (Store.get_next_session_number (Orchestrator.db o)
                   (Orchestrator.ad_project a)) e) as Hc.
  destruct (Orchestrator.create o a _ e) as [o1 [r1|info1]]; simpl in Hc.
  { exists []. simpl. now rewrite Hc, app_nil_r. }
  pose proof (launch_epics o1 info1 e) as Hl.
  destruct (Orchestrator.launch o1 info1 e) as [o2 [r2|info2]]; simpl in Hl.
  { exists []. simpl. now rewrite Hl, Hc, app_nil_r. }
  destruct (execute_epics o2 info2 e) as [l He]. exists l.
  now rewrite He, Hl, Hc.
Qed.

Lemma list_epics_grow db db' pid l :
  Store.epics db' = Store.epics db ++ l ->
  Store.list_epics db pid <> [] -> Store.list_epics db' pid <> [].
Proof.
  unfold Store.list_epics. intros ->. rewrite List.filter_app.
  destruct (List.filter _ (Store.epics db)); [congruence | discriminate].
Qed.

Lemma rows_ended_length db db' :
  Store.rows_ended db db' ->
  length (Store.sessions db') = length (Store.sessions db).
Proof. intros [_ H]. symmetry. exact (Forall2_length _ _ _ H). Qed.

(** A call inserts one row at most. *)
Lemma start_session_row_count o e pid im cm :
  (length (Store.sessions
             (Orchestrator.db (fst (Orchestrator.start_session o e pid im cm))))
   <= length (Store.sessions (Orchestrator.db o)) + 1)%nat.
Proof.
  unfold Orchestrator.start_session.
  destruct (Orchestrator.precheck o pid im cm) as [a|ex]; [|simpl; lia].
  pose proof (create_db o a
                (Store.get_next_session_number (Orchestrator.db o)
                   (Orchestrator.ad_project a)) e) as Hc.
  destruct (Orchestrator.create o a _ e) as [o1 out1]. simpl in Hc.
  assert (H1 : (length (Store.sessions (Orchestrator.db o1))
                <= length (Store.sessions (Orchestrator.db o)) + 1)%nat).
  { destruct Hc as [[-> _]|(row & Hrow & _)]; [lia|].
    destruct (create_session_rows _ _ _ _ _ _ _ Hrow) as (-> & _).
    rewrite length_app. simpl. lia. }
  destruct out1 as [r1|info1]; [exact H1|].
  pose proof (launch_db o1 info1 e) as Hl.
  destruct (Orchestrator.launch o1 info1 e) as [o2 out2]. simpl in Hl.
  assert (H2 : length (Store.sessions (Orchestrator.db o2))
               = length (Store.sessions (Orchestrator.db o1))).
  { destruct Hl as [Hl|Hl]; apply rows_ended_length in Hl; rewrite Hl;
      [reflexivity|]. simpl. apply length_map. }
  destruct out2 as [r2|info2]; [simpl; lia|].
  pose proof (execute_rows_ended o2 info2 e) as He.
  apply rows_ended_length in He. lia.
Qed.

Lemma sessions_apply_stop_requests o reqs :
  Orchestrator.db (Orchestrator.apply_stop_requests o reqs) = Orchestrator.db o.
Proof. now rewrite apply_stop_requests_set_flags. Qed.

Lemma db_publish o pid ty :
  Orchestrator.db (Orchestrator.publish o pid ty) = Orchestrator.db o.
Proof. unfold Orchestrator.publish. now destruct (Orchestrator.event_callback o). Qed.

(** ** [start_coding_sessions] *)

Lemma coding_loop_row_count envs :
  forall o pid model m iteration last,
    (length (Store.sessions
               (Orchestrator.db
                  (fst (Orchestrator.coding_loop o pid model (Some m) envs
                          iteration last))))
     <= length (Store.sessions (Orchestrator.db o)) + Z.to_nat (m - iteration))%nat.
Proof.
  induction envs as [|e rest IH]; intros o pid model m iteration last;
    cbn [Orchestrator.coding_loop]; unfold Orchestrator.limit_reached.
  - destruct (m <=? iteration); [simpl; lia|].
    destruct (default false _); simpl; lia.
  - destruct (m <=? iteration) eqn:Hlim; [simpl; lia|].
    apply Z.leb_gt in Hlim.
    destruct (default false _); [simpl; lia|].
    destruct (Orchestrator.all_epics_complete _); [simpl; rewrite db_publish; lia|].
    set (o_it := if 1 <? iteration + 1 then _ else o).
    assert (Hit : Orchestrator.db o_it = Orchestrator.db o)
      by (subst o_it; destruct (1 <? iteration + 1);
          [apply db_publish | reflexivity]).
    pose proof (start_session_row_count o_it (Orchestrator.session e) pid None
                  (Some model)) as Hs.
    rewrite Hit in Hs.
    destruct (Orchestrator.start_session o_it _ pid None (Some model))
      as [o1 [info|ex]]; simpl in Hs.
    + destruct (Orchestrator.failed_or_interrupted _);
        [simpl; rewrite sessions_apply_stop_requests; lia|].
      destruct (Orchestrator.project_done _).
      * simpl. rewrite db_publish. simpl. rewrite sessions_apply_stop_requests. lia.
      * specialize (IH (Orchestrator.apply_stop_requests o1
                          (Orchestrator.stop_requests e))
                       pid model m (iteration + 1) (Some info)).
        rewrite sessions_apply_stop_requests in IH. lia.
    + simpl. rewrite sessions_apply_stop_requests. lia.
Qed.

(** X2. With a bound other than 0, [start_coding_sessions] starts at most
    that many sessions: the session table grows by at most
    [max_iterations] rows (by none when the bound is negative), however
    the sessions end. *)
Theorem start_coding_sessions_bounded (o : Orchestrator.t)
    (envs : list Orchestrator.iter_env) (pid : uuid) (coding_model : option string)
    (m : Z) :
  m <> 0 ->
  (length (Store.sessions
             (Orchestrator.db
                (fst (Orchestrator.start_coding_sessions o envs pid coding_model
                        (Some m)))))
   <= length (Store.sessions (Orchestrator.db o)) + Z.to_nat m)%nat.
Proof.
  intros Hm. unfold Orchestrator.start_coding_sessions.
  destruct (Store.get_project _ _); [|simpl; lia].
  destruct (bool_decide (Store.list_epics _ _ = [])); [simpl; lia|].
  rewrite (bool_decide_eq_false_2 (Some m = None)) by discriminate.
  rewrite (bool_decide_eq_false_2 (Some m = Some 0)) by congruence.
  simpl. pose proof (coding_loop_row_count envs o pid
                       (if Orchestrator.falsy coding_model
                        then Orchestrator.models_coding (Orchestrator.cfg o)
                        else default "" coding_model) m 0 None) as H.
  replace (m - 0) with m in H by lia. exact H.
Qed.

Lemma coding_loop_last envs :
  forall o pid model max iteration last o' info,
    Store.list_epics (Orchestrator.db o) pid <> [] ->
    (forall i, last = Some i ->
       Orchestrator.session_type i = CODING /\ Orchestrator.model i = model) ->
    Orchestrator.coding_loop o pid model max envs iteration last
    = (o', Orchestrator.LoopReturned (Some info)) ->
    Orchestrator.session_type info = CODING /\ Orchestrator.model info = model.
Proof.
  induction envs as [|e rest IH]; intros o pid model max iteration last o' info
    Hep Hlast; cbn [Orchestrator.coding_loop].
  - destruct (Orchestrator.limit_reached _ _); [intros [= _ ->]; auto|].
    destruct (default false _); [intros [= _ ->]; auto | discriminate].
  - destruct (Orchestrator.limit_reached _ _); [intros [= _ ->]; auto|].
    destruct (default false _); [intros [= _ ->]; auto|].
    destruct (Orchestrator.all_epics_complete _); [intros [= _ ->]; auto|].
    set (o_it := if 1 <? iteration + 1 then _ else o).
    assert (Hit : Orchestrator.db o_it = Orchestrator.db o)
      by (subst o_it; destruct (1 <? iteration + 1);
          [apply db_publish | reflexivity]).
    destruct (start_session_epics o_it (Orchestrator.session e) pid None
                (Some model)) as [l Hl].
    destruct (Orchestrator.start_session o_it _ pid None (Some model))
      as [o1 [info1|ex]] eqn:Hs; [|discriminate].
    simpl in Hl. rewrite Hit in Hl.
    pose proof (start_session_info _ _ _ _ _ _ _ Hs) as Hinfo. simpl in Hinfo.
    rewrite Hit, (bool_decide_eq_false_2 _ Hep) in Hinfo. simpl in Hinfo.
    destruct (Orchestrator.failed_or_interrupted _); [intros [= _ <-]; exact Hinfo|].
    destruct (Orchestrator.project_done _); [intros [= _ <-]; exact Hinfo|].
    apply IH.
    + rewrite sessions_apply_stop_requests. eapply list_epics_grow; eauto.
    + intros i [= <-]. exact Hinfo.
Qed.

(** X3. The session [start_coding_sessions] returns is a coding session,
    run with the model of the request or, when the request names none,
    with the coding model of the configuration; it is never an
    initializer session. *)
Theorem start_coding_sessions_returns_coding (o : Orchestrator.t)
    (envs : list Orchestrator.iter_env) (pid : uuid) (coding_model : option string)
    (max_iterations : option Z) (o' : Orchestrator.t)
    (info : Orchestrator.SessionInfo) :
  Orchestrator.start_coding_sessions o envs pid coding_model max_iterations
  = (o', Orchestrator.LoopReturned (Some info)) ->
  Orchestrator.session_type info = CODING
  /\ Orchestrator.model info
     = (if Orchestrator.falsy coding_model
        then Orchestrator.models_coding (Orchestrator.cfg o)
        else default "" coding_model).
Proof.
  unfold Orchestrator.start_coding_sessions.
  destruct (Store.get_project _ _); [|discriminate].
  destruct (bool_decide (Store.list_epics _ _ = [])) eqn:Hep; [discriminate|].
  apply bool_decide_eq_false_1 in Hep.
  apply coding_loop_last; [exact Hep | discriminate].
Qed.

(** The bound applies to two iterations allowed on project 1 with three
    recorded: the table grows from one row to three at most. *)
Lemma start_coding_sessions_bounded_witness :
  (length (Store.sessions
             (Orchestrator.db
                (fst (Orchestrator.start_coding_sessions Scenario.o1
                        [ Scenario.iteration_with []; Scenario.iteration_with [];
                          Scenario.iteration_with [] ] 1%N None (Some 2%Z)))))
   <= length (Store.sessions (Orchestrator.db Scenario.o1)) + Z.to_nat 2%Z)%nat.
Proof.
  apply start_coding_sessions_bounded. discriminate.
Defined.

(** The theorem applies to one coding session of project 1 with the model
    of the configuration. *)
Lemma start_coding_sessions_returns_coding_witness :
  Orchestrator.session_type
    {| Orchestrator.session_id := 101; Orchestrator.project_id := 1;
       Orchestrator.session_number := 1; Orchestrator.session_type := CODING;
       Orchestrator.model := "sonnet"; Orchestrator.status := COMPLETED;
       Orchestrator.started_at := Some 10; Orchestrator.ended_at := Some 20;
       Orchestrator.error_message := None |} = CODING
  /\ "sonnet" = Orchestrator.models_coding (Orchestrator.cfg Scenario.o1).
Proof.
  assert (H := start_coding_sessions_returns_coding Scenario.o1
                 [Scenario.iteration_with []] 1 None (Some 1)
                 (fst (Orchestrator.start_coding_sessions Scenario.o1
                         [Scenario.iteration_with []] 1 None (Some 1)))
                 {| Orchestrator.session_id := 101; Orchestrator.project_id := 1;
                    Orchestrator.session_number := 1;
                    Orchestrator.session_type := CODING;
                    Orchestrator.model := "sonnet"; Orchestrator.status := COMPLETED;
                    Orchestrator.started_at := Some 10;
                    Orchestrator.ended_at := Some 20;
                    Orchestrator.error_message := None |}).
  apply H. vm_compute. reflexivity.
Defined.

(** ** [start_initialization] *)

(** X4. [start_initialization] on a project that has epics raises
    [ValueError] with the number of epics in its message and starts
    nothing; a session it returns is an initializer session of a project
    that had no epics, run with the model of the request or, when the
    request names none, with the initializer model of the
    configuration. *)
Theorem start_initialization_only_initializes (o : Orchestrator.t)
    (e : Orchestrator.session_env) (pid : uuid) (initializer_model : option string)
    (project : Store.project_row) :
  Store.get_project (Orchestrator.db o) pid = Some project ->
  (Store.list_epics (Orchestrator.db o) pid <> [] ->
   AgentOrchestrator.start_initialization o e pid initializer_model
   = (o, Raised (ValueError
        ("Project already initialized with "
         +:+ pretty (length (Store.list_epics (Orchestrator.db o) pid))
         +:+ " epics. Use start_coding_sessions() instead."))))
  /\ (forall o' info,
        AgentOrchestrator.start_initialization o e pid initializer_model
        = (o', Returned info) ->
        Store.list_epics (Orchestrator.db o) pid = []
        /\ Orchestrator.session_type info = INITIALIZER
        /\ Orchestrator.model info
           = (if Orchestrator.falsy initializer_model
              then Orchestrator.models_initializer (Orchestrator.cfg o)
              else default "" initializer_model)).
Proof.
  intros Hp. unfold AgentOrchestrator.start_initialization. rewrite Hp.
  destruct (Store.list_epics (Orchestrator.db o) pid) as [|x l] eqn:Hep; simpl.
  - split; [congruence|]. intros o' info Hs.
    apply start_session_info in Hs. rewrite Hep in Hs. simpl in Hs.
    destruct Hs as [Ht Hm]. auto.
  - split; [reflexivity | discriminate].
Qed.

Lemma start_initialization_only_initializes_witness :
  AgentOrchestrator.start_initialization Scenario.o1 (Scenario.quiet 2) 1 None
  = (Scenario.o1,
     Raised (ValueError
       "Project already initialized with 2 epics. Use start_coding_sessions() instead.")).
Proof.
  destruct (start_initialization_only_initializes Scenario.o1 (Scenario.quiet 2)
              1%N None
              {| Store.proj_id := 1; Store.proj_name := "p1";
                 Store.proj_completed := false |})
    as [H _].
  - vm_compute. reflexivity.
  - rewrite H; [vm_compute; reflexivity|]. vm_compute. discriminate.
Defined.

(** ** [orchestrate_agent] *)

Lemma orchestrate_agent_loop_row_count envs :
  forall o pid im cm m iteration last,
    (length (Store.sessions
               (Orchestrator.db
                  (fst (Orchestrator.orchestrate_agent_loop o pid im cm (Some m)
                          envs iteration last))))
     <= length (Store.sessions (Orchestrator.db o)) + Z.to_nat (m - iteration))%nat.
Proof.
  induction envs as [|e rest IH]; intros o pid im cm m iteration last;
    cbn [Orchestrator.orchestrate_agent_loop]; unfold Orchestrator.limit_reached.
  - destruct (m <=? iteration); simpl; lia.
  - destruct (m <=? iteration) eqn:Hlim; [simpl; lia|]. apply Z.leb_gt in Hlim.
    pose proof (start_session_row_count o e pid im cm) as Hs.
    destruct (Orchestrator.start_session o e pid im cm) as [o1 [info|ex]];
      simpl in Hs.
    + destruct (bool_decide _); [simpl; lia|].
      destruct (bool_decide _); [simpl; lia|].
      specialize (IH o1 pid im cm m (iteration + 1) (Some info)). lia.
    + destruct ex; simpl; lia.
Qed.

Lemma orchestrate_agent_loop_quiet envs :
  forall o pid im cm max iteration last,
    snd (Orchestrator.orchestrate_agent_loop o pid im cm max envs iteration last)
    <> Orchestrator.LoopRaised KeyboardInterrupt.
Proof.
  induction envs as [|e rest IH]; intros o pid im cm max iteration last;
    cbn [Orchestrator.orchestrate_agent_loop].
  - destruct (Orchestrator.limit_reached _ _); discriminate.
  - destruct (Orchestrator.limit_reached _ _); [discriminate|].
    destruct (Orchestrator.start_session o e pid im cm) as [o1 [info|ex]].
    + destruct (bool_decide _); [discriminate|].
      destruct (bool_decide _); [discriminate|]. apply IH.
    + destruct ex; discriminate.
Qed.

Lemma orchestrate_agent_loop_last envs :
  forall o pid im cm max iteration last o' info,
    Orchestrator.orchestrate_agent_loop o pid im cm max envs iteration last
    = (o', Orchestrator.LoopReturned (Some info)) ->
    last = Some info \/ Store.is_terminal (Orchestrator.status info) = true.
Proof.
  induction envs as [|e rest IH]; intros o pid im cm max iteration last o' info;
    cbn [Orchestrator.orchestrate_agent_loop].
  - destruct (Orchestrator.limit_reached _ _); [intros [= _ ->]; auto | discriminate].
  - destruct (Orchestrator.limit_reached _ _); [intros [= _ ->]; auto|].
    destruct (Orchestrator.start_session o e pid im cm) as [o1 [info1|ex]] eqn:Hs.
    + assert (Hfin : Store.is_terminal (Orchestrator.status info1) = true).
      { destruct (start_session_returns_status _ _ _ _ _ _ _ Hs) as [->|[->| ->]];
          reflexivity. }
      destruct (bool_decide _); [intros [= _ <-]; auto|].
      destruct (bool_decide _); [intros [= _ <-]; auto|].
      intros H. apply IH in H. destruct H as [[= <-]|H]; auto.
    + destruct ex; try discriminate. intros [= _ ->]. auto.
Qed.

(** X5. [orchestrate_agent] with a bound starts at most that many
    sessions; it never lets a [KeyboardInterrupt] through, whatever raises
    it; and the session it returns is over ([completed], [error] or
    [interrupted]). *)
Theorem orchestrate_agent_bounded_and_quiet :
  (forall o envs pid im cm m,
     (length (Store.sessions
                (Orchestrator.db
                   (fst (Orchestrator.orchestrate_agent o envs pid im cm (Some m)))))
      <= length (Store.sessions (Orchestrator.db o)) + Z.to_nat m)%nat)
  /\ (forall o envs pid im cm max,
        snd (Orchestrator.orchestrate_agent o envs pid im cm max)
        <> Orchestrator.LoopRaised KeyboardInterrupt)
  /\ (forall o envs pid im cm max o' info,
        Orchestrator.orchestrate_agent o envs pid im cm max
        = (o', Orchestrator.LoopReturned (Some info)) ->
        Orchestrator.status info = COMPLETED \/ Orchestrator.status info = ERROR
        \/ Orchestrator.status info = INTERRUPTED).
Proof.
  unfold Orchestrator.orchestrate_agent. split_and!.
  - intros o envs pid im cm m.
    pose proof (orchestrate_agent_loop_row_count envs o pid im cm m 0 None) as H.
    replace (m - 0) with m in H by lia. exact H.
  - intros. apply orchestrate_agent_loop_quiet.
  - intros o envs pid im cm max o' info H.
    apply orchestrate_agent_loop_last in H. destruct H as [H|H]; [discriminate|].
    destruct (Orchestrator.status info); simpl in H; auto; discriminate.
Qed.

(** A [KeyboardInterrupt] raised while the sandbox of the second session
    is built ends the loop, which returns the first session. *)
Example orchestrate_agent_interrupted_at_sandbox :
  let out :=
    Orchestrator.orchestrate_agent Scenario.o0
      [ Scenario.quiet 2;
        Scenario.failing Orchestrator.AtCreateSandbox KeyboardInterrupt ]
      1 (Some "opus") (Some "sonnet") None in
  (exists info, snd out = Orchestrator.LoopReturned (Some info)
                /\ Orchestrator.session_number info = 0)
  /\ map Store.row_status (Store.sessions (Orchestrator.db (fst out)))
     = [COMPLETED; PENDING].
Proof. vm_compute. split; [eexists; split; reflexivity | reflexivity]. Qed.

(** ** The auto-continue loop of the legacy endpoint ([src/api/main.py]) *)

Lemma published_notify o pid ty reason :
  Orchestrator.published (Orchestrator.notify o pid ty reason)
  = Orchestrator.published o
    ++ [ {| Orchestrator.ev_project := pid; Orchestrator.ev_type := ty;
            Orchestrator.ev_reason := reason |} ].
Proof. reflexivity. Qed.

Lemma only_started_no_stop l :
  Orchestrator.only_started l -> Forall Orchestrator.no_stop_event l.
Proof.
  intros H. eapply List.Forall_impl; [|exact H]. intros ev Hev.
  unfold Orchestrator.no_stop_event. rewrite Hev. discriminate.
Qed.

(** The events of the auto-continue loop, however it ends. *)
Lemma auto_continue_loop_events (envs : list Orchestrator.session_env) :
  forall (o : Orchestrator.t) (pid : uuid) (im cm : string) (max : option Z)
         (iteration : Z),
    let out := Api.auto_continue_loop o pid im cm max envs iteration in
    exists evs,
      Forall Orchestrator.no_stop_event evs
      /\ match snd out with
         | Orchestrator.LoopReturned last =>
             exists reason,
               Orchestrator.published (fst out)
               = Orchestrator.published o ++ evs
                 ++ [ {| Orchestrator.ev_project := pid;
                         Orchestrator.ev_type := "auto_continue_stopped";
                         Orchestrator.ev_reason := reason |} ]
               /\ match last with
                  | None => reason = "max_iterations_reached"
                  | Some session =>
                      (Orchestrator.status session = ERROR
                       /\ reason = "session_error")
                      \/ (Orchestrator.status session = INTERRUPTED
                          /\ reason = "session_interrupted")
                  end
         | Orchestrator.LoopRaised _ | Orchestrator.LoopRunning _ =>
             Orchestrator.published (fst out) = Orchestrator.published o ++ evs
         end.
Proof.
  induction envs as [|e rest IH]; intros o pid im cm max iteration;
    cbn [Api.auto_continue_loop].
  - destruct (Orchestrator.limit_reached _ _); simpl.
    + exists []. split; [constructor|]. exists "max_iterations_reached". auto.
    + exists []. split; [constructor|]. now rewrite app_nil_r.
  - destruct (Orchestrator.limit_reached _ _).
    { exists []. split; [constructor|]. exists "max_iterations_reached".
      simpl. auto. }
    set (o_it := if 1 <? iteration + 1 then _ else o).
    assert (Hit : exists l0, Orchestrator.published o_it
                             = Orchestrator.published o ++ l0
                             /\ Forall Orchestrator.no_stop_event l0).
    { subst o_it. destruct (1 <? iteration + 1).
      - eexists. rewrite published_notify. split; [reflexivity|].
        constructor; [discriminate | constructor].
      - exists []. rewrite app_nil_r. split; [reflexivity | constructor]. }
    destruct Hit as (l0 & Hl0 & Hn0).
    destruct (start_session_frame o_it ∅ e pid (Some im) (Some cm))
      as (_ & _ & l1 & Hl1 & Hn1).
    apply only_started_no_stop in Hn1.
    destruct (Orchestrator.start_session o_it e pid (Some im) (Some cm))
      as [o1 [session|ex]]; simpl in Hl1.
    2:{ exists (l0 ++ l1). split; [now apply Forall_app|].
        simpl. now rewrite Hl1, Hl0, <- app_assoc. }
    assert (Hdone : Orchestrator.published
                      (Orchestrator.notify o1 pid "session_completed" "")
                    = Orchestrator.published o
                      ++ (l0 ++ l1
                          ++ [ {| Orchestrator.ev_project := pid;
                                  Orchestrator.ev_type := "session_completed";
                                  Orchestrator.ev_reason := "" |} ])).
    { rewrite published_notify, Hl1, Hl0, <- !app_assoc. reflexivity. }
    assert (Hnd : Forall Orchestrator.no_stop_event
                    (l0 ++ l1
                     ++ [ {| Orchestrator.ev_project := pid;
                             Orchestrator.ev_type := "session_completed";
                             Orchestrator.ev_reason := "" |} ])).
    { apply Forall_app. split; [exact Hn0|]. apply Forall_app. split; [exact Hn1|].
      constructor; [discriminate | constructor]. }
    destruct (bool_decide (Orchestrator.status session = ERROR)) eqn:He.
    { apply bool_decide_eq_true_1 in He.
      eexists. split; [exact Hnd|]. exists "session_error". cbn [fst snd].
      rewrite published_notify, Hdone, <- app_assoc. auto. }
    destruct (bool_decide (Orchestrator.status session = INTERRUPTED)) eqn:Hi.
    { apply bool_decide_eq_true_1 in Hi.
      eexists. split; [exact Hnd|]. exists "session_interrupted". cbn [fst snd].
      rewrite published_notify, Hdone, <- app_assoc. auto. }
    destruct (IH (Orchestrator.notify o1 pid "session_completed" "") pid im cm max
                (iteration + 1)) as (evs & Hn & Hr).
    exists ((l0 ++ l1
              ++ [ {| Orchestrator.ev_project := pid;
                      Orchestrator.ev_type := "session_completed";
                      Orchestrator.ev_reason := "" |} ]) ++ evs).
    split; [apply Forall_app; split; [exact Hnd | exact Hn]|].
    destruct (snd (Api.auto_continue_loop _ _ _ _ _ rest _)) as [last|ex|last].
    + destruct Hr as (reason & Hp & Hr). exists reason.
      split; [rewrite Hp, Hdone, <- !app_assoc; reflexivity | exact Hr].
    + rewrite Hr, Hdone, <- !app_assoc. reflexivity.
    + rewrite Hr, Hdone, <- !app_assoc. reflexivity.
Qed.

(** X6. The auto-continue loop of [/sessions/start] ends in one of two
    ways. It returns: then the last event it has published is
    [auto_continue_stopped], published once, and its reason tells why:
    [max_iterations_reached] when the bound is met, [session_error] or
    [session_interrupted] when the last session ended so. Or a call of
    [start_session] raises: then the loop has published no
    [auto_continue_stopped], and the wrapper publishes [session_error]
    with the message when the exception is an [Exception], and nothing
    otherwise. The loop never stops because the project is complete. *)
Theorem auto_continue_loop_announces_stop (envs : list Orchestrator.session_env)
    (o : Orchestrator.t) (pid : uuid) (im cm : option string) (max : option Z) :
  let initializer_model :=
    if Orchestrator.falsy im
    then Orchestrator.models_initializer (Orchestrator.cfg o)
    else default "" im in
  let coding_model :=
    if Orchestrator.falsy cm
    then Orchestrator.models_coding (Orchestrator.cfg o)
    else default "" cm in
  let out :=
    Api.auto_continue_loop o pid initializer_model coding_model max envs 0 in
  let wrapped :=
    Api.run_session o envs pid
      {| Api.ss_initializer_model := im; Api.ss_coding_model := cm;
         Api.ss_max_iterations := max; Api.ss_auto_continue := true |} in
  exists evs,
    Forall Orchestrator.no_stop_event evs
    /\ match snd out with
       | Orchestrator.LoopReturned last =>
           exists reason,
             Orchestrator.published (fst out)
             = Orchestrator.published o ++ evs
               ++ [ {| Orchestrator.ev_project := pid;
                       Orchestrator.ev_type := "auto_continue_stopped";
                       Orchestrator.ev_reason := reason |} ]
             /\ match last with
                | None => reason = "max_iterations_reached"
                | Some session =>
                    (Orchestrator.status session = ERROR
                     /\ reason = "session_error")
                    \/ (Orchestrator.status session = INTERRUPTED
                        /\ reason = "session_interrupted")
                end
             /\ wrapped = fst out
       | Orchestrator.LoopRaised ex =>
           Orchestrator.published (fst out) = Orchestrator.published o ++ evs
           /\ Orchestrator.published wrapped
              = Orchestrator.published (fst out)
                ++ (if is_Exception ex
                    then [ {| Orchestrator.ev_project := pid;
                              Orchestrator.ev_type := "session_error";
                              Orchestrator.ev_reason := str_exn ex |} ]
                    else [])
       | Orchestrator.LoopRunning _ =>
           Orchestrator.published (fst out) = Orchestrator.published o ++ evs
           /\ wrapped = fst out
       end.
Proof.
  intros initializer_model coding_model out wrapped.
  destruct (auto_continue_loop_events envs o pid initializer_model coding_model
              max 0) as (evs & Hn & H).
  fold out in H. exists evs. split; [exact Hn|].
  assert (Hw : wrapped
               = match snd out with
                 | Orchestrator.LoopRaised ex =>
                     if is_Exception ex
                     then Orchestrator.notify (fst out) pid "session_error"
                            (str_exn ex)
                     else fst out
                 | _ => fst out
                 end).
  { subst wrapped. unfold Api.run_session. simpl.
    fold initializer_model coding_model out. now destruct out as [o' []]. }
  destruct (snd out) as [last|ex|last].
  - destruct H as (reason & Hp & Hr). exists reason. auto.
  - split; [exact H|]. rewrite Hw.
    destruct (is_Exception ex); [apply published_notify | now rewrite app_nil_r].
  - auto.
Qed.

(** A loop bounded to one session on project 1 announces that the bound
    is met; a loop on a project that is busy ends with the error of
    [start_session] and announces no stop. *)
Example auto_continue_loop_on_busy_project :
  map Orchestrator.ev_type
    (Orchestrator.published
       (Api.run_session Scenario.o1 [Scenario.quiet 0; Scenario.quiet 0] 1
          {| Api.ss_initializer_model := None; Api.ss_coding_model := None;
             Api.ss_max_iterations := Some 1; Api.ss_auto_continue := true |}))
  = ["session_started"; "session_started"; "session_completed";
     "auto_continue_stopped"]
  /\ map (fun ev => (Orchestrator.ev_type ev, Orchestrator.ev_reason ev))
       (Orchestrator.published
          (Api.run_session Scenario.o_foreign [Scenario.quiet 0] 1
             {| Api.ss_initializer_model := None; Api.ss_coding_model := None;
                Api.ss_max_iterations := None; Api.ss_auto_continue := true |}))
     = [("session_error",
         "Cannot start new session: Session 7 is already running (started 1234). Wait for it to complete or stop it first.")].
Proof. vm_compute. split; reflexivity. Qed.

(** ** The analyzer: the Claude budget and the order of the proposals *)

Lemma proposals_loop_budget claude fmt prompt sb themes used :
  Z.of_nat (length (List.filter Analyzer.claude_enhanced
                      (Analyzer.emitted
                         (Analyzer.proposals_loop claude fmt prompt sb themes used))))
  <= Z.max 0 (Analyzer.claude_budget - used).
Proof.
  revert used. induction themes as [|[name td] rest IH]; intros used; simpl;
    [lia|].
  destruct (Analyzer.frequency td <? 2); [apply IH|].
  assert (Hfb : forall u,
            Analyzer.emitted
              (Analyzer.append_then (Analyzer.fallback_proposal fmt sb name td)
                 (Analyzer.proposals_loop claude fmt prompt sb rest u))
            = [] \/
            List.filter Analyzer.claude_enhanced
              (Analyzer.emitted
                 (Analyzer.append_then (Analyzer.fallback_proposal fmt sb name td)
                    (Analyzer.proposals_loop claude fmt prompt sb rest u)))
            = List.filter Analyzer.claude_enhanced
                (Analyzer.emitted
                   (Analyzer.proposals_loop claude fmt prompt sb rest u))).
  { intros u. rewrite emitted_append_then.
    destruct (Analyzer.proposals_loop claude fmt prompt sb rest u);
      [right; reflexivity | left; reflexivity]. }
  destruct (used <? Analyzer.claude_budget) eqn:Hb; simpl.
  - apply Z.ltb_lt in Hb.
    destruct (3 <=? Analyzer.unique_sessions td); simpl.
    + specialize (IH (used + 1)).
      destruct (claude name (Analyzer.recommendations td) prompt sb); simpl;
        try lia.
      * destruct (Hfb (used + 1)) as [-> | ->]; simpl; lia.
      * rewrite emitted_append_then.
        destruct (Analyzer.proposals_loop claude fmt prompt sb rest (used + 1));
          simpl in *; [rewrite Nat2Z.inj_succ|]; lia.
    + specialize (IH used). destruct (Hfb used) as [-> | ->]; simpl; lia.
  - specialize (IH used). destruct (Hfb used) as [-> | ->]; simpl; lia.
Qed.

Lemma proposals_loop_enhanced claude fmt prompt sb themes used :
  Forall (fun p =>
            Analyzer.claude_enhanced p = true ->
            exists td, In (Analyzer.proposal_theme p, td) themes
                       /\ 3 <= Analyzer.unique_sessions td)
    (Analyzer.emitted (Analyzer.proposals_loop claude fmt prompt sb themes used)).
Proof.
  revert used. induction themes as [|[name td] rest IH]; intros used; simpl;
    [constructor|].
  assert (Hrest : forall u,
            Forall (fun p =>
                      Analyzer.claude_enhanced p = true ->
                      exists td0, In (Analyzer.proposal_theme p, td0)
                                    ((name, td) :: rest)
                                  /\ 3 <= Analyzer.unique_sessions td0)
              (Analyzer.emitted
                 (Analyzer.proposals_loop claude fmt prompt sb rest u))).
  { intros u. eapply List.Forall_impl; [|apply (IH u)].
    intros p Hp He. destruct (Hp He) as (td0 & Hin & H3).
    exists td0. split; [now right | exact H3]. }
  assert (Hcons : forall p u,
            (Analyzer.claude_enhanced p = true ->
             exists td0, In (Analyzer.proposal_theme p, td0) ((name, td) :: rest)
                         /\ 3 <= Analyzer.unique_sessions td0) ->
            Forall (fun p =>
                      Analyzer.claude_enhanced p = true ->
                      exists td0, In (Analyzer.proposal_theme p, td0)
                                    ((name, td) :: rest)
                                  /\ 3 <= Analyzer.unique_sessions td0)
              (Analyzer.emitted
                 (Analyzer.append_then p
                    (Analyzer.proposals_loop claude fmt prompt sb rest u)))).
  { intros p u Hp. rewrite emitted_append_then. specialize (Hrest u).
    destruct (Analyzer.proposals_loop claude fmt prompt sb rest u);
      constructor; assumption. }
  destruct (Analyzer.frequency td <? 2); [apply Hrest|].
  destruct (used <? Analyzer.claude_budget); simpl.
  - destruct (3 <=? Analyzer.unique_sessions td) eqn:H3; simpl.
    + apply Z.leb_le in H3.
      destruct (claude name (Analyzer.recommendations td) prompt sb);
        try constructor; apply Hcons.
      * intros He. discriminate He.
      * intros _. exists td. split; [now left | exact H3].
    + apply Hcons. intros He. discriminate He.
  - apply Hcons. intros He. discriminate He.
Qed.

(** X7. Whatever Claude answers, at most three of the proposals emitted
    from an aggregate are Claude-enhanced, and each of these is for a theme
    of the aggregate that at least three distinct sessions recommended. *)
Theorem claude_enhanced_within_budget
    (claude : string -> list string -> string -> string
              -> Analyzer.claude_answer)
    (fmt : Q -> string) (prompt sb : string)
    (agg : list (string * Analyzer.theme_data)) :
  let proposals :=
    Analyzer.emitted
      (Analyzer._generate_proposals_from_deep_reviews claude fmt prompt sb agg) in
  (length (List.filter Analyzer.claude_enhanced proposals) <= 3)%nat
  /\ Forall (fun p =>
               Analyzer.claude_enhanced p = true ->
               exists td, In (Analyzer.proposal_theme p, td) agg
                          /\ 3 <= Analyzer.unique_sessions td)
       proposals.
Proof.
  intros proposals. subst proposals.
  unfold Analyzer._generate_proposals_from_deep_reviews. split.
  - pose proof (proposals_loop_budget claude fmt prompt sb
                  (Analyzer.sorted_themes agg) 0) as H.
    unfold Analyzer.claude_budget in H. lia.
  - eapply List.Forall_impl; [|apply proposals_loop_enhanced].
    intros p Hp He. destruct (Hp He) as (td & Hin & H3).
    exists td. split; [|exact H3].
    eapply Permutation_in; [apply sorted_themes_perm | exact Hin].
Qed.

(** *** The order of the proposals *)

Lemma insert_by_frequency_Forall (P : string * Analyzer.theme_data -> Prop) x l :
  P x -> Forall P l -> Forall P (Analyzer.insert_by_frequency x l).
Proof.
  intros Hx Hl. induction Hl as [|y l Hy Hl IH]; simpl.
  - constructor; [exact Hx | constructor].
  - destruct (_ <? _); repeat constructor; auto.
Qed.

Lemma insert_by_frequency_sorted x l :
  Sorted.StronglySorted
    (fun a b => Analyzer.frequency (snd b) <= Analyzer.frequency (snd a)) l ->
  Sorted.StronglySorted
    (fun a b => Analyzer.frequency (snd b) <= Analyzer.frequency (snd a))
    (Analyzer.insert_by_frequency x l).
Proof.
  intros Hl. induction Hl as [|y l Hl IH Hy]; simpl.
  - constructor; constructor.
  - destruct (Analyzer.frequency (snd x) <? Analyzer.frequency (snd y)) eqn:Hlt.
    + apply Z.ltb_lt in Hlt. constructor; [exact IH|].
      apply insert_by_frequency_Forall; [lia | exact Hy].
    + apply Z.ltb_ge in Hlt. constructor.
      * constructor; assumption.
      * constructor; [exact Hlt|].
        eapply List.Forall_impl; [|exact Hy]. simpl. intros a Ha. lia.
Qed.

Lemma sorted_themes_sorted agg :
  Sorted.StronglySorted
    (fun a b => Analyzer.frequency (snd b) <= Analyzer.frequency (snd a))
    (Analyzer.sorted_themes agg).
Proof.
  induction agg as [|x agg IH]; simpl; [constructor|].
  now apply insert_by_frequency_sorted.
Qed.

Lemma proposals_loop_frequencies claude fmt prompt sb themes used ps :
  Analyzer.proposals_loop claude fmt prompt sb themes used = Returned ps ->
  map AnalyzerSessions.proposal_frequency ps
  = List.filter (fun f => 2 <=? f) (map (fun e => Analyzer.frequency (snd e)) themes).
Proof.
  revert used ps. induction themes as [|[name td] rest IH]; intros used ps; simpl.
  - now intros [= <-].
  - rewrite (Z.leb_antisym (Analyzer.frequency td) 2).
    destruct (Analyzer.frequency td <? 2); simpl; [apply IH|].
    match goal with
    | |- context [match ?d with Analyzer.NoDiff => _ | _ => _ end] => destruct d
    end; try discriminate;
      intros H; apply append_then_returned in H;
      destruct H as (ps' & H & ->); apply IH in H; simpl;
      unfold AnalyzerSessions.proposal_frequency at 1; simpl; now f_equal.
Qed.

Lemma StronglySorted_map {A B : Type} (R : B -> B -> Prop) (f : A -> B) l :
  Sorted.StronglySorted (fun a b => R (f a) (f b)) l ->
  Sorted.StronglySorted R (map f l).
Proof.
  intros H. induction H as [|x l Hl IH Hx]; simpl; constructor; [exact IH|].
  apply List.Forall_map. exact Hx.
Qed.

Lemma StronglySorted_filter {A : Type} (R : A -> A -> Prop) (f : A -> bool) l :
  Sorted.StronglySorted R l -> Sorted.StronglySorted R (List.filter f l).
Proof.
  intros H. induction H as [|x l Hl IH Hx]; simpl; [constructor|].
  destruct (f x); [|exact IH]. constructor; [exact IH|].
  rewrite List.Forall_forall in *. intros y Hy. apply Hx.
  apply List.filter_In in Hy. tauto.
Qed.

(** X8. The proposals come out by decreasing frequency of their themes:
    a proposal is never followed by one whose theme was mentioned more
    often, and every proposal is for a theme with at least two mentions. *)
Theorem proposals_by_decreasing_frequency
    (claude : string -> list string -> string -> string
              -> Analyzer.claude_answer)
    (fmt : Q -> string) (prompt sb : string)
    (agg : list (string * Analyzer.theme_data)) :
  let frequencies :=
    map AnalyzerSessions.proposal_frequency
      (Analyzer.emitted
         (Analyzer._generate_proposals_from_deep_reviews claude fmt prompt sb
            agg)) in
  Sorted.StronglySorted (fun f g => g <= f) frequencies
  /\ Forall (fun f => 2 <= f) frequencies.
Proof.
  intros frequencies. subst frequencies.
  unfold Analyzer._generate_proposals_from_deep_reviews.
  destruct (Analyzer.proposals_loop claude fmt prompt sb
              (Analyzer.sorted_themes agg) 0) as [ps|ex] eqn:Hloop;
    [|split; constructor].
  simpl. rewrite (proposals_loop_frequencies _ _ _ _ _ _ _ Hloop). split.
  - apply StronglySorted_filter.
    apply (StronglySorted_map (fun f g => g <= f)
             (fun e : string * Analyzer.theme_data => Analyzer.frequency (snd e))).
    apply sorted_themes_sorted.
  - apply List.Forall_forall. intros f Hf. apply List.filter_In in Hf.
    destruct Hf as [_ Hf]. now apply Z.leb_le in Hf.
Qed.

(** *** The text of a fallback proposal *)

Lemma insert_by_length_perm x l :
  Permutation (Analyzer.insert_by_length x l) (x :: l).
Proof.
  induction l as [|y l IH]; simpl; [reflexivity|].
  destruct (_ <? _)%nat; [|reflexivity].
  rewrite IH. apply perm_swap.
Qed.

Lemma sorted_by_length_perm l : Permutation (Analyzer.sorted_by_length l) l.
Proof.
  induction l as [|x l IH]; simpl; [reflexivity|].
  rewrite insert_by_length_perm. now constructor.
Qed.

Lemma insert_by_length_Forall (P : string -> Prop) x l :
  P x -> Forall P l -> Forall P (Analyzer.insert_by_length x l).
Proof.
  intros Hx Hl. induction Hl as [|y l Hy Hl IH]; simpl.
  - constructor; [exact Hx | constructor].
  - destruct (_ <? _)%nat; repeat constructor; auto.
Qed.

Lemma insert_by_length_sorted x l :
  Sorted.StronglySorted (fun a b => (PyStr.len a <= PyStr.len b)%nat) l ->
  Sorted.StronglySorted (fun a b => (PyStr.len a <= PyStr.len b)%nat)
    (Analyzer.insert_by_length x l).
Proof.
  intros Hl. induction Hl as [|y l Hl IH Hy]; simpl.
  - constructor; constructor.
  - destruct (PyStr.len y <? PyStr.len x)%nat eqn:Hlt.
    + apply Nat.ltb_lt in Hlt. constructor; [exact IH|].
      apply insert_by_length_Forall; [lia | exact Hy].
    + apply Nat.ltb_ge in Hlt. constructor.
      * constructor; assumption.
      * constructor; [exact Hlt|].
        eapply List.Forall_impl; [|exact Hy]. simpl. intros a Ha. lia.
Qed.

Lemma sorted_by_length_sorted l :
  Sorted.StronglySorted (fun a b => (PyStr.len a <= PyStr.len b)%nat)
    (Analyzer.sorted_by_length l).
Proof.
  induction l as [|x l IH]; simpl; [constructor|].
  now apply insert_by_length_sorted.
Qed.

Lemma firstn_In {A : Type} (n : nat) (l : list A) a : In a (firstn n l) -> In a l.
Proof.
  revert n. induction l as [|x l IH]; intros [|n]; simpl; try tauto.
  intros [->|H]; [now left | right; eauto].
Qed.

Lemma skipn_In {A : Type} (n : nat) (l : list A) a : In a (skipn n l) -> In a l.
Proof.
  revert n. induction l as [|x l IH]; intros [|n]; simpl; try tauto.
  intros H. right. eauto.
Qed.

Lemma StronglySorted_firstn_skipn {A : Type} (R : A -> A -> Prop) n l :
  Sorted.StronglySorted R l ->
  Sorted.StronglySorted R (firstn n l)
  /\ forall a b, In a (firstn n l) -> In b (skipn n l) -> R a b.
Proof.
  intros H. revert n. induction H as [|x l Hl IH Hx]; intros n.
  - rewrite firstn_nil, skipn_nil. split; [constructor | intros a b []].
  - destruct n as [|n]; simpl.
    + split; [constructor | intros a b []].
    + destruct (IH n) as [Hs Hab]. rewrite List.Forall_forall in Hx. split.
      * constructor; [exact Hs|]. apply List.Forall_forall. intros y Hy.
        apply Hx. eapply firstn_In; exact Hy.
      * intros a b [<-|Ha] Hb; [|now apply Hab].
        apply Hx. eapply skipn_In; exact Hb.
Qed.

(** X9. The text of a fallback proposal is one bullet line for each of the
    (up to) three shortest recommendations of its theme, shortest first,
    the length of a recommendation being its number of characters (code
    points): no recommendation left out is shorter than one that is
    listed. The length of an ASCII string is the number of its bytes, and
    the two bytes of an accented letter count once. *)
Theorem fallback_lists_shortest (fmt : Q -> string) (sb name : string)
    (td : Analyzer.theme_data) :
  (exists best rest,
     Analyzer.proposed_text (Analyzer.fallback_proposal fmt sb name td)
     = Analyzer.JString (PyStr.join_lines (map (fun rec => "- " +:+ rec) best))
     /\ Permutation (best ++ rest) (Analyzer.recommendations td)
     /\ length best = Nat.min 3 (length (Analyzer.recommendations td))
     /\ Sorted.StronglySorted
          (fun a b => (PyStr.len a <= PyStr.len b)%nat) best
     /\ (forall a b, In a best -> In b rest ->
           (PyStr.len a <= PyStr.len b)%nat))
  /\ (forall a, PyStr.is_ascii a = true -> PyStr.len a = String.length a)
  /\ PyStr.len (String (ascii_of_nat 195) (String (ascii_of_nat 169) EmptyString))
     = 1%nat.
Proof.
  split; [|split; [|reflexivity]].
  2:{ induction a as [|c a IH]; simpl; [reflexivity|].
      intros Ha. apply andb_true_iff in Ha. destruct Ha as [Hc Ha].
      rewrite (IH Ha). unfold PyStr.is_continuation.
      unfold PyStr.is_ascii_char in Hc. apply Nat.ltb_lt in Hc.
      destruct (128 <=? nat_of_ascii c)%nat eqn:H128; [|reflexivity].
      apply Nat.leb_le in H128. lia. }
  exists (firstn 3 (Analyzer.sorted_by_length (Analyzer.recommendations td))),
         (skipn 3 (Analyzer.sorted_by_length (Analyzer.recommendations td))).
  destruct (StronglySorted_firstn_skipn _ 3 _
              (sorted_by_length_sorted (Analyzer.recommendations td)))
    as [Hs Hab].
  split; [reflexivity|]. split.
  { rewrite firstn_skipn. apply sorted_by_length_perm. }
  split.
  { rewrite length_firstn.
    now rewrite (Permutation_length (sorted_by_length_perm _)). }
  split; [exact Hs | exact Hab].
Qed.

(** Three accented letters are shorter than four plain ones, though their
    UTF-8 encoding is longer. *)
Example shortest_counts_characters :
  let eee := String (ascii_of_nat 195) (String (ascii_of_nat 169)
            (String (ascii_of_nat 195) (String (ascii_of_nat 169)
            (String (ascii_of_nat 195) (String (ascii_of_nat 169) EmptyString))))) in
  PyStr.len eee = 3%nat
  /\ String.length eee = 6%nat
  /\ firstn 3 (Analyzer.sorted_by_length [eee; "abcd"; "xyzuv"; "hello"])
     = [eee; "abcd"; "xyzuv"].
Proof. repeat split; reflexivity. Qed.

(** *** The confidence grows with the evidence *)

(** X10. The confidence of a theme never drops when more distinct sessions
    recommend it or when the average quality of these sessions is
    higher. *)
Theorem theme_confidence_monotone (td1 td2 : Analyzer.theme_data) :
  Analyzer.unique_sessions td1 <= Analyzer.unique_sessions td2 ->
  (Analyzer.avg_quality td1 <= Analyzer.avg_quality td2)%Q ->
  Analyzer._calculate_theme_confidence td1
  <= Analyzer._calculate_theme_confidence td2.
Proof.
  intros Hu Hq. unfold Analyzer._calculate_theme_confidence.
  destruct (Qle_bool 9 (Analyzer.avg_quality td1)) eqn:H91.
  { apply Qle_bool_iff in H91.
    assert (H92 : Qle_bool 9 (Analyzer.avg_quality td2) = true)
      by (apply Qle_bool_iff; eapply Qle_trans; eassumption).
    rewrite H92.
    repeat match goal with
           | |- context [?a <=? ?b] => destruct (Z.leb_spec a b)
           end; lia. }
  destruct (Qle_bool 6 (Analyzer.avg_quality td1)) eqn:H61; simpl.
  { apply Qle_bool_iff in H61.
    assert (H62 : Qle_bool 6 (Analyzer.avg_quality td2) = true)
      by (apply Qle_bool_iff; eapply Qle_trans; eassumption).
    rewrite H62. simpl.
    destruct (Qle_bool 9 (Analyzer.avg_quality td2));
      repeat match goal with
             | |- context [?a <=? ?b] => destruct (Z.leb_spec a b)
             end; lia. }
  destruct (Qle_bool 9 (Analyzer.avg_quality td2));
    [|destruct (Qle_bool 6 (Analyzer.avg_quality td2)); simpl];
    repeat match goal with
           | |- context [?a <=? ?b] => destruct (Z.leb_spec a b)
           end; lia.
Qed.

(** The theorem applies to a theme of two sessions of average quality 5
    and a theme of five sessions of average quality 9. *)
Lemma theme_confidence_monotone_witness :
  Analyzer._calculate_theme_confidence
    {| Analyzer.theme_name := "testing"; Analyzer.recommendations := [];
       Analyzer.sessions := []; Analyzer.frequency := 2;
       Analyzer.avg_quality := 5; Analyzer.unique_sessions := 2 |}
  <= Analyzer._calculate_theme_confidence
       {| Analyzer.theme_name := "testing"; Analyzer.recommendations := [];
          Analyzer.sessions := []; Analyzer.frequency := 7;
          Analyzer.avg_quality := 9; Analyzer.unique_sessions := 5 |}.
Proof.
  apply theme_confidence_monotone.
  - simpl. lia.
  - vm_compute. discriminate.
Defined.

(** ** The analyzer: the sessions of a theme *)

Section DictMore.
Context {K V : Type} `{EqDecision K}.
Implicit Types (d : list (K * V)) (k : K) (v : V).

Lemma dict_set_length_absent d k v :
  dict_get d k = None -> length (dict_set d k v) = S (length d).
Proof.
  induction d as [|[k0 v0] d IH]; simpl; [reflexivity|].
  destruct (decide (k0 = k)) as [->|Hne]; [discriminate|].
  intros H. simpl. now rewrite IH.
Qed.

Lemma dict_get_Some_key d k v : dict_get d k = Some v -> In k (dict_keys d).
Proof.
  intros H. apply dict_get_In in H. unfold dict_keys.
  apply in_map_iff. exists (k, v). now split.
Qed.

Lemma dict_get_NoDup d k v :
  NoDup (dict_keys d) -> In (k, v) d -> dict_get d k = Some v.
Proof.
  unfold dict_keys. induction d as [|[k0 v0] d IH]; simpl; [tauto|].
  intros Hnd. apply NoDup_cons in Hnd. destruct Hnd as [Hnin Hnd].
  intros [[= -> ->]|Hin].
  - destruct (decide (k = k)); congruence.
  - destruct (decide (k0 = k)) as [->|Hne]; [|now apply IH].
    exfalso. apply Hnin. apply list_elem_of_In.
    apply in_map_iff. exists (k, v). now split.
Qed.

End DictMore.

Section Sessions.
Import AnalyzerSessions.
Variable str_lower : string -> string.
Variable R : Analyzer.session_info -> Prop.

Lemma theme_entry_sessions_ok themes t :
  sessions_ok R themes -> acc_sessions_ok R (Analyzer.theme_entry themes t).
Proof.
  intros Hall. unfold Analyzer.theme_entry.
  destruct (dict_get themes t) as [acc|] eqn:Hget; simpl.
  - apply dict_get_In in Hget. unfold sessions_ok in Hall.
    rewrite List.Forall_forall in Hall. now destruct (Hall _ Hget).
  - split; [constructor|]. split; [simpl; lia | constructor].
Qed.

Lemma add_mention_sessions_ok sid info rec themes t :
  Analyzer.si_session_id info = sid -> R info ->
  sessions_ok R themes ->
  sessions_ok R (Analyzer.add_mention sid info rec themes t).
Proof.
  intros Hid HR Hall.
  destruct (theme_entry_sessions_ok themes t Hall) as (Hnd & Hlen & Hs).
  unfold Analyzer.add_mention. fold (Analyzer.theme_entry themes t).
  apply dict_set_Forall; [exact Hall|]. unfold acc_sessions_ok. simpl.
  destruct (dict_get (Analyzer.acc_session_dict (Analyzer.theme_entry themes t)) sid)
    as [old|] eqn:Hget.
  - split; [split; [exact Hnd | split; [lia | exact Hs]]|].
    apply dict_get_In in Hget.
    destruct (Analyzer.acc_session_dict (Analyzer.theme_entry themes t));
      [destruct Hget | simpl; lia].
  - rewrite (dict_set_length_absent _ _ _ Hget).
    split; [|lia]. split; [now apply dict_set_NoDup|].
    split; [lia|]. apply dict_set_Forall; [exact Hs|]. now split.
Qed.

Lemma add_recommendation_sessions_ok sid info themes rec :
  Analyzer.si_session_id info = sid -> R info ->
  sessions_ok R themes ->
  sessions_ok R (Analyzer.add_recommendation str_lower sid info themes rec).
Proof.
  intros Hid HR. unfold Analyzer.add_recommendation.
  generalize (Analyzer.matched_themes str_lower rec) as ms. intros ms. revert themes.
  induction ms as [|t ms IH]; intros themes Hok; simpl; [exact Hok|].
  apply IH. now apply add_mention_sessions_ok.
Qed.

Lemma add_review_sessions_ok themes r :
  R (review_session_info r) ->
  sessions_ok R themes -> sessions_ok R (Analyzer.add_review str_lower themes r).
Proof.
  intros HR. unfold Analyzer.add_review.
  generalize (Analyzer.rv_recommendations r) as recs. intros recs. revert themes.
  induction recs as [|rec recs IH]; intros themes Hok; simpl; [exact Hok|].
  apply IH. now apply add_recommendation_sessions_ok.
Qed.

Lemma fold_add_review_sessions_ok reviews themes :
  Forall (fun r => R (review_session_info r)) reviews ->
  sessions_ok R themes ->
  sessions_ok R (fold_left (Analyzer.add_review str_lower) reviews themes).
Proof.
  intros Hall. revert themes.
  induction Hall as [|r reviews Hr Hall IH]; intros themes Hok; simpl;
    [exact Hok|].
  apply IH. now apply add_review_sessions_ok.
Qed.

End Sessions.

Section SessionIds.
Variable str_lower : string -> string.

(** The ids under which the sessions of a theme are kept. *)
Lemma add_mention_session_ids sid info rec themes t t' x :
  In x (dict_keys (Analyzer.acc_session_dict
                     (Analyzer.theme_entry
                        (Analyzer.add_mention sid info rec themes t) t')))
  <-> In x (dict_keys (Analyzer.acc_session_dict (Analyzer.theme_entry themes t')))
      \/ (t = t' /\ x = sid).
Proof.
  unfold Analyzer.theme_entry at 1. unfold Analyzer.add_mention.
  fold (Analyzer.theme_entry themes t).
  destruct (decide (t = t')) as [->|Hne].
  - rewrite dict_get_set_eq. simpl.
    destruct (dict_get (Analyzer.acc_session_dict (Analyzer.theme_entry themes t')) sid)
      as [old|] eqn:Hget.
    + apply dict_get_Some_key in Hget. split; [tauto|].
      intros [H|[_ ->]]; assumption.
    + rewrite dict_keys_set. tauto.
  - rewrite dict_get_set_ne by exact Hne.
    fold (Analyzer.theme_entry themes t'). tauto.
Qed.

Lemma add_recommendation_session_ids sid info themes rec t' x :
  In x (dict_keys (Analyzer.acc_session_dict
                     (Analyzer.theme_entry
                        (Analyzer.add_recommendation str_lower sid info themes rec) t')))
  <-> In x (dict_keys (Analyzer.acc_session_dict (Analyzer.theme_entry themes t')))
      \/ (In t' (Analyzer.matched_themes str_lower rec) /\ x = sid).
Proof.
  unfold Analyzer.add_recommendation.
  generalize (Analyzer.matched_themes str_lower rec) as ms. intros ms. revert themes.
  induction ms as [|t ms IH]; intros themes; simpl; [tauto|].
  rewrite IH, add_mention_session_ids. tauto.
Qed.

Lemma add_review_session_ids themes r t' x :
  In x (dict_keys (Analyzer.acc_session_dict
                     (Analyzer.theme_entry (Analyzer.add_review str_lower themes r) t')))
  <-> In x (dict_keys (Analyzer.acc_session_dict (Analyzer.theme_entry themes t')))
      \/ (x = Analyzer.rv_session_id r /\ AnalyzerSessions.mentions_theme str_lower r t').
Proof.
  unfold Analyzer.add_review, AnalyzerSessions.mentions_theme.
  generalize (Analyzer.rv_recommendations r) as recs. intros recs. revert themes.
  induction recs as [|rec recs IH]; intros themes; simpl.
  - split; [tauto|]. intros [H|[_ (rec & [] & _)]]. exact H.
  - rewrite IH, add_recommendation_session_ids. split.
    + intros [[H|[Hm ->]]|[-> (rec' & Hin & Hm)]]; [now left | right..].
      * split; [reflexivity|]. exists rec. auto.
      * split; [reflexivity|]. exists rec'. auto.
    + intros [H|[-> (rec' & [<-|Hin] & Hm)]]; [now left; left | left; right | right].
      * now split.
      * split; [reflexivity|]. exists rec'. auto.
Qed.

Lemma collect_themes_session_ids reviews t x :
  In x (dict_keys (Analyzer.acc_session_dict
                     (Analyzer.theme_entry (Analyzer.collect_themes str_lower reviews) t)))
  <-> exists r, In r reviews /\ Analyzer.rv_session_id r = x
                /\ AnalyzerSessions.mentions_theme str_lower r t.
Proof.
  unfold Analyzer.collect_themes.
  enough (H : forall themes,
             In x (dict_keys (Analyzer.acc_session_dict
                                (Analyzer.theme_entry
                                   (fold_left (Analyzer.add_review str_lower) reviews themes) t)))
             <-> In x (dict_keys (Analyzer.acc_session_dict
                                    (Analyzer.theme_entry themes t)))
                 \/ exists r, In r reviews /\ Analyzer.rv_session_id r = x
                              /\ AnalyzerSessions.mentions_theme str_lower r t).
  { rewrite (H []). simpl. tauto. }
  induction reviews as [|r reviews IH]; intros themes; simpl.
  - split; [tauto|]. intros [H|(r & [] & _)]. exact H.
  - rewrite IH, add_review_session_ids. split.
    + intros [[H|[-> Hm]]|(r' & Hin & Hid & Hm)]; [now left | right..].
      * exists r. auto.
      * exists r'. auto.
    + intros [H|(r' & [<-|Hin] & Hid & Hm)]; [now left; left | left; right | right].
      * now split.
      * exists r'. auto.
Qed.

Lemma collect_themes_sessions_ok reviews :
  AnalyzerSessions.sessions_ok
    (fun s => exists r, In r reviews /\ s = AnalyzerSessions.review_session_info r)
    (Analyzer.collect_themes str_lower reviews).
Proof.
  unfold Analyzer.collect_themes. apply fold_add_review_sessions_ok.
  - apply List.Forall_forall. intros r Hr. exists r. now split.
  - constructor.
Qed.

Lemma sum_ratings_bounds lo hi l :
  Forall (fun s => lo <= Analyzer.si_overall_rating s <= hi) l ->
  lo * Z.of_nat (length l) <= Analyzer.sum_ratings l <= hi * Z.of_nat (length l).
Proof.
  induction 1 as [|s l Hs Hl IH]; simpl; [lia|].
  rewrite Nat2Z.inj_succ. lia.
Qed.

(** Every item of the aggregate is the finished entry of its theme. *)
Lemma aggregate_In reviews name td :
  In (name, td) (Analyzer._aggregate_recommendations str_lower reviews) ->
  let data := Analyzer.theme_entry (Analyzer.collect_themes str_lower reviews) name in
  In (name, data) (Analyzer.collect_themes str_lower reviews)
  /\ 0 < Analyzer.acc_frequency data
  /\ Analyzer.finish_theme (name, data) = [(name, td)].
Proof.
  intros Hin. simpl. unfold Analyzer._aggregate_recommendations in Hin.
  apply in_flat_map in Hin. destruct Hin as ([name' data] & Hentry & Hfin).
  destruct (collect_themes_ok str_lower reviews) as [Hnd _].
  unfold Analyzer.finish_theme in Hfin.
  destruct (0 <? Analyzer.acc_frequency data) eqn:Hpos; [|destruct Hfin].
  destruct Hfin as [[= -> <-]|[]].
  unfold Analyzer.theme_entry.
  rewrite (dict_get_NoDup _ _ _ Hnd Hentry). simpl.
  split; [exact Hentry|]. split; [now apply Z.ltb_lt|].
  unfold Analyzer.finish_theme. now rewrite Hpos.
Qed.

End SessionIds.

(** X11. In the aggregate, the sessions of a theme are the sessions of
    the reviews with a recommendation in the theme, each once, with the
    data of a review of the session; [unique_sessions] is their number,
    at least 1 and at most the number of mentions. *)
Theorem aggregate_sessions_of_theme (str_lower : string -> string)
    (reviews : list Analyzer.review) :
  Forall
    (fun entry =>
       let name := fst entry in
       let td := snd entry in
       Analyzer.theme_name td = name
       /\ Analyzer.unique_sessions td = Z.of_nat (length (Analyzer.sessions td))
       /\ 1 <= Analyzer.unique_sessions td <= Analyzer.frequency td
       /\ NoDup (map Analyzer.si_session_id (Analyzer.sessions td))
       /\ (forall sid,
             In sid (map Analyzer.si_session_id (Analyzer.sessions td))
             <-> exists r, In r reviews /\ Analyzer.rv_session_id r = sid
                           /\ AnalyzerSessions.mentions_theme str_lower r name)
       /\ Forall (fun s => exists r, In r reviews
                             /\ s = AnalyzerSessions.review_session_info r)
            (Analyzer.sessions td))
    (Analyzer._aggregate_recommendations str_lower reviews).
Proof.
  apply List.Forall_forall. intros [name td] Hin. simpl.
  destruct (aggregate_In str_lower reviews name td Hin) as (Hentry & Hpos & Hfin).
  pose proof (collect_themes_sessions_ok str_lower reviews) as Hok.
  unfold AnalyzerSessions.sessions_ok in Hok.
  rewrite List.Forall_forall in Hok.
  destruct (Hok _ Hentry) as [(Hnd & Hlen & Hs) Hone]. simpl in *.
  pose proof (collect_themes_session_ids str_lower reviews name) as Hids.
  set (data := Analyzer.theme_entry (Analyzer.collect_themes str_lower reviews) name) in *.
  assert (Hkeys : map Analyzer.si_session_id (map snd (Analyzer.acc_session_dict data))
                  = dict_keys (Analyzer.acc_session_dict data)).
  { unfold dict_keys. rewrite map_map. apply map_ext_in.
    intros kv Hkv. rewrite List.Forall_forall in Hs. now destruct (Hs _ Hkv). }
  unfold Analyzer.finish_theme in Hfin.
  apply Z.ltb_lt in Hpos. rewrite Hpos in Hfin.
  injection Hfin as <-. simpl. rewrite Hkeys, length_map.
  split; [reflexivity|]. split; [reflexivity|]. split; [lia|].
  split; [exact Hnd|]. split; [exact Hids|].
  apply List.Forall_map. eapply List.Forall_impl; [|exact Hs].
  intros kv [_ H]. exact H.
Qed.

(** X12. When the deep reviews all rate their sessions between [lo] and
    [hi], so does the average quality of every theme of the aggregate. *)
Theorem aggregate_avg_quality_bounds (str_lower : string -> string)
    (reviews : list Analyzer.review) (lo hi : Z) :
  Forall (fun r => lo <= Analyzer.rv_overall_rating r <= hi) reviews ->
  Forall
    (fun entry =>
       (inject_Z lo <= Analyzer.avg_quality (snd entry) <= inject_Z hi)%Q)
    (Analyzer._aggregate_recommendations str_lower reviews).
Proof.
  intros Hrate. apply List.Forall_forall. intros [name td] Hin. simpl.
  destruct (aggregate_In str_lower reviews name td Hin) as (Hentry & Hpos & Hfin).
  pose proof (collect_themes_sessions_ok str_lower reviews) as Hok.
  unfold AnalyzerSessions.sessions_ok in Hok.
  rewrite List.Forall_forall in Hok.
  destruct (Hok _ Hentry) as [(Hnd & Hlen & Hs) Hone]. simpl in *.
  set (data := Analyzer.theme_entry (Analyzer.collect_themes str_lower reviews) name) in *.
  assert (Hb : Forall (fun s => lo <= Analyzer.si_overall_rating s <= hi)
                 (map snd (Analyzer.acc_session_dict data))).
  { apply List.Forall_map. eapply List.Forall_impl; [|exact Hs].
    intros kv [_ (r & Hr & ->)]. simpl.
    rewrite List.Forall_forall in Hrate. now apply Hrate. }
  apply sum_ratings_bounds in Hb. rewrite length_map in Hb.
  unfold Analyzer.finish_theme in Hfin.
  apply Z.ltb_lt in Hpos. rewrite Hpos in Hfin.
  injection Hfin as <-. simpl. rewrite length_map.
  destruct (0 <? Z.of_nat (length (Analyzer.acc_session_dict data))) eqn:Hn;
    [|apply Z.ltb_ge in Hn; lia].
  apply Z.ltb_lt in Hn.
  assert (Hq : (0 < inject_Z (Z.of_nat (length (Analyzer.acc_session_dict data))))%Q)
    by (rewrite <- (Zlt_Qlt 0); exact Hn).
  split.
  - apply Qle_shift_div_l; [exact Hq|].
    rewrite <- inject_Z_mult, <- Zle_Qle. lia.
  - apply Qle_shift_div_r; [exact Hq|].
    rewrite <- inject_Z_mult, <- Zle_Qle. lia.
Qed.

(** The theorem applies to the reviews of the mixed scenario, rated between
    1 and 10. *)
Lemma aggregate_avg_quality_bounds_witness :
  Forall
    (fun entry =>
       (inject_Z 1 <= Analyzer.avg_quality (snd entry) <= inject_Z 10)%Q)
    (Analyzer._aggregate_recommendations PyStr.ascii_lower Scenario.mixed_reviews).
Proof.
  apply aggregate_avg_quality_bounds.
  unfold Scenario.mixed_reviews. repeat constructor; simpl; lia.
Defined.

(** ** The WebSocket connections *)

Lemma list_remove_Some x l l' :
  WebSockets.list_remove x l = Some l' ->
  exists l1 l2, l = l1 ++ x :: l2 /\ l' = l1 ++ l2 /\ x ∉ l1.
Proof.
  revert l'. induction l as [|y l IH]; intros l'; simpl; [discriminate|].
  destruct (decide (y = x)) as [->|Hne].
  - intros [= <-]. exists [], l. split_and!; [reflexivity..|].
    apply not_elem_of_nil.
  - destruct (WebSockets.list_remove x l) as [l0|]; [|discriminate].
    intros [= <-]. destruct (IH l0 eq_refl) as (l1 & l2 & -> & -> & Hnin).
    exists (y :: l1), l2. split_and!; [reflexivity..|].
    apply not_elem_of_cons. split; [congruence | exact Hnin].
Qed.

Lemma list_remove_None x l : WebSockets.list_remove x l = None <-> x ∉ l.
Proof.
  induction l as [|y l IH]; simpl.
  - split; [intros _; apply not_elem_of_nil | reflexivity].
  - rewrite not_elem_of_cons. destruct (decide (y = x)) as [->|Hne].
    + split; [discriminate | intros [H _]; congruence].
    + destruct (WebSockets.list_remove x l); simpl.
      * split; [discriminate|]. intros [_ H]. now apply IH in H.
      * split; [|reflexivity]. intros _. split; [congruence | now apply IH].
Qed.

Lemma list_remove_elem x l :
  x ∈ l ->
  exists l', WebSockets.list_remove x l = Some l'
             /\ l ≡ₚ x :: l' /\ l' `sublist_of` l.
Proof.
  intros Hin. destruct (WebSockets.list_remove x l) as [l'|] eqn:Hr.
  - exists l'. split; [reflexivity|].
    destruct (list_remove_Some _ _ _ Hr) as (l1 & l2 & -> & -> & _). split.
    + symmetry. apply Permutation_middle.
    + apply sublist_app; [reflexivity|]. now apply sublist_cons.
  - apply list_remove_None in Hr. contradiction.
Qed.

Lemma list_remove_last x l : x ∉ l -> WebSockets.list_remove x (l ++ [x]) = Some l.
Proof.
  induction l as [|y l IH]; simpl; intros Hnin.
  - destruct (decide (x = x)); congruence.
  - apply not_elem_of_cons in Hnin. destruct Hnin as [Hne Hnin].
    destruct (decide (y = x)); [congruence|]. now rewrite IH.
Qed.

Lemma send_all_sublist send_json i l d :
  WebSockets.send_all send_json i l = inl d -> d `sublist_of` l.
Proof.
  revert i d. induction l as [|ws l IH]; intros i d; simpl.
  - intros [= <-]. constructor.
  - destruct (send_json i ws) as [ex|].
    + destruct (WebSockets.is_Exception ex); [|discriminate].
      destruct (WebSockets.send_all send_json (S i) l) as [d'|] eqn:Hd;
        [|discriminate].
      intros [= <-]. apply sublist_skip. now apply (IH (S i)).
    + intros H. apply sublist_cons. now apply (IH (S i)).
Qed.

Lemma send_all_inr send_json i l ex :
  WebSockets.send_all send_json i l = inr ex ->
  WebSockets.is_Exception ex = false.
Proof.
  revert i. induction l as [|ws l IH]; intros i; simpl; [discriminate|].
  destruct (send_json i ws) as [ex'|]; [|apply IH].
  destruct (WebSockets.is_Exception ex') eqn:He.
  - destruct (WebSockets.send_all send_json (S i) l) eqn:Hd; [discriminate|].
    intros [= <-]. now apply (IH (S i)).
  - intros [= <-]. exact He.
Qed.

Lemma send_all_inl send_json i l :
  (forall j ws ex, l !! j = Some ws -> send_json (i + j)%nat ws = Some ex ->
     WebSockets.is_Exception ex = true) ->
  exists d, WebSockets.send_all send_json i l = inl d.
Proof.
  revert i. induction l as [|ws l IH]; intros i H; simpl; [now eexists|].
  destruct (IH (S i)) as [d Hd].
  { intros j w ex Hj Hs. apply (H (S j) w ex); [exact Hj|].
    now rewrite Nat.add_succ_r. }
  rewrite Hd. destruct (send_json i ws) as [ex|] eqn:Hs; [|now eexists].
  rewrite (H 0%nat ws ex eq_refl) by now rewrite Nat.add_0_r.
  now eexists.
Qed.

(** With no socket twice in the list, the first loop collects the sockets
    whose send raised. *)
Lemma send_all_elem send_json i l d :
  NoDup l ->
  WebSockets.send_all send_json i l = inl d ->
  forall j ws, l !! j = Some ws ->
    (ws ∈ d <-> send_json (i + j)%nat ws <> None).
Proof.
  revert i d. induction l as [|w l IH]; intros i d Hnd Hd j ws Hj;
    [discriminate|].
  apply NoDup_cons in Hnd. destruct Hnd as [Hnin Hnd]. simpl in Hd.
  destruct j as [|j]; simpl in Hj.
  - injection Hj as ->. rewrite Nat.add_0_r.
    destruct (send_json i ws) as [ex|] eqn:Hs.
    + destruct (WebSockets.is_Exception ex); [|discriminate].
      destruct (WebSockets.send_all send_json (S i) l); [|discriminate].
      injection Hd as <-. split; [discriminate|]. intros _. left.
    + split; [|congruence]. intros Hin. exfalso. apply Hnin.
      eapply elem_of_sublist; [exact Hin|]. eapply send_all_sublist; exact Hd.
  - assert (Hne : ws <> w).
    { intros ->. apply Hnin. eapply list_elem_of_lookup_2; exact Hj. }
    rewrite Nat.add_succ_r.
    destruct (send_json i w) as [ex|].
    + destruct (WebSockets.is_Exception ex); [|discriminate].
      destruct (WebSockets.send_all send_json (S i) l) as [d'|] eqn:Hd';
        [|discriminate].
      injection Hd as <-. rewrite elem_of_cons.
      rewrite <- (IH (S i) d' Hnd Hd' j ws Hj). tauto.
    + apply (IH (S i) d Hnd Hd j ws Hj).
Qed.

(** The second loop finds every socket it removes. *)
Lemma remove_all_submseteq d l :
  d ⊆+ l ->
  exists r, WebSockets.remove_all d l = (r, None)
            /\ d ++ r ≡ₚ l /\ r `sublist_of` l.
Proof.
  revert l. induction d as [|x d IH]; intros l Hsub; simpl.
  - exists l. split_and!; reflexivity.
  - apply submseteq_cons_l in Hsub. destruct Hsub as (k & Hk & Hd).
    assert (Hin : x ∈ l) by (rewrite Hk; left).
    destruct (list_remove_elem x l Hin) as (l' & -> & Hp & Hs).
    assert (Hk' : k ≡ₚ l').
    { apply (Permutation_cons_inv (a := x)). now rewrite <- Hk, <- Hp. }
    rewrite Hk' in Hd. destruct (IH l' Hd) as (r & -> & Hperm & Hsr).
    exists r. split_and!; [reflexivity| |].
    + rewrite Hp. simpl. now constructor.
    + etransitivity; eassumption.
Qed.

Lemma notify_project_update_result (conns : gmap string (list WebSockets.WebSocket))
    send_json pid l d :
  conns !! pid = Some l ->
  WebSockets.send_all send_json 0 l = inl d ->
  exists r,
    WebSockets.notify_project_update conns send_json pid
    = (match r with [] => delete pid conns | _ => <[pid := r]> conns end, None)
    /\ d ++ r ≡ₚ l /\ r `sublist_of` l.
Proof.
  intros Hl Hd. unfold WebSockets.notify_project_update. rewrite Hl, Hd.
  destruct (remove_all_submseteq d l) as (r & -> & Hp & Hs).
  { apply sublist_submseteq. eapply send_all_sublist; exact Hd. }
  exists r. split_and!; [|exact Hp | exact Hs]. now destruct r.
Qed.

(** X13. [notify_project_update] on a project with listeners, none of
    them twice in the list, whose sends raise nothing but [Exception]s:
    the call returns, the project is left with the sockets whose send
    returned, in their order, and with no entry at all when none did. *)
Theorem notify_project_update_prunes (conns : gmap string (list WebSockets.WebSocket))
    (send_json : nat -> WebSockets.WebSocket -> option WebSockets.ws_exn)
    (pid : string) (l : list WebSockets.WebSocket) :
  conns !! pid = Some l ->
  NoDup l ->
  (forall i ws ex, l !! i = Some ws -> send_json i ws = Some ex ->
     WebSockets.is_Exception ex = true) ->
  exists remaining,
    WebSockets.notify_project_update conns send_json pid
    = (match remaining with
       | [] => delete pid conns
       | _ => <[pid := remaining]> conns
       end, None)
    /\ remaining `sublist_of` l
    /\ (forall i ws, l !! i = Some ws ->
          (ws ∈ remaining <-> send_json i ws = None)).
Proof.
  intros Hl Hnd Hex.
  destruct (send_all_inl send_json 0 l) as [d Hd]; [exact Hex|].
  destruct (notify_project_update_result conns send_json pid l d Hl Hd)
    as (r & Hr & Hp & Hs).
  exists r. split_and!; [exact Hr | exact Hs|].
  intros i ws Hi.
  pose proof (send_all_elem send_json 0 l d Hnd Hd i ws Hi) as Hd'.
  simpl in Hd'.
  assert (Hin : ws ∈ l) by (eapply list_elem_of_lookup_2; exact Hi).
  assert (Hnd' : NoDup (d ++ r)) by now rewrite Hp.
  apply NoDup_app in Hnd'. destruct Hnd' as (_ & Hdisj & _).
  rewrite <- Hp, elem_of_app in Hin. split.
  - intros Hr'. destruct (send_json i ws) eqn:Hsend; [|reflexivity].
    exfalso. apply (Hdisj ws); [|exact Hr']. apply Hd'. discriminate.
  - intros Hnone. destruct Hin as [Hd0|Hr']; [|exact Hr'].
    apply Hd' in Hd0. contradiction.
Qed.

(** The theorem applies to a project with three listeners of which the
    second has gone. *)
Lemma notify_project_update_prunes_witness :
  fst (WebSockets.notify_project_update
         (<["p1" := [1; 2; 3]%N]> (∅ : gmap string (list WebSockets.WebSocket)))
         (fun i _ => if (i =? 1)%nat
                     then Some WebSockets.WebSocketDisconnect else None)
         "p1") !! "p1"
  = Some [1; 3]%N.
Proof.
  destruct (notify_project_update_prunes
              (<["p1" := [1; 2; 3]%N]> (∅ : gmap string (list WebSockets.WebSocket)))
              (fun i _ => if (i =? 1)%nat
                          then Some WebSockets.WebSocketDisconnect else None)
              "p1" [1; 2; 3]%N)
    as (remaining & Hr & _ & _).
  - vm_compute. reflexivity.
  - match goal with
    | |- ?G => exact (bool_decide_unpack G ltac:(vm_compute; exact I))
    end.
  - intros i ws ex _. destruct (i =? 1)%nat; [|discriminate].
    intros [= <-]. reflexivity.
  - vm_compute. reflexivity.
Defined.

(** X14. [notify_project_update] keeps the registry tidy: it leaves no
    project with an empty list, touches no other project, only ever drops
    sockets of the project, and raises nothing but what a send raised
    outside [Exception], in which case the registry is as before. *)
Theorem notify_project_update_keeps_registry
    (conns conns' : gmap string (list WebSockets.WebSocket))
    (send_json : nat -> WebSockets.WebSocket -> option WebSockets.ws_exn)
    (pid : string) (r : option WebSockets.ws_exn) :
  WebSockets.no_empty_list conns ->
  WebSockets.notify_project_update conns send_json pid = (conns', r) ->
  WebSockets.no_empty_list conns'
  /\ (forall p, p <> pid -> conns' !! p = conns !! p)
  /\ (forall l', conns' !! pid = Some l' ->
        exists l, conns !! pid = Some l /\ l' `sublist_of` l)
  /\ (forall ex, r = Some ex ->
        WebSockets.is_Exception ex = false /\ conns' = conns).
Proof.
  intros Hne Hn.
  destruct (conns !! pid) as [l|] eqn:Hl.
  2:{ unfold WebSockets.notify_project_update in Hn. rewrite Hl in Hn.
      injection Hn as <- <-. split_and!; auto.
      - intros l' Hl'. congruence.
      - discriminate. }
  destruct (WebSockets.send_all send_json 0 l) as [d|ex] eqn:Hd.
  2:{ unfold WebSockets.notify_project_update in Hn. rewrite Hl, Hd in Hn.
      injection Hn as <- <-. split_and!; auto.
      - intros l' Hl'. exists l. split; [reflexivity|].
        assert (l' = l) by congruence. now subst.
      - intros ex' [= <-]. split; [|reflexivity].
        eapply send_all_inr; exact Hd. }
  destruct (notify_project_update_result conns send_json pid l d Hl Hd)
    as (rem & Hr & Hp & Hs).
  rewrite Hr in Hn. injection Hn as <- <-.
  split_and!; [| | |discriminate].
  - intros p. destruct (decide (p = pid)) as [->|Hpne].
    + destruct rem; cbv iota; [now rewrite lookup_delete_eq|].
      rewrite lookup_insert_eq. discriminate.
    + destruct rem; cbv iota;
        [rewrite lookup_delete_ne by congruence
        |rewrite lookup_insert_ne by congruence]; apply Hne.
  - intros p Hpne.
    destruct rem; cbv iota;
      [now rewrite lookup_delete_ne by congruence
      |now rewrite lookup_insert_ne by congruence].
  - intros l' Hl'. exists l. split; [reflexivity|].
    destruct rem; cbv iota in Hl'; [now rewrite lookup_delete_eq in Hl'|].
    rewrite lookup_insert_eq in Hl'. now injection Hl' as <-.
Qed.

(** The theorem applies to a project whose one listener has gone. *)
Lemma notify_project_update_keeps_registry_witness :
  WebSockets.no_empty_list
    (fst (WebSockets.notify_project_update
            (<["p1" := [1]%N]> (∅ : gmap string (list WebSockets.WebSocket)))
            (fun _ _ => Some (WebSockets.RuntimeError "closed")) "p1")).
Proof.
  assert (Hne : WebSockets.no_empty_list
                  (<["p1" := [1]%N]> (∅ : gmap string (list WebSockets.WebSocket)))).
  { intros p. destruct (decide (p = "p1")) as [->|Hp].
    - rewrite lookup_insert_eq. discriminate.
    - rewrite lookup_insert_ne by congruence. rewrite lookup_empty. discriminate. }
  destruct (notify_project_update_keeps_registry
              (<["p1" := [1]%N]> (∅ : gmap string (list WebSockets.WebSocket)))
              (fst (WebSockets.notify_project_update
                      (<["p1" := [1]%N]> (∅ : gmap string (list WebSockets.WebSocket)))
                      (fun _ _ => Some (WebSockets.RuntimeError "closed")) "p1"))
              (fun _ _ => Some (WebSockets.RuntimeError "closed")) "p1" None
              Hne)
    as [H _].
  - vm_compute. reflexivity.
  - exact H.
Defined.

(** *** The endpoint *)

Lemma cleanup_register (conns : gmap string (list WebSockets.WebSocket)) pid ws :
  WebSockets.no_empty_list conns ->
  ws ∉ default [] (conns !! pid) ->
  WebSockets.cleanup (WebSockets.register conns pid ws) pid ws = conns.
Proof.
  intros Hne Hnin. unfold WebSockets.cleanup, WebSockets.register.
  rewrite lookup_insert_eq, (list_remove_last _ _ Hnin).
  destruct (conns !! pid) as [l|] eqn:Hl; simpl.
  - destruct l as [|w l]; [now destruct (Hne pid)|].
    rewrite insert_insert_eq. now apply insert_id.
  - now apply delete_insert_id.
Qed.

Lemma receive_loop_not_disconnect incoming :
  WebSockets.receive_loop incoming
  <> WebSockets.WsRaised WebSockets.WebSocketDisconnect.
Proof.
  induction incoming as [|[data [ex|]|ex] rest IH]; simpl; try discriminate.
  - destruct (String.eqb data "ping"); [|exact IH].
    destruct ex; simpl; discriminate.
  - destruct (String.eqb data "ping"); exact IH.
  - destruct ex; simpl; discriminate.
Qed.

(** X15. A client that goes away while the endpoint sends its first two
    messages is unregistered before the endpoint returns: with a socket
    that was not registered yet, the registry is then as it was before
    the call. *)
Theorem websocket_endpoint_early_close (conns : gmap string (list WebSockets.WebSocket))
    (ws : WebSockets.WebSocket) (pid : string) (e : WebSockets.endpoint_env)
    (ex : WebSockets.ws_exn) :
  WebSockets.no_empty_list conns ->
  ws ∉ default [] (conns !! pid) ->
  WebSockets.accept e = None ->
  WebSockets.is_closed ex = true ->
  WebSockets.connected_message e = Some ex
  \/ (WebSockets.connected_message e = None
      /\ WebSockets.initial_state e = Some ex) ->
  WebSockets.websocket_endpoint conns ws pid e = (conns, WebSockets.WsReturned).
Proof.
  intros Hne Hnin Ha Hc Hmsg. unfold WebSockets.websocket_endpoint.
  rewrite Ha. destruct Hmsg as [->|[-> ->]]; rewrite Hc;
    now rewrite cleanup_register.
Qed.

(** The theorem applies to the first listener of a project, gone before
    the initial state is sent. *)
Lemma websocket_endpoint_early_close_witness :
  WebSockets.websocket_endpoint ∅ 7 "p1"
    {| WebSockets.accept := None; WebSockets.connected_message := None;
       WebSockets.initial_state := Some WebSockets.WebSocketDisconnect;
       WebSockets.incoming := [] |}
  = (∅, WebSockets.WsReturned).
Proof.
  apply (websocket_endpoint_early_close ∅ 7%N "p1" _ WebSockets.WebSocketDisconnect).
  - intros p. rewrite lookup_empty. discriminate.
  - rewrite lookup_empty. apply not_elem_of_nil.
  - reflexivity.
  - reflexivity.
  - right. split; reflexivity.
Defined.

(** X16. Once its first two messages are sent, the endpoint does not
    unregister its socket, however the receive loop ends: the socket stays
    in the registry after the client has closed the connection. It goes at
    the next [notify_project_update] for the project whose send to it
    raises; when the sends to the other listeners return, the registry is
    then as it was before the connection. *)
Theorem closed_socket_pruned_by_next_notify (conns : gmap string (list WebSockets.WebSocket))
    (ws : WebSockets.WebSocket) (pid : string) (e : WebSockets.endpoint_env)
    (send_json : nat -> WebSockets.WebSocket -> option WebSockets.ws_exn)
    (ex : WebSockets.ws_exn) :
  WebSockets.no_empty_list conns ->
  ws ∉ default [] (conns !! pid) ->
  WebSockets.accept e = None ->
  WebSockets.connected_message e = None ->
  (forall ex0, WebSockets.initial_state e = Some ex0 ->
     WebSockets.is_closed ex0 = false /\ WebSockets.is_Exception ex0 = true) ->
  (forall i w, default [] (conns !! pid) !! i = Some w -> send_json i w = None) ->
  send_json (length (default [] (conns !! pid))) ws = Some ex ->
  WebSockets.is_Exception ex = true ->
  let after := WebSockets.websocket_endpoint conns ws pid e in
  fst after !! pid = Some (default [] (conns !! pid) ++ [ws])
  /\ (forall p, p <> pid -> fst after !! p = conns !! p)
  /\ (WebSockets.receive_loop (WebSockets.incoming e) = WebSockets.WsReturned ->
      snd after = WebSockets.WsReturned)
  /\ WebSockets.notify_project_update (fst after) send_json pid = (conns, None).
Proof.
  intros Hne Hnin Ha Hc Hinit Hothers Hws Hex after.
  set (l0 := default [] (conns !! pid)) in *.
  assert (Hafter : fst after = WebSockets.register conns pid ws
                   /\ (WebSockets.receive_loop (WebSockets.incoming e)
                       = WebSockets.WsReturned ->
                       snd after = WebSockets.WsReturned)).
  { subst after. unfold WebSockets.websocket_endpoint. rewrite Ha, Hc.
    assert (Hloop :
              let r := match WebSockets.receive_loop (WebSockets.incoming e) with
                       | WebSockets.WsRaised ex1 =>
                           WebSockets.outer_handler
                             (WebSockets.register conns pid ws) pid ws ex1
                       | r => (WebSockets.register conns pid ws, r)
                       end in
              fst r = WebSockets.register conns pid ws
              /\ (WebSockets.receive_loop (WebSockets.incoming e)
                  = WebSockets.WsReturned -> snd r = WebSockets.WsReturned)).
    { pose proof (receive_loop_not_disconnect (WebSockets.incoming e)) as Hnd.
      destruct (WebSockets.receive_loop (WebSockets.incoming e)) as [|ex1|];
        simpl; [auto| |split; [reflexivity | discriminate]].
      destruct ex1; simpl; try (split; [reflexivity | discriminate]).
      congruence. }
    destruct (WebSockets.initial_state e) as [ex0|]; [|exact Hloop].
    destruct (Hinit ex0 eq_refl) as [-> ->]. exact Hloop. }
  destruct Hafter as [Hreg Hret]. rewrite Hreg.
  split; [unfold WebSockets.register; now rewrite lookup_insert_eq|].
  split; [intros p Hp; unfold WebSockets.register;
          now rewrite lookup_insert_ne by congruence|].
  split; [exact Hret|].
  assert (Hnd_send : forall i l,
            (forall j w, l !! j = Some w -> send_json (i + j)%nat w = None) ->
            WebSockets.send_all send_json i (l ++ [ws])
            = match send_json (i + length l)%nat ws with
              | None => inl []
              | Some ex1 => if WebSockets.is_Exception ex1 then inl [ws] else inr ex1
              end).
  { intros i l. revert i. induction l as [|w l IH]; intros i Hl; simpl.
    - rewrite Nat.add_0_r. destruct (send_json i ws) as [ex1|]; [|reflexivity].
      destruct (WebSockets.is_Exception ex1); reflexivity.
    - rewrite <- (Nat.add_0_r i) at 1. rewrite (Hl 0%nat w eq_refl).
      rewrite (IH (S i)).
      + now rewrite Nat.add_succ_r.
      + intros j w' Hj. rewrite Nat.add_succ_l, <- Nat.add_succ_r.
        now apply Hl. }
  unfold WebSockets.notify_project_update, WebSockets.register.
  rewrite lookup_insert_eq. fold l0.
  rewrite (Hnd_send 0%nat l0) by (intros j w Hj; now apply Hothers).
  simpl. rewrite Hws, Hex. simpl. rewrite (list_remove_last _ _ Hnin).
  subst l0. destruct (conns !! pid) as [l|] eqn:Hl; simpl.
  - destruct l as [|w l]; [now destruct (Hne pid)|].
    rewrite insert_insert_eq. f_equal. now apply insert_id.
  - f_equal. now apply delete_insert_id.
Qed.

(** The theorem applies to the second listener of a project, which pings
    once and closes the connection. *)
Lemma closed_socket_pruned_by_next_notify_witness :
  let conns : gmap string (list WebSockets.WebSocket) := <["p1" := [1]%N]> ∅ in
  let e := {| WebSockets.accept := None; WebSockets.connected_message := None;
              WebSockets.initial_state := None;
              WebSockets.incoming :=
                [ WebSockets.Received "ping" None;
                  WebSockets.ReceiveRaised WebSockets.WebSocketDisconnect ] |} in
  let send_json := fun (i : nat) (_ : WebSockets.WebSocket) =>
                     if (i =? 1)%nat then Some (WebSockets.RuntimeError "closed")
                     else None in
  fst (WebSockets.websocket_endpoint conns 2 "p1" e) !! "p1" = Some [1; 2]%N
  /\ WebSockets.notify_project_update
       (fst (WebSockets.websocket_endpoint conns 2 "p1" e)) send_json "p1"
     = (conns, None).
Proof.
  intros conns e send_json.
  destruct (closed_socket_pruned_by_next_notify conns 2%N "p1" e send_json
              (WebSockets.RuntimeError "closed"))
    as (H1 & _ & _ & H2).
  - intros p. subst conns. destruct (decide (p = "p1")) as [->|Hp].
    + rewrite lookup_insert_eq. discriminate.
    + rewrite lookup_insert_ne by congruence. rewrite lookup_empty. discriminate.
  - subst conns. rewrite lookup_insert_eq. simpl.
    intros H. apply list_elem_of_singleton in H. discriminate H.
  - reflexivity.
  - reflexivity.
  - intros ex0. discriminate.
  - subst conns. rewrite lookup_insert_eq. simpl.
    intros [|[|i]] w; simpl; [reflexivity | discriminate | discriminate].
  - subst conns. rewrite lookup_insert_eq. reflexivity.
  - reflexivity.
  - split; [|exact H2]. etransitivity; [exact H1|]. subst conns.
    now rewrite lookup_insert_eq.
Defined.

(** ** The endpoint [/coding/start] when there is nothing to do *)

Lemma coding_loop_keeps_last envs :
  forall o pid model max iteration i o',
    Orchestrator.coding_loop o pid model max envs iteration (Some i)
    <> (o', Orchestrator.LoopReturned None).
Proof.
  induction envs as [|e rest IH]; intros o pid model max iteration i o'; simpl.
  - destruct (Orchestrator.limit_reached max iteration); [congruence|].
    destruct (default false (Orchestrator.stop_after_current o !! pid));
      congruence.
  - destruct (Orchestrator.limit_reached max iteration); [congruence|].
    destruct (default false (Orchestrator.stop_after_current o !! pid));
      [congruence|].
    destruct (Orchestrator.all_epics_complete (Orchestrator.pre_progress e));
      [congruence|].
    destruct (Orchestrator.start_session _ _ _ _ _) as [o1 [info|ex]];
      [|congruence].
    destruct (Orchestrator.failed_or_interrupted _); [congruence|].
    destruct (Orchestrator.project_done _); [congruence|]. apply IH.
Qed.

(** X17. [start_coding_sessions] returns no session only when it has run
    none: it has left the store as it was and has published at most
    [all_epics_complete]. The wrapper of [/coding/start] then publishes
    [coding_sessions_error], with the message of the [AttributeError] on
    [None], and not [coding_sessions_complete]. *)
Theorem coding_start_nothing_to_do (o o1 : Orchestrator.t)
    (envs : list Orchestrator.iter_env) (pid : uuid)
    (coding_model : option string) (max_iterations : option Z) :
  Orchestrator.start_coding_sessions o envs pid coding_model max_iterations
  = (o1, Orchestrator.LoopReturned None) ->
  Orchestrator.db o1 = Orchestrator.db o
  /\ (Orchestrator.published o1 = Orchestrator.published o
      \/ Orchestrator.published o1
         = Orchestrator.published o
           ++ [ {| Orchestrator.ev_project := pid;
                   Orchestrator.ev_type := "all_epics_complete";
                   Orchestrator.ev_reason := "" |} ])
  /\ Orchestrator.published
       (Api.run_coding o envs pid coding_model max_iterations)
     = Orchestrator.published o1
       ++ [ {| Orchestrator.ev_project := pid;
               Orchestrator.ev_type := "coding_sessions_error";
               Orchestrator.ev_reason :=
                 "'NoneType' object has no attribute 'to_dict'" |} ].
Proof.
  intros H. split_and!.
  3:{ unfold Api.run_coding. rewrite H. reflexivity. }
  all: revert H; unfold Orchestrator.start_coding_sessions;
    destruct (Store.get_project (Orchestrator.db o) pid); [|discriminate];
    destruct (bool_decide (Store.list_epics (Orchestrator.db o) pid = []));
      [discriminate|];
    match goal with
    | |- Orchestrator.coding_loop _ _ ?model ?max _ _ _ = _ -> _ =>
        generalize model as model'; generalize max as max'
    end; intros max' model';
    destruct envs as [|e rest]; simpl;
    (destruct (Orchestrator.limit_reached max' 0);
       [intros [= <-]; auto|]);
    (destruct (default false (Orchestrator.stop_after_current o !! pid));
       [intros [= <-]; auto|]);
    try discriminate;
    (destruct (Orchestrator.all_epics_complete (Orchestrator.pre_progress e));
       [intros [= <-]; unfold Orchestrator.publish;
        destruct (Orchestrator.event_callback o); auto|]);
    (destruct (Orchestrator.start_session _ _ _ _ _) as [o2 [info|ex]];
       [|discriminate]);
    (destruct (Orchestrator.failed_or_interrupted _); [discriminate|]);
    (destruct (Orchestrator.project_done _); [discriminate|]);
    intros H; now apply coding_loop_keeps_last in H.
Qed.

(** The theorem applies to project 1 once its two epics are complete. *)
Lemma coding_start_nothing_to_do_witness :
  map Orchestrator.ev_type
    (Orchestrator.published
       (Api.run_coding Scenario.o1
          [ {| Orchestrator.pre_progress :=
                 Some {| Orchestrator.completed_epics := 2;
                         Orchestrator.total_epics := 2;
                         Orchestrator.completed_tasks := 5;
                         Orchestrator.total_tasks := 5 |};
               Orchestrator.session := Scenario.quiet 0;
               Orchestrator.stop_requests := [];
               Orchestrator.post_progress :=
                 {| Orchestrator.completed_epics := 2;
                    Orchestrator.total_epics := 2;
                    Orchestrator.completed_tasks := 5;
                    Orchestrator.total_tasks := 5 |} |} ]
          1 None None))
  = map Orchestrator.ev_type (Orchestrator.published Scenario.o1)
    ++ ["all_epics_complete"; "coding_sessions_error"].
Proof.
  set (envs := [ {| Orchestrator.pre_progress :=
                      Some {| Orchestrator.completed_epics := 2;
                              Orchestrator.total_epics := 2;
                              Orchestrator.completed_tasks := 5;
                              Orchestrator.total_tasks := 5 |};
                    Orchestrator.session := Scenario.quiet 0;
                    Orchestrator.stop_requests := [];
                    Orchestrator.post_progress :=
                      {| Orchestrator.completed_epics := 2;
                         Orchestrator.total_epics := 2;
                         Orchestrator.completed_tasks := 5;
                         Orchestrator.total_tasks := 5 |} |} ]).
  destruct (coding_start_nothing_to_do Scenario.o1
              (fst (Orchestrator.start_coding_sessions Scenario.o1 envs 1 None None))
              envs 1%N None None)
    as (_ & _ & H).
  - vm_compute. reflexivity.
  - rewrite H. vm_compute. reflexivity.
Defined.

(** ** The stop-after-current flag outside [start_coding_sessions] *)

Lemma auto_continue_loop_frame envs :
  forall o f pid im cm max iteration,
    Api.auto_continue_loop (Orchestrator.set_flags o f) pid im cm max envs iteration
    = (Orchestrator.set_flags
         (fst (Api.auto_continue_loop o pid im cm max envs iteration)) f,
       snd (Api.auto_continue_loop o pid im cm max envs iteration))
    /\ Orchestrator.stop_after_current
         (fst (Api.auto_continue_loop o pid im cm max envs iteration))
       = Orchestrator.stop_after_current o.
Proof.
  induction envs as [|e rest IH]; intros o f pid im cm max iteration;
    cbn [Api.auto_continue_loop].
  - destruct (Orchestrator.limit_reached max iteration); split; reflexivity.
  - destruct (Orchestrator.limit_reached max iteration); [split; reflexivity|].
    set (o_it := if 1 <? iteration + 1
                 then Orchestrator.notify o pid "auto_continue_delay" "" else o).
    assert (Hit : (if 1 <? iteration + 1
                   then Orchestrator.notify (Orchestrator.set_flags o f) pid
                          "auto_continue_delay" ""
                   else Orchestrator.set_flags o f)
                  = Orchestrator.set_flags o_it f)
      by (subst o_it; destruct (1 <? iteration + 1); reflexivity).
    assert (Hfl : Orchestrator.stop_after_current o_it
                  = Orchestrator.stop_after_current o)
      by (subst o_it; destruct (1 <? iteration + 1); reflexivity).
    rewrite Hit.
    destruct (start_session_frame o_it f e pid (Some im) (Some cm))
      as (Hs & Hf & _).
    rewrite Hs.
    destruct (Orchestrator.start_session o_it e pid (Some im) (Some cm))
      as [o1 [session|ex]]; simpl in *; [|split; [reflexivity | congruence]].
    destruct (bool_decide (Orchestrator.status session = ERROR));
      [split; [reflexivity | simpl; congruence]|].
    destruct (bool_decide (Orchestrator.status session = INTERRUPTED));
      [split; [reflexivity | simpl; congruence]|].
    destruct (IH (Orchestrator.notify o1 pid "session_completed" "") f pid im cm
                max (iteration + 1)) as [IH1 IH2].
    change (Orchestrator.notify (Orchestrator.set_flags o1 f) pid
              "session_completed" "")
      with (Orchestrator.set_flags
              (Orchestrator.notify o1 pid "session_completed" "") f).
    rewrite IH1. split; [reflexivity|]. rewrite IH2. simpl. congruence.
Qed.

Lemma orchestrate_agent_loop_frame envs :
  forall o f pid im cm max iteration last,
    Orchestrator.orchestrate_agent_loop (Orchestrator.set_flags o f) pid im cm max
      envs iteration last
    = (Orchestrator.set_flags
         (fst (Orchestrator.orchestrate_agent_loop o pid im cm max envs
                 iteration last)) f,
       snd (Orchestrator.orchestrate_agent_loop o pid im cm max envs
              iteration last))
    /\ Orchestrator.stop_after_current
         (fst (Orchestrator.orchestrate_agent_loop o pid im cm max envs
                 iteration last))
       = Orchestrator.stop_after_current o.
Proof.
  induction envs as [|e rest IH]; intros o f pid im cm max iteration last;
    cbn [Orchestrator.orchestrate_agent_loop].
  - destruct (Orchestrator.limit_reached max iteration); split; reflexivity.
  - destruct (Orchestrator.limit_reached max iteration); [split; reflexivity|].
    destruct (start_session_frame o f e pid im cm) as (Hs & Hf & _).
    rewrite Hs.
    destruct (Orchestrator.start_session o e pid im cm)
      as [o1 [session|ex]]; simpl in *.
    + destruct (bool_decide (Orchestrator.status session = ERROR));
        [split; [reflexivity | exact Hf]|].
      destruct (bool_decide (Orchestrator.status session = INTERRUPTED));
        [split; [reflexivity | exact Hf]|].
      destruct (IH o1 f pid im cm max (iteration + 1) (Some session))
        as [IH1 IH2].
      rewrite IH1. split; [reflexivity | congruence].
    + destruct ex; split; solve [reflexivity | exact Hf].
Qed.

Lemma set_stop_after_current_set_flags o o' p stop :
  Orchestrator.stop_after_current o' = Orchestrator.stop_after_current o ->
  Orchestrator.set_flags o' (<[p := stop]> (Orchestrator.stop_after_current o))
  = Orchestrator.set_stop_after_current o' p stop.
Proof.
  intros H. unfold Orchestrator.set_stop_after_current. now rewrite H.
Qed.

(** X18. Only [start_coding_sessions] looks at the stop-after-current
    flag. The wrapper of the legacy endpoint [/sessions/start] and
    [orchestrate_agent] run the same sessions, with the same results,
    store and events, whether the flag of a project is set or not, and
    they leave the flag as it is: a request to stop after the current
    session is still pending when they are done. *)
Theorem legacy_loops_ignore_stop_after_current (o : Orchestrator.t)
    (envs : list Orchestrator.session_env) (pid p : uuid) (stop : bool)
    (session_config : Api.SessionStart)
    (initializer_model coding_model : option string)
    (max_iterations : option Z) :
  Api.run_session (Orchestrator.set_stop_after_current o p stop) envs pid
    session_config
  = Orchestrator.set_stop_after_current
      (Api.run_session o envs pid session_config) p stop
  /\ Orchestrator.orchestrate_agent
       (Orchestrator.set_stop_after_current o p stop) envs pid
       initializer_model coding_model max_iterations
     = (Orchestrator.set_stop_after_current
          (fst (Orchestrator.orchestrate_agent o envs pid initializer_model
                  coding_model max_iterations)) p stop,
        snd (Orchestrator.orchestrate_agent o envs pid initializer_model
               coding_model max_iterations))
  /\ Orchestrator.should_stop_after_current
       (Api.run_session (Orchestrator.set_stop_after_current o p stop) envs pid
          session_config) p
     = stop
  /\ Orchestrator.should_stop_after_current
       (fst (Orchestrator.orchestrate_agent
               (Orchestrator.set_stop_after_current o p stop) envs pid
               initializer_model coding_model max_iterations)) p
     = stop.
Proof.
  assert (Hrun : Api.run_session (Orchestrator.set_stop_after_current o p stop)
                   envs pid session_config
                 = Orchestrator.set_stop_after_current
                     (Api.run_session o envs pid session_config) p stop).
  { unfold Api.run_session.
    change (Orchestrator.cfg (Orchestrator.set_stop_after_current o p stop))
      with (Orchestrator.cfg o).
    set (im := if Orchestrator.falsy (Api.ss_initializer_model session_config)
               then _ else _).
    set (cm := if Orchestrator.falsy (Api.ss_coding_model session_config)
               then _ else _).
    change (Orchestrator.set_stop_after_current o p stop)
      with (Orchestrator.set_flags o
              (<[p := stop]> (Orchestrator.stop_after_current o))).
    destruct (Api.ss_auto_continue session_config).
    - destruct (auto_continue_loop_frame envs o
                  (<[p := stop]> (Orchestrator.stop_after_current o)) pid im cm
                  (Api.ss_max_iterations session_config) 0) as [H1 H2].
      rewrite H1.
      destruct (Api.auto_continue_loop o pid im cm _ envs 0) as [o1 r].
      simpl in *. rewrite (set_stop_after_current_set_flags o o1 p stop H2).
      destruct r as [last|ex|last]; try reflexivity.
      destruct (is_Exception ex); reflexivity.
    - destruct envs as [|e rest];
        [now rewrite (set_stop_after_current_set_flags o o p stop eq_refl)|].
      destruct (start_session_frame o
                  (<[p := stop]> (Orchestrator.stop_after_current o)) e pid
                  (Some im) (Some cm)) as (H1 & H2 & _).
      rewrite H1.
      destruct (Orchestrator.start_session o e pid (Some im) (Some cm))
        as [o1 [session|ex]]; simpl in *;
        rewrite (set_stop_after_current_set_flags o o1 p stop H2);
        [reflexivity|]. destruct (is_Exception ex); reflexivity. }
  assert (Hagent : Orchestrator.orchestrate_agent
                     (Orchestrator.set_stop_after_current o p stop) envs pid
                     initializer_model coding_model max_iterations
                   = (Orchestrator.set_stop_after_current
                        (fst (Orchestrator.orchestrate_agent o envs pid
                                initializer_model coding_model max_iterations))
                        p stop,
                      snd (Orchestrator.orchestrate_agent o envs pid
                             initializer_model coding_model max_iterations))).
  { unfold Orchestrator.orchestrate_agent.
    change (Orchestrator.set_stop_after_current o p stop)
      with (Orchestrator.set_flags o
              (<[p := stop]> (Orchestrator.stop_after_current o))).
    destruct (orchestrate_agent_loop_frame envs o
                (<[p := stop]> (Orchestrator.stop_after_current o)) pid
                initializer_model coding_model max_iterations 0 None)
      as [H1 H2].
    rewrite H1. now rewrite (set_stop_after_current_set_flags o _ p stop H2). }
  split; [exact Hrun|]. split; [exact Hagent|].
  rewrite Hrun, Hagent. unfold Orchestrator.should_stop_after_current,
    Orchestrator.set_stop_after_current. simpl.
  rewrite !lookup_insert_eq. split; reflexivity.
Qed.
